(** * CogniRename: face matching, label classification, filename derivation,
    conflict resolution and batch aggregation

  A shallow embedding of the decision logic of
  [cognirename/core/face_service.py], [cognirename/core/rename_service.py],
  [cognirename/core/rename_service_minimal.py] and
  [cognirename/utils/path_helpers.py].

  Python [str] values are modelled as [string] (the UTF-8 bytes of the
  text).  Every character the code singles out is ASCII, and an ASCII byte
  never occurs inside a multi-byte UTF-8 sequence, so replacing, stripping
  and searching on bytes agree with the same operations on code points. *)

From stdpp Require Import gmap strings list pretty.
From Stdlib Require Import Ascii QArith Qabs.
From Equations Require Import Equations.

Close Scope Q_scope.
Local Open Scope nat_scope.
Local Open Scope stdpp_scope.

(** ** Python primitives used by the sources *)

Module Py.

(** Exceptions carry the text that [str(e)] yields. *)
Inductive exn : Type :=
| FileNotFoundError (msg : string)
| ValueError (msg : string)
| IndexError (msg : string)
| OSError (msg : string).

Definition str_exn (e : exn) : string :=
  match e with
  | FileNotFoundError m | ValueError m | IndexError m | OSError m => m
  end.

(** A computation either returns or raises. *)
Inductive outcome (A : Type) : Type :=
| Ok (a : A)
| Raise (e : exn).
Global Arguments Ok {A} a.
Global Arguments Raise {A} e.

Definition bind {A B} (m : outcome A) (k : A → outcome B) : outcome B :=
  match m with
  | Ok a => k a
  | Raise e => Raise e
  end.

Global Instance outcome_ret : MRet outcome := λ A a, Ok a.
Global Instance outcome_bind : MBind outcome := λ A B k m, bind m k.

(** [[f(x) for x in l]] where [f] may raise: the first exception escapes. *)
Fixpoint traverse {A B} (f : A → outcome B) (l : list A) : outcome (list B) :=
  match l with
  | [] => Ok []
  | x :: l' => y ← f x; ys ← traverse f l'; Ok (y :: ys)
  end.

(** [try: body  except Exception: handler]. *)
Definition try_except {A} (body : outcome A) (handler : exn → A) : A :=
  match body with
  | Ok a => a
  | Raise e => handler e
  end.

(** *** [str] *)

Definition chars (s : string) : list ascii := String.list_ascii_of_string s.

(** [c in s] for a single character [c]. *)
Fixpoint char_in (c : ascii) (s : string) : bool :=
  match s with
  | EmptyString => false
  | String d s' => if decide (c = d) then true else char_in c s'
  end.

(** [s.startswith(p)]. *)
Fixpoint startswith (p s : string) : bool :=
  match p, s with
  | EmptyString, _ => true
  | String _ _, EmptyString => false
  | String a p', String b s' => if decide (a = b) then startswith p' s' else false
  end.

(** [sub in s]. *)
Fixpoint str_in (sub s : string) : bool :=
  startswith sub s ||
  match s with
  | EmptyString => false
  | String _ s' => str_in sub s'
  end.

(** [s.replace(old, new)] for a non-empty [old]: occurrences are found from
    the left and do not overlap.  [skip] counts the characters of the
    occurrence just replaced that are still to be passed over. *)
Fixpoint str_replace_go (old new : string) (skip : nat) (s : string) : string :=
  match s with
  | EmptyString => EmptyString
  | String c s' =>
      match skip with
      | S k => str_replace_go old new k s'
      | O =>
          if startswith old s
          then new +:+ str_replace_go old new (String.length old - 1) s'
          else String c (str_replace_go old new 0 s')
      end
  end.

Definition str_replace (old new s : string) : string :=
  str_replace_go old new 0 s.

(** [s.lstrip(cs)], [s.rstrip(cs)], [s.strip(cs)]. *)
Fixpoint lstrip (cs s : string) : string :=
  match s with
  | EmptyString => EmptyString
  | String c s' => if char_in c cs then lstrip cs s' else s
  end.

Fixpoint rstrip (cs s : string) : string :=
  match s with
  | EmptyString => EmptyString
  | String c s' =>
      match rstrip cs s' with
      | EmptyString => if char_in c cs then EmptyString else String c EmptyString
      | r => String c r
      end
  end.

Definition strip (cs s : string) : string := rstrip cs (lstrip cs s).

(** [sep.join(l)]. *)
Fixpoint join (sep : string) (l : list string) : string :=
  match l with
  | [] => EmptyString
  | [x] => x
  | x :: l' => x +:+ sep +:+ join sep l'
  end.

(** [s.lower()] on the ASCII range; other bytes are left as they are. *)
Definition lower_char (c : ascii) : ascii :=
  let n := Ascii.nat_of_ascii c in
  if (65 <=? n) && (n <=? 90) then Ascii.ascii_of_nat (n + 32) else c.

Fixpoint lower (s : string) : string :=
  match s with
  | EmptyString => EmptyString
  | String c s' => String (lower_char c) (lower s')
  end.

(** [s.rfind(".")]: the index of the last dot. *)
Fixpoint rfind_dot (s : string) : option nat :=
  match s with
  | EmptyString => None
  | String c s' =>
      match rfind_dot s' with
      | Some i => Some (S i)
      | None => if decide (c = "."%char) then Some 0 else None
      end
  end.

Fixpoint str_take (n : nat) (s : string) : string :=
  match n, s with
  | S k, String c s' => String c (str_take k s')
  | _, _ => EmptyString
  end.

Fixpoint str_drop (n : nat) (s : string) : string :=
  match n, s with
  | S k, String _ s' => str_drop k s'
  | _, _ => s
  end.

(** [list(dict.fromkeys(l))]: a key keeps the position of its first
    insertion; inserting it again changes nothing. *)
Definition dict_insert_key (d : list string) (k : string) : list string :=
  if decide (k ∈ d) then d else d ++ [k].

Definition dict_fromkeys (l : list string) : list string :=
  fold_left dict_insert_key l [].

End Py.


(** ** [pathlib]: pure POSIX paths *)

Module Pathlib.
Import Py.

(** A path is its normalised component list; [anchored] tells whether it
    starts at the root.  [Path(".")] is the relative path without components. *)
Record Path : Type := mkPath { anchored : bool; parts : list string }.

Global Instance Path_eq_dec : EqDecision Path.
Proof. solve_decision. Defined.

Global Instance Path_countable : Countable Path.
Proof.
  refine (inj_countable' (λ p, (anchored p, parts p)) (λ t, mkPath t.1 t.2) _).
  by intros [].
Defined.

Fixpoint split_on (sep : ascii) (s : string) : list string :=
  match s with
  | EmptyString => [EmptyString]
  | String c s' =>
      if decide (c = sep) then EmptyString :: split_on sep s'
      else match split_on sep s' with
           | w :: ws => String c w :: ws
           | [] => [String c EmptyString]
           end
  end.

(** Empty components and single dots are dropped when a string is parsed. *)
Definition components (s : string) : list string :=
  filter (λ w, w ≠ EmptyString ∧ w ≠ ".") (split_on "/" s).

(** [p / s]: an absolute right operand replaces the left one. *)
Definition joinpath (p : Path) (s : string) : Path :=
  if startswith "/" s then mkPath true (components s)
  else mkPath (anchored p) (parts p ++ components s).

Definition name (p : Path) : string := default EmptyString (last (parts p)).

Definition parent (p : Path) : Path := mkPath (anchored p) (removelast (parts p)).

(** The position of the dot that starts the suffix: [i = name.rfind(".")]
    with [0 < i < len(name) - 1]. *)
Definition suffix_index (name : string) : option nat :=
  match rfind_dot name with
  | Some i => if (0 <? i) && (i <? String.length name - 1) then Some i else None
  | None => None
  end.

Definition suffix (p : Path) : string :=
  match suffix_index (name p) with
  | Some i => str_drop i (name p)
  | None => EmptyString
  end.

Definition stem (p : Path) : string :=
  match suffix_index (name p) with
  | Some i => str_take i (name p)
  | None => name p
  end.

(** [str(p)]. *)
Definition str_path (p : Path) : string :=
  if anchored p then "/" +:+ join "/" (parts p)
  else match parts p with
       | [] => "."
       | _ => join "/" (parts p)
       end.

End Pathlib.

(** ** The environment: the face library and the filesystem *)

Module Env.
Import Py Pathlib.

(** The external face library.  An encoding is opaque; [norm_distance k e]
    is the Euclidean distance the library computes between a known encoding
    and a query (it raises when the shapes differ).  A finite double is a
    rational, and comparing finite doubles is comparing rationals; distances
    that are not numbers are outside the model. *)
Class FaceLib : Type := {
  Enc : Type;
  norm_distance : Enc → Enc → outcome Q
}.

(** A bounding box [(top, right, bottom, left)]. *)
Definition Loc : Type := (Z * Z * Z * Z)%type.

(** A regular file: its size, and what loading it and running the face
    locator and encoder on it gives. *)
Record File `{FaceLib} : Type := mkFile {
  st_size : N;
  scan : outcome (list (Enc * Loc))
}.
Global Arguments mkFile {_} _ _.

(** A filesystem: regular files, directories, and the directories in which
    entries may not be created or removed.  Of the permissions only the one
    to write is modelled: every directory may be searched. *)
Record FS `{FaceLib} : Type := mkFS {
  files : gmap Path File;
  dirs : gset Path;
  read_only : gset Path
}.
Global Arguments mkFS {_} _ _ _.

Section Filesystem.
Context `{FaceLib}.

(** The limits of the system (Linux): a name has at most [NAME_MAX] bytes
    and a path fewer than [PATH_MAX]. *)
Definition NAME_MAX : nat := 255.
Definition PATH_MAX : nat := 4096.

Definition ENAMETOOLONG : string := "[Errno 36] File name too long".

(** [p] is an entry of the filesystem: a regular file or a directory. *)
Definition present (fs : FS) (p : Path) : bool :=
  bool_decide (is_Some (files fs !! p)) || bool_decide (p ∈ dirs fs).

(** The system looks the components of a path up one after the other, each
    in the directory reached so far; [reached] holds the components passed.
    A name of more than [NAME_MAX] bytes is refused in the directory in
    which it is looked up (errno 36).  A component that is not a directory
    ends the walk with errno 2 or 20, and the names after it are not looked
    at. *)
Fixpoint name_too_long (fs : FS) (anchored : bool) (reached rest : list string) : bool :=
  match rest with
  | [] => false
  | c :: rest' =>
      (NAME_MAX <? String.length c) ||
      (bool_decide (mkPath anchored (reached ++ [c]) ∈ dirs fs) &&
       name_too_long fs anchored (reached ++ [c]) rest')
  end.

(** Whether the system refuses to resolve [p] (errno 36).  An entry that is
    there was created under its path, so the system resolves it. *)
Definition too_long (fs : FS) (p : Path) : bool :=
  negb (present fs p) &&
  ((PATH_MAX <=? String.length (str_path p)) ||
   name_too_long fs (anchored p) [] (parts p)).

(** [p.exists()] of Python 3.11: it calls [os.stat(p)], answers [False] for
    the errors that say that nothing is there (errno 2 and 20), and lets any
    other [OSError] through. *)
Definition path_exists (fs : FS) (p : Path) : outcome bool :=
  if too_long fs p then
    Raise (OSError (ENAMETOOLONG +:+ ": '" +:+ str_path p +:+ "'"))
  else Ok (present fs p).

Definition rename_message (errno : string) (src dst : Path) : string :=
  errno +:+ ": '" +:+ str_path src +:+ "' -> '" +:+ str_path dst +:+ "'".

(** [src.rename(dst)] for a regular file: the system has to resolve the
    target, the target directory has to exist, the target may not be a
    directory, both directories have to be writable; an existing regular
    file at the target is replaced.  A failed rename changes nothing. *)
Definition os_rename (fs : FS) (src dst : Path) : outcome FS :=
  match files fs !! src with
  | None =>
      Raise (FileNotFoundError (rename_message "[Errno 2] No such file or directory" src dst))
  | Some f =>
      if too_long fs dst then
        Raise (OSError (rename_message ENAMETOOLONG src dst))
      else if negb (bool_decide (parent dst ∈ dirs fs)) then
        Raise (FileNotFoundError (rename_message "[Errno 2] No such file or directory" src dst))
      else if bool_decide (dst ∈ dirs fs) then
        Raise (OSError (rename_message "[Errno 21] Is a directory" src dst))
      else if bool_decide (parent src ∈ read_only fs) || bool_decide (parent dst ∈ read_only fs) then
        Raise (OSError (rename_message "[Errno 13] Permission denied" src dst))
      else
        Ok (mkFS (<[dst := f]> (delete src (files fs))) (dirs fs) (read_only fs))
  end.

(** The numbering loop of [resolve_filename_conflict] and of
    [get_unique_filename]:

      counter = 1
      while True:
          new_path = numbered(counter)
          if not new_path.exists(): return new_path
          counter += 1
          if counter > 9999: return fallback

    The result comes with the paths whose existence was asked, in order.
    A call of [exists] that raises ends the loop with its exception. *)
Section NumberingLoop.
Variable fs : FS.
Variable numbered : N → Path.
Variable fallback : Path.

Equations? probe_loop (counter : N) : list Path * outcome Path
  by wf (N.to_nat (10000 - counter)) lt :=
probe_loop counter with path_exists fs (numbered counter) := {
  | Raise e => ([numbered counter], Raise e)
  | Ok false => ([numbered counter], Ok (numbered counter))
  | Ok true with decide (9999 < counter + 1)%N := {
      | left _ => ([numbered counter], Ok fallback)
      | right _ =>
          (λ r, (numbered counter :: r.1, r.2)) (probe_loop (counter + 1)%N) } }.
Proof. lia. Qed.

End NumberingLoop.
End Filesystem.

End Env.

(** ** [cognirename/config.py] *)

Module Config.

(** [FACE_RECOGNITION_CONFIG]: the tolerance 0.6.  A double [d] satisfies
    [d <= 0.6] as doubles exactly when it is at most six tenths. *)
Definition tolerance : Q := (6 # 10)%Q.

(** [RENAME_CONFIG]. *)
Definition max_names_per_file : nat := 3.
Definition name_separator : string := "_".
Definition duplicate_format : string := "({n})".

Definition SUPPORTED_IMAGE_FORMATS : gset string :=
  {[ ".jpg"; ".jpeg"; ".png"; ".webp"; ".jfif"; ".bmp"; ".tiff"; ".tif" ]}.

(** [PERFORMANCE_CONFIG]. *)
Definition max_image_size : N := (50 * 1024 * 1024)%N.
Definition max_workers : nat := 4.

End Config.

(** ** [cognirename/utils/path_helpers.py] *)

Module PathHelpers.
Import Py Pathlib Env.

(** [invalid_chars]: the nine characters less-than, greater-than, colon,
    double quote (code 34), slash, backslash, bar, question mark, star. *)
Definition invalid_chars : string :=
  String "<" (String ">" (String ":" (String "034" "/\|?*"))).

(** [while '__' in cleaned: cleaned = cleaned.replace('__', '_')], with the
    number of iterations bounded by [fuel]. *)
Fixpoint collapse_underscores (fuel : nat) (cleaned : string) : string :=
  match fuel with
  | O => cleaned
  | S fuel' =>
      if str_in "__" cleaned
      then collapse_underscores fuel' (str_replace "__" "_" cleaned)
      else cleaned
  end.

(** [for char in invalid_chars: cleaned = cleaned.replace(char, '_')]. *)
Definition replace_invalid (filename : string) : string :=
  fold_left (λ cleaned char, str_replace (String char EmptyString) "_" cleaned)
            (chars invalid_chars) filename.

(** [clean_filename].  Every pass of the collapsing loop shortens the
    string, so its length is fuel enough (lemma [collapse_underscores_done]). *)
Definition clean_filename (filename : string) : string :=
  let cleaned := replace_invalid filename in
  let cleaned := collapse_underscores (String.length cleaned) cleaned in
  let cleaned := strip ". " cleaned in
  if decide (cleaned = EmptyString) then "unnamed" else cleaned.

Section UniqueFilename.
Context `{FaceLib}.

(** [get_unique_filename], with the paths it probed.  [now] is
    [int(time.time())]. *)
Definition get_unique_filename_probes (now : N) (fs : FS) (base_path : Path)
  : list Path * outcome Path :=
  match path_exists fs base_path with
  | Raise e => ([base_path], Raise e)
  | Ok false => ([base_path], Ok base_path)
  | Ok true =>
      let directory := parent base_path in
      let stem := stem base_path in
      let suffix := suffix base_path in
      let r := probe_loop fs
                 (λ counter,
                    joinpath directory (stem +:+ "(" +:+ pretty counter +:+ ")" +:+ suffix))
                 (joinpath directory (stem +:+ "_" +:+ pretty now +:+ suffix))
                 1%N in
      (base_path :: r.1, r.2)
  end.

Definition get_unique_filename (now : N) (fs : FS) (base_path : Path) : outcome Path :=
  (get_unique_filename_probes now fs base_path).2.

End UniqueFilename.

End PathHelpers.

(** ** [numpy] and [face_recognition] calls made by the face service *)

Module FaceApi.
Import Py Env.

(** [l[i]]. *)
Definition index {A} (l : list A) (i : nat) : outcome A :=
  match l !! i with
  | Some x => Ok x
  | None => Raise (IndexError "index out of range")
  end.

(** [np.argmin]: a scan from the left that moves to a later position only
    for a strictly smaller value, so that of several equal minima the first
    is reported. *)
Fixpoint argmin_go (ip : list Q) (i : nat) (mp : Q) (min_ind : nat) : nat :=
  match ip with
  | [] => min_ind
  | x :: ip' =>
      if Qle_bool mp x then argmin_go ip' (S i) mp min_ind
      else argmin_go ip' (S i) x i
  end.

Definition argmin (a : list Q) : outcome nat :=
  match a with
  | [] => Raise (ValueError "attempt to get argmin of an empty sequence")
  | x :: a' => Ok (argmin_go a' 1 x 0)
  end.

(** [face_recognition.face_distance(known, query)]: one distance per known
    encoding, in the order of [known]. *)
Definition face_distance `{FaceLib} (known : list Enc) (query : Enc) : outcome (list Q) :=
  traverse (λ k, norm_distance k query) known.

End FaceApi.

(** ** [cognirename/core/face_service.py] *)

Module FaceSvc.
Import Py Pathlib Env FaceApi.

Record FaceService `{FaceLib} : Type := mkFaceService {
  known_encodings : list Enc;
  known_names : list string;
  tolerance : Q
}.
Global Arguments mkFaceService {_} _ _ _.

Section Service.
Context `{FaceLib}.

(** [_load_known_faces]: [face_data] is what [db.get_all_face_encodings()]
    returned, rows [(person_id, name, encoding)] in the order of the query. *)
Definition load_known_faces (face_data : list (Z * string * Enc))
  : list Enc * list string :=
  fold_left (λ cache row,
               match row with
               | (person_id, name, encoding) => (cache.1 ++ [encoding], cache.2 ++ [name])
               end)
            face_data ([], []).

(** [FaceService.__init__]. *)
Definition init (face_data : list (Z * string * Enc)) : FaceService :=
  let cache := load_known_faces face_data in
  mkFaceService cache.1 cache.2 Config.tolerance.

(** [detect_faces_in_image]. *)
Definition detect_faces_in_image (fs : FS) (image_path : Path)
  : outcome (list (Enc * Loc)) :=
  found ← path_exists fs image_path;
  if negb found then
    Raise (FileNotFoundError ("画像ファイルが見つかりません: " +:+ str_path image_path))
  else
    match files fs !! image_path with
    | Some f =>
        if (Config.max_image_size <? st_size f)%N then
          Raise (ValueError "画像ファイルが大きすぎます")
        else
          match scan f with
          | Ok face_data => Ok face_data
          | Raise e => Raise (ValueError ("画像処理エラー: " +:+ str_exn e))
          end
    | None =>
        (* a directory: loading it as an image fails *)
        Raise (ValueError ("画像処理エラー: [Errno 21] Is a directory: '"
                           +:+ str_path image_path +:+ "'"))
    end.

(** The body of the loop of [identify_faces], for one encoding. *)
Definition identify_face (svc : FaceService) (encoding : Enc) : outcome (option string) :=
  distances ← face_distance (known_encodings svc) encoding;
  min_distance_idx ← argmin distances;
  min_distance ← index distances min_distance_idx;
  if Qle_bool min_distance (tolerance svc) then
    name ← index (known_names svc) min_distance_idx;
    Ok (Some name)
  else Ok None.

(** [identify_faces]. *)
Definition identify_faces (svc : FaceService) (face_encodings : list Enc)
  : outcome (list (option string)) :=
  match known_encodings svc with
  | [] => Ok (replicate (length face_encodings) None)
  | _ => traverse (identify_face svc) face_encodings
  end.

(** [process_image_for_rename]. *)
Definition process_image_for_rename (svc : FaceService) (fs : FS) (image_path : Path)
  : list string :=
  try_except
    (face_data ← detect_faces_in_image fs image_path;
     match face_data with
     | [] => Ok []
     | _ =>
         let encodings := map fst face_data in
         identified_names ← identify_faces svc encodings;
         let valid_names := omap id identified_names in
         let unique_names := dict_fromkeys valid_names in
         let max_names := Config.max_names_per_file in
         Ok (take max_names unique_names)
     end)
    (λ e, []).

End Service.
End FaceSvc.

(** ** [cognirename/core/rename_service.py] *)

Module RenameSvc.
Import Py Pathlib Env FaceSvc.

Record RenameService `{FaceLib} : Type := mkRenameService {
  face_service : FaceService;
  name_separator : string;
  duplicate_format : string;
  max_workers : nat
}.
Global Arguments mkRenameService {_} _ _ _ _.

(** The dictionary returned by [rename_single_file], without its timing
    entry. *)
Record RenameResult : Type := mkResult {
  original_path : string;
  success : bool;
  new_path : option string;
  identified_names : list string;
  error : option string
}.

Global Instance RenameResult_eq_dec : EqDecision RenameResult.
Proof. solve_decision. Defined.

(** The dictionary returned by [rename_batch], without its timing entries. *)
Record Summary : Type := mkSummary {
  total_files : nat;
  successful : nat;
  failed : nat;
  no_faces : nat;
  results : list RenameResult
}.

Definition NO_FACE_MESSAGE : string := "顔を認識できませんでした".

(** [fmt.format(n=counter)] for a template whose only field is [{n}]. *)
Definition format_n (fmt : string) (counter : N) : string :=
  str_replace "{n}" (pretty counter) fmt.

Section Service.
Context `{FaceLib}.

(** [RenameService.__init__]. *)
Definition init (face_service : FaceService) : RenameService :=
  mkRenameService face_service Config.name_separator Config.duplicate_format
                  Config.max_workers.

(** [generate_new_filename]. *)
Definition generate_new_filename (svc : RenameService) (names : list string)
  (original_path : Path) : string :=
  match names with
  | [] => name original_path
  | _ =>
      let name_part := join (name_separator svc) names in
      let extension := lower (suffix original_path) in
      name_part +:+ extension
  end.

(** The candidate that [resolve_filename_conflict] forms for [counter]:
    [base_path / f"{stem}{duplicate_suffix}{suffix}"]. *)
Definition numbered_path (svc : RenameService) (target_path : Path) (counter : N) : Path :=
  let base_path := parent target_path in
  let stem := stem target_path in
  let suffix := suffix target_path in
  let duplicate_suffix := format_n (duplicate_format svc) counter in
  joinpath base_path (stem +:+ duplicate_suffix +:+ suffix).

(** Its last resort: [base_path / f"{stem}_{timestamp}{suffix}"]. *)
Definition stamped_path (target_path : Path) (timestamp : N) : Path :=
  let base_path := parent target_path in
  let stem := stem target_path in
  let suffix := suffix target_path in
  joinpath base_path (stem +:+ "_" +:+ pretty timestamp +:+ suffix).

(** [resolve_filename_conflict], with the paths whose existence it asked,
    in order.  [now] is [int(time.time())]. *)
Definition resolve_filename_conflict_probes (svc : RenameService) (now : N)
  (fs : FS) (target_path : Path) : list Path * outcome Path :=
  match path_exists fs target_path with
  | Raise e => ([target_path], Raise e)
  | Ok false => ([target_path], Ok target_path)
  | Ok true =>
      let r := probe_loop fs (numbered_path svc target_path)
                          (stamped_path target_path now) 1%N in
      (target_path :: r.1, r.2)
  end.

Definition resolve_filename_conflict (svc : RenameService) (now : N)
  (fs : FS) (target_path : Path) : outcome Path :=
  (resolve_filename_conflict_probes svc now fs target_path).2.

(** [rename_single_file]: the result and the filesystem it leaves.  An
    exception of [resolve_filename_conflict] or of the rename call is caught
    by the [except] clause, which leaves the entries set so far. *)
Definition rename_single_file (svc : RenameService) (now : N) (fs : FS)
  (image_path : Path) (dry_run : bool) : RenameResult * FS :=
  let original := str_path image_path in
  if negb (bool_decide (lower (suffix image_path) ∈ Config.SUPPORTED_IMAGE_FORMATS)) then
    (mkResult original false None []
              (Some ("非対応フォーマット: " +:+ suffix image_path)), fs)
  else
    let identified_names := process_image_for_rename (face_service svc) fs image_path in
    match identified_names with
    | [] => (mkResult original false None identified_names (Some NO_FACE_MESSAGE), fs)
    | _ =>
        let new_filename := generate_new_filename svc identified_names image_path in
        let target_path := joinpath (parent image_path) new_filename in
        let resolved :=
          if decide (target_path ≠ image_path)
          then resolve_filename_conflict svc now fs target_path
          else Ok target_path in
        match resolved with
        | Raise e =>
            (mkResult original false None identified_names
                      (Some ("リネーム処理エラー: " +:+ str_exn e)), fs)
        | Ok target_path =>
            let new_path := Some (str_path target_path) in
            if negb dry_run && bool_decide (target_path ≠ image_path) then
              match os_rename fs image_path target_path with
              | Ok fs' => (mkResult original true new_path identified_names None, fs')
              | Raise e =>
                  (mkResult original false new_path identified_names
                            (Some ("リネーム処理エラー: " +:+ str_exn e)), fs)
              end
            else (mkResult original true new_path identified_names None, fs)
        end
    end.

(** The calls that [rename_batch] submits to its thread pool.  The model runs
    them one after the other, each to its end, in the order of the list: one
    of the schedules of the pool, and the order in which the results are then
    collected.  [clock p] is the time read while [p] is processed. *)
Fixpoint run_files (svc : RenameService) (clock : Path → N) (fs : FS)
  (image_files : list Path) (dry_run : bool) : list RenameResult * FS :=
  match image_files with
  | [] => ([], fs)
  | img_path :: rest =>
      let r := rename_single_file svc (clock img_path) fs img_path dry_run in
      let rs := run_files svc clock r.2 rest dry_run in
      (r.1 :: rs.1, rs.2)
  end.

(** The counting step of [rename_batch]: [(successful, failed, no_faces)]. *)
Definition count_result (counters : nat * nat * nat) (result : RenameResult)
  : nat * nat * nat :=
  match counters with
  | (successful, failed, no_faces) =>
      if success result then (successful + 1, failed, no_faces)
      else
        let failed := failed + 1 in
        if str_in NO_FACE_MESSAGE (default EmptyString (error result))
        then (successful, failed, no_faces + 1)
        else (successful, failed, no_faces)
  end.

(** [rename_batch]. *)
Definition rename_batch (svc : RenameService) (clock : Path → N) (fs : FS)
  (image_files : list Path) (dry_run : bool) : Summary * FS :=
  let total_files := length image_files in
  if total_files =? 0 then (mkSummary 0 0 0 0 [], fs)
  else
    let run := run_files svc clock fs image_files dry_run in
    match fold_left count_result run.1 (0, 0, 0) with
    | (successful, failed, no_faces) =>
        (mkSummary total_files successful failed no_faces run.1, run.2)
    end.

End Service.
End RenameSvc.

(** ** [cognirename/core/rename_service_minimal.py] *)

Module RenameMinimal.
Import Py Pathlib PathHelpers.

Record RenameServiceMinimal : Type := mkRenameServiceMinimal {
  max_names_per_file : nat;
  name_separator : string;
  duplicate_format : string
}.

Definition init : RenameServiceMinimal :=
  mkRenameServiceMinimal Config.max_names_per_file Config.name_separator
                         Config.duplicate_format.

(** [generate_new_filename]; nothing in its [try] block raises on strings. *)
Definition generate_new_filename (svc : RenameServiceMinimal)
  (identified_names : list string) (original_path : Path) : string :=
  match identified_names with
  | [] => name original_path
  | _ =>
      let names_to_use := take (max_names_per_file svc) identified_names in
      let clean_names := map clean_filename names_to_use in
      let clean_names := filter (λ name, name ≠ EmptyString) clean_names in
      match clean_names with
      | [] => name original_path
      | _ =>
          let new_stem := join (name_separator svc) clean_names in
          new_stem +:+ suffix original_path
      end
  end.

End RenameMinimal.

(** ** The specification's wording of deduplication *)

Module Spec.

(** Stated from the specification (deduplicates names preserving
    first-occurrence order): a name stays where it occurs first, and its
    later occurrences are dropped. *)
Fixpoint first_occurrences (names : list string) : list string :=
  match names with
  | [] => []
  | n :: names' => n :: filter (λ m, m ≠ n) (first_occurrences names')
  end.

End Spec.

(** ** Concrete data: a face library, a gallery and some directories *)

Module Scenario.
Import Py Pathlib Env FaceSvc RenameSvc.

(** A face library whose encodings are rationals at distance [|k - e|]. *)
Global Instance lib : FaceLib := {|
  Enc := Q;
  norm_distance k e := Ok (Qabs (k - e))
|}.

Definition box : Loc := (0, 10, 10, 0)%Z.

(** Five registered people, one encoding each. *)
Definition gallery : list (Z * string * Q) :=
  [(1%Z, "Alice", 0%Q); (2%Z, "Bob", 1%Q); (3%Z, "Carol", 2%Q); (4%Z, "Dave", 3%Q);
   (5%Z, "Erin", 4%Q)].

Definition faces : FaceService := FaceSvc.init gallery.

(** Two registered people whose encodings are 2 apart. *)
Definition distant_gallery : list (Z * string * Q) :=
  [(1%Z, "Alice", 0%Q); (2%Z, "Bob", 2%Q)].
Definition service : RenameService := RenameSvc.init faces.

Definition photos : Path := mkPath false ["photos"].
Definition photo (file_name : string) : Path := joinpath photos file_name.

Definition image (encodings : list Q) : File :=
  mkFile 1000 (Ok (map (λ e, (e, box)) encodings)).
Definition unreadable : File :=
  mkFile 1000 (Raise (OSError "cannot identify image file")).

(** The batch of the specification: two images without a face, one image on
    which detection raises, one image of Alice and one of Bob. *)
Definition batch_files : list Path :=
  [photo "empty1.jpg"; photo "empty2.jpg"; photo "broken.jpg";
   photo "img_a.jpg"; photo "img_b.jpg"].

Definition batch_fs : FS :=
  mkFS (list_to_map
          [(photo "empty1.jpg", image []); (photo "empty2.jpg", image []);
           (photo "broken.jpg", unreadable);
           (photo "img_a.jpg", image [0%Q]); (photo "img_b.jpg", image [1%Q])])
       {[ photos ]} ∅.

Definition clock (p : Path) : N := 1700000000%N.

(** A photo of the five registered people, and a photo on which Alice is
    found twice, before and after Bob. *)
Definition group_fs : FS :=
  mkFS (list_to_map
          [(photo "group.jpg", image [0; 1; 2; 3; 4]%Q);
           (photo "twice.jpg", image [0; 1; 1 # 10]%Q)])
       {[ photos ]} ∅.

(** The directory [photos] with the given files in it, none of them an
    image. *)
Definition text_file : File := mkFile 0 (Raise (OSError "cannot identify image file")).

Definition directory (file_names : list string) : FS :=
  mkFS (list_to_map (map (λ file_name, (photo file_name, text_file)) file_names))
       {[ photos ]} ∅.

(** It holds [test.txt] and [test(1).txt]. *)
Definition test_fs : FS := directory ["test.txt"; "test(1).txt"].

(** It holds [test.txt] and [test(1).txt] to [test(9999).txt]. *)
Definition numbered_name (k : N) : string := "test(" +:+ pretty k +:+ ").txt".

Definition crowded_names : list string :=
  "test.txt" :: map (λ k, numbered_name (N.of_nat k)) (seq 1 (N.to_nat 9999)).

Definition crowded_fs : FS := directory crowded_names.

(** It holds [test_1700000000.txt] as well. *)
Definition crowded_stamped_fs : FS := directory ("test_1700000000.txt" :: crowded_names).

(** A name of 255 bytes, the longest that the system accepts, in a directory
    that holds a file of that name; and a name of 256 bytes. *)
Definition longest_name : string :=
  String.string_of_list_ascii (replicate 251 "a"%char) +:+ ".txt".

Definition longest_fs : FS := directory [longest_name].

Definition long_name : string :=
  String.string_of_list_ascii (replicate 252 "a"%char) +:+ ".txt".

(** A photo of Alice in a directory that is not writable. *)
Definition locked_fs : FS :=
  mkFS (list_to_map [(photo "img_a.jpg", image [0%Q])]) {[ photos ]} {[ photos ]}.

End Scenario.

(** * More of the code *)

From stdpp Require Import sorting.

(** ** [rename_service.py]: the preview, the search for images, a directory *)

Module Preview.
Import Py Pathlib Env FaceSvc RenameSvc.

(** [l[:m]] for an integer [m]: a negative [m] counts from the end. *)
Definition slice_to {A} (l : list A) (m : Z) : list A :=
  if (0 <=? m)%Z then take (Z.to_nat m) l
  else take (length l - Z.to_nat (- m)) l.

(** An entry of the list returned by [get_rename_preview]; [error] is the
    key that only the [except] branch sets. *)
Record PreviewEntry : Type := mkPreviewEntry {
  original_name : string;
  new_name : string;
  identified_names : list string;
  has_faces : bool;
  error : option string
}.

(** [get_rename_preview].  Neither [process_image_for_rename] nor
    [generate_new_filename] raises, so the [except] branch is not taken. *)
Definition get_rename_preview `{FaceLib} (svc : RenameService) (fs : FS)
  (image_files : list Path) (max_preview : Z) : list PreviewEntry :=
  let preview_files := slice_to image_files max_preview in
  map (λ image_path,
         let identified_names :=
           process_image_for_rename (face_service svc) fs image_path in
         let new_filename := generate_new_filename svc identified_names image_path in
         mkPreviewEntry (name image_path) new_filename identified_names
                        (bool_decide (0 < length identified_names)) None)
      preview_files.

End Preview.

Module Listing.
Import Py Pathlib Env FaceSvc RenameSvc.

(** The order of paths used by [sorted]: the tuples of their parts, the root
    first for an absolute path, compared component by component. *)
Definition path_key (p : Path) : list string :=
  (if anchored p then ["/"] else []) ++ parts p.

Fixpoint key_le (k1 k2 : list string) : bool :=
  match k1, k2 with
  | [], _ => true
  | _ :: _, [] => false
  | a :: k1', b :: k2' => if decide (a = b) then key_le k1' k2' else String.leb a b
  end.

Definition path_le (p q : Path) : Prop := Is_true (key_le (path_key p) (path_key q)).

Global Instance path_le_dec : RelDecision path_le.
Proof. intros p q. unfold path_le. apply _. Defined.

Section Search.
Context `{FaceLib}.

(** The regular files that [directory.glob("*")] (the entries of the
    directory) or [directory.glob("**/*")] (the entries at any depth) yields,
    in some order.  In a filesystem every ancestor of a file is a directory,
    so a file below [directory] is reached by the walk; and [is_file] on an
    entry that the walk has found answers. *)
Definition glob_files (fs : FS) (directory : Path) (recursive : bool) : list Path :=
  let regular_files := map fst (map_to_list (files fs)) in
  if recursive then
    filter (λ p, anchored p = anchored directory ∧ parts p ≠ parts directory ∧
                 parts directory `prefix_of` parts p)
           regular_files
  else
    filter (λ p, anchored p = anchored directory ∧ parts p ≠ parts directory ∧
                 removelast (parts p) = parts directory)
           regular_files.

(** [find_image_files]: [directory.exists()] may raise. *)
Definition find_image_files (fs : FS) (directory : Path) (recursive : bool)
  : outcome (list Path) :=
  found ← path_exists fs directory;
  if negb found || negb (bool_decide (directory ∈ dirs fs)) then Ok []
  else
    let image_files :=
      filter (λ file_path, lower (suffix file_path) ∈ Config.SUPPORTED_IMAGE_FORMATS)
             (glob_files fs directory recursive) in
    Ok (merge_sort path_le image_files).

(** [rename_directory]: what it returns or raises, and the filesystem it
    leaves. *)
Definition rename_directory (svc : RenameService) (clock : Path → N) (fs : FS)
  (directory : Path) (recursive dry_run : bool) : outcome Summary * FS :=
  match find_image_files fs directory recursive with
  | Raise e => (Raise e, fs)
  | Ok [] => (Ok (mkSummary 0 0 0 0 []), fs)
  | Ok image_files =>
      let batch := rename_batch svc clock fs image_files dry_run in
      (Ok batch.1, batch.2)
  end.

End Search.
End Listing.

(** ** More of [rename_service_minimal.py] *)

Module MinimalBatch.
Import Py Pathlib Env PathHelpers RenameMinimal.

(** The dictionary returned by [process_single_image]. *)
Record Detail : Type := mkDetail {
  original_path : Path;
  original_name : string;
  new_name : string;
  identified_names : list string;
  status : string;
  error : option string
}.

(** The dictionary returned by [process_batch_images]. *)
Record BatchResult : Type := mkBatchResult {
  total_files : nat;
  successful : nat;
  no_faces : nat;
  no_change : nat;
  failed : nat;
  details : list Detail
}.

(** [process_single_image].  [face_service] is the service handed to the
    constructor, if any, seen through its [process_image_for_rename].  The
    path that [get_unique_filename] returns when [dry_run] is off is not
    used, but an exception of the call is caught by the [except] clause,
    after the new name has been set.  [now] is [int(time.time())]. *)
Definition process_single_image `{FaceLib} (svc : RenameServiceMinimal)
  (face_service : option (Path → outcome (list string)))
  (now : N) (fs : FS) (image_path : Path) (dry_run : bool) : Detail :=
  let original := name image_path in
  match face_service with
  | None =>
      mkDetail image_path original original [] "error"
               (Some "顔認識サービスが利用できません")
  | Some process_image_for_rename =>
      match process_image_for_rename image_path with
      | Raise e => mkDetail image_path original original [] "error" (Some (str_exn e))
      | Ok identified_names =>
          match identified_names with
          | [] => mkDetail image_path original original identified_names "no_faces" None
          | _ =>
              let new_filename := generate_new_filename svc identified_names image_path in
              if decide (new_filename ≠ original) then
                if negb dry_run then
                  let new_path := joinpath (parent image_path) new_filename in
                  match get_unique_filename now fs new_path with
                  | Raise e =>
                      mkDetail image_path original new_filename identified_names "error"
                               (Some (str_exn e))
                  | Ok unique_path =>
                      mkDetail image_path original new_filename identified_names
                               "dry_run_only"
                               (Some "実際のリネームは未実装（ドライランのみ対応）")
                  end
                else
                  mkDetail image_path original new_filename identified_names "success" None
              else
                mkDetail image_path original new_filename identified_names "no_change" None
          end
      end
  end.

(** The counting step of [process_batch_images]. *)
Definition count_detail (b : BatchResult) (result : Detail) : BatchResult :=
  let details := details b ++ [result] in
  if decide (status result = "success") then
    mkBatchResult (total_files b) (successful b + 1) (no_faces b) (no_change b) (failed b)
                  details
  else if decide (status result = "no_faces") then
    mkBatchResult (total_files b) (successful b) (no_faces b + 1) (no_change b) (failed b)
                  details
  else if decide (status result = "no_change") then
    mkBatchResult (total_files b) (successful b) (no_faces b) (no_change b + 1) (failed b)
                  details
  else
    mkBatchResult (total_files b) (successful b) (no_faces b) (no_change b) (failed b + 1)
                  details.

(** [process_batch_images]; [clock p] is the time read while [p] is
    processed. *)
Definition process_batch_images `{FaceLib} (svc : RenameServiceMinimal)
  (face_service : option (Path → outcome (list string)))
  (clock : Path → N) (fs : FS)
  (image_paths : list Path) (dry_run : bool) : BatchResult :=
  fold_left (λ batch_result image_path,
               count_detail batch_result
                            (process_single_image svc face_service (clock image_path) fs
                                                  image_path dry_run))
            image_paths
            (mkBatchResult (length image_paths) 0 0 0 0 []).

End MinimalBatch.

(** ** [cognirename/core/db.py] *)

Module Db.
Import Py Env.

(** The result of an [INSERT] that a constraint may refuse. *)
Inductive insert_result : Type :=
| Inserted (rowid : Z)
| IntegrityError (msg : string).

(** The order of [ORDER BY name] on the rows of [persons]. *)
Definition name_le (r1 r2 : Z * string) : Prop := String.le r1.2 r2.2.

Global Instance name_le_dec : RelDecision name_le.
Proof. intros r1 r2. unfold name_le. apply _. Defined.

Section Database.
Context `{FaceLib}.

(** The two tables, their rows in the order of insertion, each with the
    largest key that [AUTOINCREMENT] has given out.  A row of [persons] is
    [(id, name)]; a row of [face_encodings] is [(id, person_id, encoding)]. *)
Record FaceDatabase : Type := mkDb {
  persons : list (Z * string);
  persons_seq : Z;
  face_encodings : list (Z * Z * Enc);
  face_encodings_seq : Z
}.

(** [_init_database] on a new file. *)
Definition empty : FaceDatabase := mkDb [] 0 [] 0.

Definition next_rowid (seq : Z) (rowids : list Z) : Z :=
  (Z.max seq (foldr Z.max 0 rowids) + 1)%Z.

(** [add_person]: [name] is [UNIQUE]. *)
Definition add_person (db : FaceDatabase) (name : string) : outcome Z * FaceDatabase :=
  if bool_decide (name ∈ map snd (persons db)) then
    (Raise (ValueError ("人物名 '" +:+ name +:+ "' は既に存在します")), db)
  else
    let person_id := next_rowid (persons_seq db) (map fst (persons db)) in
    (Ok person_id,
     mkDb (persons db ++ [(person_id, name)]) person_id
          (face_encodings db) (face_encodings_seq db)).

(** [get_person_by_name]. *)
Definition get_person_by_name (db : FaceDatabase) (name : string) : option (Z * string) :=
  head (filter (λ row, row.2 = name) (persons db)).

(** [get_all_persons]. *)
Definition get_all_persons (db : FaceDatabase) : list (Z * string) :=
  merge_sort name_le (persons db).

(** [add_face_encoding]: [person_id] is a foreign key, and the connection
    enforces foreign keys. *)
Definition add_face_encoding (db : FaceDatabase) (person_id : Z) (encoding : Enc)
  : insert_result * FaceDatabase :=
  if bool_decide (person_id ∈ map fst (persons db)) then
    let encoding_id :=
      next_rowid (face_encodings_seq db) (map (λ row, row.1.1) (face_encodings db)) in
    (Inserted encoding_id,
     mkDb (persons db) (persons_seq db)
          (face_encodings db ++ [(encoding_id, person_id, encoding)]) encoding_id)
  else (IntegrityError "FOREIGN KEY constraint failed", db).

(** [get_face_encodings_by_person]. *)
Definition get_face_encodings_by_person (db : FaceDatabase) (person_id : Z) : list Enc :=
  map snd (filter (λ row, row.1.2 = person_id) (face_encodings db)).

(** [get_all_face_encodings]: the join of the two tables in the order of the
    names; the encodings of one person come in the order of their keys. *)
Definition get_all_face_encodings (db : FaceDatabase) : list (Z * string * Enc) :=
  flat_map (λ person,
              map (λ encoding, (person.1, person.2, encoding))
                  (get_face_encodings_by_person db person.1))
           (merge_sort name_le (persons db)).

(** [delete_person]: the encodings of the person go with it
    ([ON DELETE CASCADE]). *)
Definition delete_person (db : FaceDatabase) (person_id : Z) : bool * FaceDatabase :=
  let deleted := bool_decide (person_id ∈ map fst (persons db)) in
  (deleted,
   mkDb (filter (λ row, row.1 ≠ person_id) (persons db)) (persons_seq db)
        (filter (λ row, row.1.2 ≠ person_id) (face_encodings db))
        (face_encodings_seq db)).

End Database.
End Db.

(** ** [face_service.py]: registration *)

Module Registration.
Import Py Pathlib Env FaceSvc Db.

Section Service.
Context `{FaceLib}.

(** A face service with its database: [self.db] and the cache. *)
Record State : Type := mkState {
  db : FaceDatabase;
  cache : FaceService
}.

(** [FaceService.__init__] on a database. *)
Definition init (db : FaceDatabase) : State :=
  mkState db (FaceSvc.init (get_all_face_encodings db)).

(** [refresh_known_faces]. *)
Definition refresh_known_faces (st : State) : State :=
  let loaded := load_known_faces (get_all_face_encodings (db st)) in
  mkState (db st) (mkFaceService loaded.1 loaded.2 (tolerance (cache st))).

(** [register_face_from_image]: what it returns or raises, and the state it
    leaves.  The [except] clause turns an exception of the database calls
    into [False].  Of these the model has the refusals of the constraints of
    the schema; what [sqlite3] raises for a name that is not text, or for a
    database file that it cannot write, is outside the model. *)
Definition register_face_from_image (st : State) (fs : FS) (image_path : Path)
  (person_name : string) : outcome bool * State :=
  match detect_faces_in_image fs image_path with
  | Raise e => (Raise e, st)
  | Ok [] =>
      (Raise (ValueError ("顔が検出されませんでした: " +:+ name image_path)), st)
  | Ok [(encoding, _)] =>
      let added :=
        match get_person_by_name (db st) person_name with
        | Some existing_person => (Ok existing_person.1, db st)
        | None => add_person (db st) person_name
        end in
      match added with
      | (Raise e, db1) => (Ok false, mkState db1 (cache st))
      | (Ok person_id, db1) =>
          match add_face_encoding db1 person_id encoding with
          | (IntegrityError _, db2) => (Ok false, mkState db2 (cache st))
          | (Inserted _, db2) => (Ok true, refresh_known_faces (mkState db2 (cache st)))
          end
      end
  | Ok face_data =>
      (Raise (ValueError ("複数の顔が検出されました: " +:+ name image_path +:+ " ("
                          +:+ pretty (N.of_nat (length face_data)) +:+ "件)")), st)
  end.

End Service.
End Registration.

(** ** More concrete data *)

Module Scenario2.
Import Py Pathlib Env FaceSvc RenameSvc Db Registration Scenario.

(** A directory in which the name derived for the photo of Alice is taken,
    with a text file and a subdirectory that holds another photo. *)
Definition album : Path := joinpath photos "album".

Definition mixed_fs : FS :=
  mkFS (list_to_map
          [(photo "img_a.JPG", image [0%Q]); (photo "Alice.jpg", image [0%Q]);
           (photo "notes.txt", text_file);
           (joinpath album "img_b.png", image [1%Q])])
       {[ photos; album ]} ∅.

(** A database with Bob and Alice, one encoding each, out of name order. *)
Definition two_people : FaceDatabase :=
  mkDb [(1%Z, "Bob"); (2%Z, "Alice")] 2 [(1%Z, 1%Z, 1%Q); (2%Z, 2%Z, 0%Q)] 2.

(** A photo of one unknown person, and a photo of two people. *)
Definition portraits_fs : FS :=
  mkFS (list_to_map
          [(photo "carol.jpg", image [2%Q]); (photo "pair.jpg", image [0; 1]%Q)])
       {[ photos ]} ∅.

(** Three registered people whose names have 100 bytes each, and a photo of
    the three: the name derived for it has 306 bytes. *)
Definition wide_name (c : ascii) : string :=
  String.string_of_list_ascii (replicate 100 c).

Definition wide_gallery : list (Z * string * Q) :=
  [(1%Z, wide_name "a", 0%Q); (2%Z, wide_name "b", 1%Q); (3%Z, wide_name "c", 2%Q)].

Definition wide_service : RenameService := RenameSvc.init (FaceSvc.init wide_gallery).

Definition trio_fs : FS :=
  mkFS (list_to_map [(photo "trio.jpg", image [0; 1; 2]%Q)]) {[ photos ]} ∅.

End Scenario2.

(** ** What the schema keeps true of a database *)

Module DbInvariant.
Import Db.

(** The keys of each table are distinct, positive and not above the largest
    key given out; the names are distinct ([UNIQUE]); every encoding belongs
    to a person of the table ([FOREIGN KEY]). *)
Definition consistent `{Env.FaceLib} (db : FaceDatabase) : Prop :=
  NoDup (map fst (persons db)) ∧
  NoDup (map snd (persons db)) ∧
  (∀ id, id ∈ map fst (persons db) → (0 < id ≤ persons_seq db)%Z) ∧
  NoDup (map (λ row, row.1.1) (face_encodings db)) ∧
  (∀ row, row ∈ face_encodings db →
          (0 < row.1.1 ≤ face_encodings_seq db)%Z ∧ row.1.2 ∈ map fst (persons db)).

End DbInvariant.

(** * Properties *)

Import Py Pathlib Env FaceApi FaceSvc RenameSvc PathHelpers.

(** ** Strings *)

Lemma append_cons (a : ascii) (s t : string) : String a s +:+ t = String a (s +:+ t).
Proof. reflexivity. Qed.

Lemma append_empty_l (t : string) : EmptyString +:+ t = t.
Proof. reflexivity. Qed.

Lemma startswith_append (sub p t : string) :
  startswith sub p = true → startswith sub (p +:+ t) = true.
Proof.
  revert p. induction sub as [|a sub IH]; intros [|b p]; simpl; try done.
  case_decide; [apply IH|done].
Qed.

Lemma str_in_append (sub p t : string) :
  str_in sub p = true → str_in sub (p +:+ t) = true.
Proof.
  induction p as [|b p IH].
  - simpl. rewrite orb_false_r. intros Hs. destruct sub; [|done].
    destruct t; reflexivity.
  - rewrite append_cons. cbn [str_in]. intros [Hs|Hs]%orb_true_iff.
    + apply (startswith_append _ _ t) in Hs. rewrite append_cons in Hs.
      by rewrite Hs.
    + rewrite (IH Hs). apply orb_true_r.
Qed.

Lemma char_in_append (d : ascii) (p t : string) :
  char_in d (p +:+ t) = char_in d p || char_in d t.
Proof.
  induction p as [|b p IH]; [done|].
  rewrite append_cons. simpl. by case_decide.
Qed.

(** *** Replacing one character *)

Lemma str_replace_char_step (c d : ascii) (new s : string) :
  str_replace (String c EmptyString) new (String d s) =
  if decide (c = d) then new +:+ str_replace (String c EmptyString) new s
  else String d (str_replace (String c EmptyString) new s).
Proof.
  unfold str_replace. cbn [str_replace_go startswith].
  case_decide; [|done]. by destruct s.
Qed.

Lemma str_replace_char_absent (c : ascii) (new s : string) :
  char_in c s = false → str_replace (String c EmptyString) new s = s.
Proof.
  induction s as [|d s IH]; [done|].
  simpl. rewrite str_replace_char_step. case_decide; [done|].
  intros Hs. by rewrite IH.
Qed.

Lemma str_replace_char_keeps_absent (c d : ascii) (s : string) :
  d ≠ "_"%char → (d = c ∨ char_in d s = false) →
  char_in d (str_replace (String c EmptyString) "_" s) = false.
Proof.
  intros Hd. induction s as [|a s IH]; [done|].
  intros Hs. rewrite str_replace_char_step.
  assert (d = c ∨ char_in d s = false) as Htail.
  { destruct Hs as [?|Hs]; [by left|]. simpl in Hs. case_decide; [done|by right]. }
  specialize (IH Htail).
  destruct (decide (c = a)) as [->|Hca].
  - change ("_" +:+ ?t) with (String "_" t). simpl. by case_decide.
  - simpl. destruct (decide (d = a)) as [->|?]; [|done].
    destruct Hs as [->|Hs]; [done|]. simpl in Hs. by case_decide.
Qed.

(** *** Replacing two underscores by one *)

Lemma str_replace_uu_pair (s : string) :
  str_replace "__" "_" (String "_" (String "_" s)) = String "_" (str_replace "__" "_" s).
Proof. reflexivity. Qed.

Lemma str_replace_uu_other (a : ascii) (s : string) :
  startswith "__" (String a s) = false →
  str_replace "__" "_" (String a s) = String a (str_replace "__" "_" s).
Proof. unfold str_replace. cbn [str_replace_go]. by intros ->. Qed.

Lemma startswith_uu (s : string) :
  startswith "__" s = true → ∃ t, s = String "_" (String "_" t).
Proof.
  destruct s as [|a [|b t]]; simpl; try done.
  - by case_decide.
  - repeat case_decide; try done. subst. eauto.
Qed.

(** Induction over a string two characters at a time. *)
Lemma string_pair_ind (P : string → Prop) :
  P EmptyString →
  (∀ a s, P s → (∀ b t, s = String b t → P t) → P (String a s)) →
  ∀ s, P s.
Proof.
  intros Hnil Hcons s.
  enough (P s ∧ ∀ b t, s = String b t → P t) as [? _] by done.
  induction s as [|a s [IH1 IH2]]; [by split|].
  split; [by apply Hcons|]. by intros ?? [= _ <-].
Qed.

Lemma str_replace_uu_char_in (d : ascii) (s : string) :
  char_in d (str_replace "__" "_" s) = true → char_in d s = true.
Proof.
  induction s as [|a s IH1 IH2] using string_pair_ind; [done|].
  destruct (startswith "__" (String a s)) eqn:Hp.
  - apply startswith_uu in Hp as [t [= -> ->]].
    rewrite str_replace_uu_pair. simpl. case_decide; [done|].
    intros Ht. by rewrite (IH2 _ _ eq_refl Ht).
  - rewrite str_replace_uu_other by done. simpl. case_decide; [done|]. apply IH1.
Qed.

Lemma str_replace_uu_length (s : string) :
  String.length (str_replace "__" "_" s) ≤ String.length s ∧
  (str_in "__" s = true → String.length (str_replace "__" "_" s) < String.length s).
Proof.
  induction s as [|a s IH1 IH2] using string_pair_ind; [by split|].
  destruct (startswith "__" (String a s)) eqn:Hp.
  - apply startswith_uu in Hp as [t [= -> ->]].
    rewrite str_replace_uu_pair. destruct (IH2 _ _ eq_refl) as [Hle _].
    simpl in *. split; intros; lia.
  - rewrite str_replace_uu_other by done. destruct IH1 as [Hle Hlt].
    cbn [str_in]. rewrite Hp. simpl in *. split; [lia|].
    intros Hin. specialize (Hlt Hin). lia.
Qed.

(** *** The collapsing loop *)

Lemma collapse_underscores_fixed (fuel : nat) (s : string) :
  str_in "__" s = false → collapse_underscores fuel s = s.
Proof. destruct fuel; [done|]. simpl. by intros ->. Qed.

(** The length of the string is fuel enough: the loop ends because its
    condition is false, not because the fuel is spent. *)
Lemma collapse_underscores_done (fuel : nat) (s : string) :
  String.length s ≤ fuel → str_in "__" (collapse_underscores fuel s) = false.
Proof.
  revert s. induction fuel as [|fuel IH]; intros s Hlen.
  - destruct s; [done|simpl in Hlen; lia].
  - cbn [collapse_underscores]. destruct (str_in "__" s) eqn:Hin; [|done].
    apply IH. destruct (str_replace_uu_length s) as [_ Hlt].
    specialize (Hlt Hin). lia.
Qed.

Lemma collapse_underscores_char_in (d : ascii) (fuel : nat) (s : string) :
  char_in d (collapse_underscores fuel s) = true → char_in d s = true.
Proof.
  revert s. induction fuel as [|fuel IH]; intros s; [done|].
  cbn [collapse_underscores]. destruct (str_in "__" s); [|done].
  intros Hd%IH. by apply str_replace_uu_char_in.
Qed.

(** *** Stripping *)

Lemma lstrip_suffix (cs s : string) : ∃ t, s = t +:+ lstrip cs s.
Proof.
  induction s as [|c s [t IH]]; [by exists EmptyString|].
  simpl. destruct (char_in c cs).
  - exists (String c t). by rewrite append_cons, <-IH.
  - by exists EmptyString.
Qed.

Lemma rstrip_prefix (cs s : string) : ∃ t, s = rstrip cs s +:+ t.
Proof.
  induction s as [|c s [t IH]]; [by exists EmptyString|].
  simpl. destruct (rstrip cs s) as [|a r] eqn:Hr.
  - destruct (char_in c cs).
    + by exists (String c s).
    + exists t. by rewrite IH at 1.
  - exists t. by rewrite !append_cons, <-append_cons, <-IH.
Qed.

Lemma str_in_cons (sub : string) (c : ascii) (s : string) :
  str_in sub s = true → str_in sub (String c s) = true.
Proof. intros Hs. cbn [str_in]. rewrite Hs. apply orb_true_r. Qed.

Lemma str_in_append_r (sub t s : string) :
  str_in sub s = true → str_in sub (t +:+ s) = true.
Proof.
  induction t as [|c t IH]; [done|]. intros Hs.
  rewrite append_cons. by apply str_in_cons, IH.
Qed.

Lemma strip_str_in (sub cs s : string) :
  str_in sub (strip cs s) = true → str_in sub s = true.
Proof.
  unfold strip. intros Hin.
  destruct (lstrip_suffix cs s) as [t1 H1].
  destruct (rstrip_prefix cs (lstrip cs s)) as [t2 H2].
  rewrite H1. apply str_in_append_r. rewrite H2. by apply str_in_append.
Qed.

Lemma strip_char_in (d : ascii) (cs s : string) :
  char_in d (strip cs s) = true → char_in d s = true.
Proof.
  unfold strip. intros Hin.
  destruct (lstrip_suffix cs s) as [t1 H1].
  destruct (rstrip_prefix cs (lstrip cs s)) as [t2 H2].
  rewrite H1, char_in_append, H2, char_in_append, Hin.
  by rewrite orb_true_l, orb_true_r.
Qed.

Lemma lstrip_head (cs s : string) :
  match lstrip cs s with
  | EmptyString => True
  | String c _ => char_in c cs = false
  end.
Proof.
  induction s as [|c s IH]; [done|].
  simpl. by destruct (char_in c cs) eqn:Hc.
Qed.

Lemma rstrip_cons_kept (cs : string) (c : ascii) (s : string) :
  char_in c cs = false → rstrip cs (String c s) = String c (rstrip cs s).
Proof. intros Hc. simpl. rewrite Hc. by destruct (rstrip cs s). Qed.

Lemma rstrip_cons (cs : string) (c : ascii) (s : string) :
  rstrip cs (String c s) =
  match rstrip cs s with
  | EmptyString => if char_in c cs then EmptyString else String c EmptyString
  | r => String c r
  end.
Proof. reflexivity. Qed.

Lemma rstrip_idempotent (cs s : string) : rstrip cs (rstrip cs s) = rstrip cs s.
Proof.
  induction s as [|c s IH]; [done|].
  rewrite rstrip_cons. destruct (rstrip cs s) as [|a r] eqn:Hr.
  - destruct (char_in c cs) eqn:Hc; [done|]. simpl. by rewrite Hc.
  - rewrite rstrip_cons. by rewrite IH.
Qed.

Lemma strip_idempotent (cs s : string) : strip cs (strip cs s) = strip cs s.
Proof.
  unfold strip.
  assert (lstrip cs (rstrip cs (lstrip cs s)) = rstrip cs (lstrip cs s)) as ->.
  { pose proof (lstrip_head cs s) as Hh.
    destruct (lstrip cs s) as [|c t]; [done|].
    rewrite rstrip_cons_kept by done. simpl. by rewrite Hh. }
  apply rstrip_idempotent.
Qed.

(** ** The sanitizer *)

Lemma fold_replace_absent (cs : list ascii) (d : ascii) (s : string) :
  d ≠ "_"%char → (d ∈ cs ∨ char_in d s = false) →
  char_in d (fold_left (λ cleaned char, str_replace (String char EmptyString) "_" cleaned)
                       cs s) = false.
Proof.
  intros Hd. revert s. induction cs as [|c cs IH]; intros s Hs.
  - destruct Hs as [Hs|Hs]; [by apply elem_of_nil in Hs|done].
  - simpl. apply IH.
    destruct (decide (d = c)) as [->|Hne].
    + right. apply str_replace_char_keeps_absent; auto.
    + destruct Hs as [Hs|Hs].
      * left. apply elem_of_cons in Hs as [?|?]; done.
      * right. apply str_replace_char_keeps_absent; auto.
Qed.

Lemma fold_replace_fixed (cs : list ascii) (s : string) :
  (∀ c, c ∈ cs → char_in c s = false) →
  fold_left (λ cleaned char, str_replace (String char EmptyString) "_" cleaned) cs s = s.
Proof.
  induction cs as [|c cs IH]; intros Hs; [done|].
  simpl. rewrite str_replace_char_absent by (apply Hs; left).
  apply IH. intros d Hd. apply Hs. by right.
Qed.

Lemma invalid_chars_not_underscore (c : ascii) :
  c ∈ chars invalid_chars → c ≠ "_"%char.
Proof.
  intros Hc ->. vm_compute in Hc.
  repeat (apply elem_of_cons in Hc as [Hc|Hc]; [discriminate Hc|]).
  by apply elem_of_nil in Hc.
Qed.

Lemma replace_invalid_clean (filename : string) (c : ascii) :
  c ∈ chars invalid_chars → char_in c (replace_invalid filename) = false.
Proof.
  intros Hc. apply fold_replace_absent; [by apply invalid_chars_not_underscore|by left].
Qed.

Lemma not_char_in_true (d : ascii) (s t : string) :
  (char_in d t = true → char_in d s = true) → char_in d s = false → char_in d t = false.
Proof. destruct (char_in d t); [|done]. intros H1 H2. by rewrite H1 in H2. Qed.

Lemma clean_filename_unfold (filename : string) :
  clean_filename filename =
  let cleaned := replace_invalid filename in
  let cleaned := collapse_underscores (String.length cleaned) cleaned in
  let cleaned := strip ". " cleaned in
  if decide (cleaned = EmptyString) then "unnamed" else cleaned.
Proof. reflexivity. Qed.

Lemma clean_filename_nonempty (filename : string) :
  clean_filename filename ≠ EmptyString.
Proof. rewrite clean_filename_unfold. simpl. by case_decide. Qed.

(** The assertions of [test_clean_filename] in [tests/test_utils.py]. *)
Example clean_filename_tests :
  clean_filename "test<file>name" = "test_file_name" ∧
  clean_filename "file:with|invalid*chars" = "file_with_invalid_chars" ∧
  clean_filename "test__multiple___underscores" = "test_multiple_underscores" ∧
  clean_filename " .test. " = "test" ∧
  clean_filename EmptyString = "unnamed" ∧
  clean_filename "   " = "unnamed".
Proof. vm_compute. by split_and!. Qed.

(** C7. The filename sanitizer is idempotent: cleaning a cleaned name
    changes nothing, for every string. *)
Theorem clean_filename_idempotent (x : string) :
  clean_filename (clean_filename x) = clean_filename x.
Proof.
  rewrite (clean_filename_unfold x). cbv zeta.
  set (a := replace_invalid x).
  set (b := collapse_underscores (String.length a) a).
  set (c := strip ". " b).
  case_decide as Hc; [by vm_compute|].
  rewrite clean_filename_unfold. cbv zeta.
  assert (replace_invalid c = c) as ->.
  { apply fold_replace_fixed. intros d Hd.
    apply (not_char_in_true d b c); [apply strip_char_in|].
    apply (not_char_in_true d a b); [apply collapse_underscores_char_in|].
    by apply replace_invalid_clean. }
  assert (str_in "__" c = false) as Hcc.
  { destruct (str_in "__" c) eqn:Hin; [|done].
    apply strip_str_in in Hin. unfold b in Hin.
    by rewrite (collapse_underscores_done (String.length a) a) in Hin. }
  rewrite collapse_underscores_fixed by done.
  assert (strip ". " c = c) as -> by apply strip_idempotent.
  by case_decide.
Qed.

(** ** The filename deriver *)

(** The minimal variant cleans each label it uses before joining. *)
Lemma generate_new_filename_minimal_cleans (names : list string) (p : Path) :
  names ≠ [] →
  RenameMinimal.generate_new_filename RenameMinimal.init names p =
  join "_" (map clean_filename (take 3 names)) +:+ suffix p.
Proof.
  intros Hne. destruct names as [|n names]; [done|].
  unfold RenameMinimal.generate_new_filename. cbn [RenameMinimal.max_names_per_file
    RenameMinimal.name_separator RenameMinimal.init].
  change Config.max_names_per_file with 3. change Config.name_separator with "_".
  assert (filter (λ name : string, name ≠ EmptyString)
                 (map clean_filename (take 3 (n :: names)))
          = map clean_filename (take 3 (n :: names))) as ->.
  { generalize (take 3 (n :: names)). intros l. induction l as [|x l IH]; [done|].
    cbn [map]. rewrite filter_cons_True by apply clean_filename_nonempty.
    by rewrite IH. }
  done.
Qed.

(** The full variant joins the labels as they are. *)
Lemma generate_new_filename_joins `{FaceLib} (svc : RenameService)
  (names : list string) (p : Path) :
  names ≠ [] →
  generate_new_filename svc names p =
  join (RenameSvc.name_separator svc) names +:+ lower (suffix p).
Proof. by destruct names. Qed.

(** C2. On the label list with the single label a/b and the file photo.jpg,
    the deriver of the full rename service returns a/b.jpg: the slash of the
    label is kept, where joining the cleaned labels gives a_b.jpg. *)
Theorem generate_new_filename_keeps_invalid_characters :
  generate_new_filename Scenario.service ["a/b"] (Scenario.photo "photo.jpg") = "a/b.jpg" ∧
  join "_" (map clean_filename ["a/b"]) +:+ ".jpg" = "a_b.jpg" ∧
  RenameMinimal.generate_new_filename RenameMinimal.init ["a/b"] (Scenario.photo "photo.jpg")
    = "a_b.jpg".
Proof. by vm_compute. Qed.

(** ** The matcher *)

Lemma load_known_faces_fold `{FaceLib} (face_data : list (Z * string * Enc))
  (cache : list Enc * list string) :
  fold_left (λ cache row,
               match row with
               | (person_id, name, encoding) => (cache.1 ++ [encoding], cache.2 ++ [name])
               end) face_data cache
  = (cache.1 ++ map snd face_data, cache.2 ++ map (λ row, row.1.2) face_data).
Proof.
  revert cache. induction face_data as [|[[pid name] enc] l IH]; intros [encs names].
  - simpl. by rewrite !app_nil_r.
  - simpl. rewrite IH. simpl. by rewrite <-!app_assoc.
Qed.

Lemma init_known_encodings `{FaceLib} (face_data : list (Z * string * Enc)) :
  known_encodings (FaceSvc.init face_data) = map snd face_data.
Proof. unfold FaceSvc.init, load_known_faces. by rewrite load_known_faces_fold. Qed.

Lemma init_known_names `{FaceLib} (face_data : list (Z * string * Enc)) :
  known_names (FaceSvc.init face_data) = map (λ row, row.1.2) face_data.
Proof. unfold FaceSvc.init, load_known_faces. by rewrite load_known_faces_fold. Qed.

Lemma traverse_Ok {A B} (f : A → outcome B) (l : list A) :
  (∀ x, x ∈ l → ∃ y, f x = Ok y) →
  ∃ ys, traverse f l = Ok ys ∧ Forall2 (λ x y, f x = Ok y) l ys.
Proof.
  induction l as [|x l IH]; intros Hl.
  - exists []. by split.
  - destruct (Hl x) as [y Hy]; [by left|].
    destruct IH as (ys & Hys & HF); [intros; apply Hl; by right|].
    exists (y :: ys). simpl. rewrite Hy. simpl. rewrite Hys. simpl.
    split; [done|by constructor].
Qed.

Lemma traverse_Ok_inv {A B} (f : A → outcome B) (l : list A) (ys : list B) :
  traverse f l = Ok ys → Forall2 (λ x y, f x = Ok y) l ys.
Proof.
  revert ys. induction l as [|x l IH]; intros ys.
  - intros [= <-]. constructor.
  - simpl. destruct (f x) as [y|e] eqn:Hy; [|done]. simpl.
    destruct (traverse f l) as [zs|e]; [|done]. simpl.
    intros [= <-]. constructor; [done|by apply IH].
Qed.

Lemma argmin_go_spec (ip pre : list Q) (mp : Q) (min_ind : nat) :
  pre !! min_ind = Some mp →
  (∀ j y, pre !! j = Some y → (mp <= y)%Q) →
  (∀ j y, j < min_ind → pre !! j = Some y → (mp < y)%Q) →
  ∃ m, (pre ++ ip) !! argmin_go ip (length pre) mp min_ind = Some m ∧
       (∀ j y, (pre ++ ip) !! j = Some y → (m <= y)%Q) ∧
       (∀ j y, j < argmin_go ip (length pre) mp min_ind →
               (pre ++ ip) !! j = Some y → (m < y)%Q).
Proof.
  revert pre mp min_ind. induction ip as [|x ip IH]; intros pre mp min_ind Hat Hmin Hfirst.
  - exists mp. rewrite app_nil_r. simpl. auto.
  - assert (min_ind < length pre) as Hlt by (by eapply lookup_lt_Some).
    cbn [argmin_go]. rewrite (cons_middle x pre ip), app_assoc.
    replace (S (length pre)) with (length (pre ++ [x])) by (rewrite length_app; simpl; lia).
    destruct (Qle_bool mp x) eqn:Hle.
    + apply Qle_bool_iff in Hle. apply IH.
      * by rewrite lookup_app_l.
      * intros j y Hj. apply lookup_app_Some in Hj as [Hj|[_ Hj]]; [by eapply Hmin|].
        apply list_lookup_singleton_Some in Hj as [_ <-]. done.
      * intros j y Hjlt Hj. rewrite lookup_app_l in Hj by lia. by eapply Hfirst.
    + assert (x < mp)%Q as Hx.
      { apply Qnot_le_lt. intros Hc. apply Qle_bool_iff in Hc. congruence. }
      apply IH.
      * rewrite lookup_app_r by lia. by rewrite Nat.sub_diag.
      * intros j y Hj. apply lookup_app_Some in Hj as [Hj|[_ Hj]].
        -- apply Qlt_le_weak. eapply Qlt_le_trans; [exact Hx|by eapply Hmin].
        -- apply list_lookup_singleton_Some in Hj as [_ <-]. apply Qle_refl.
      * intros j y Hjlt Hj. rewrite lookup_app_l in Hj by lia.
        eapply Qlt_le_trans; [exact Hx|by eapply Hmin].
Qed.

(** [np.argmin] on a non-empty array: the position of a minimum, and every
    earlier position holds a strictly larger value. *)
Lemma argmin_spec (a : list Q) :
  a ≠ [] →
  ∃ i m, argmin a = Ok i ∧ a !! i = Some m ∧
         (∀ j y, a !! j = Some y → (m <= y)%Q) ∧
         (∀ j y, j < i → a !! j = Some y → (m < y)%Q).
Proof.
  destruct a as [|x a]; [done|]. intros _.
  destruct (argmin_go_spec a [x] x 0) as (m & H1 & H2 & H3).
  - done.
  - intros j y Hj. apply list_lookup_singleton_Some in Hj as [_ <-]. apply Qle_refl.
  - intros; lia.
  - exists (argmin_go a 1 x 0), m. by repeat split.
Qed.

Lemma index_Ok {A} (l : list A) (i : nat) (x : A) : l !! i = Some x → index l i = Ok x.
Proof. unfold index. by intros ->. Qed.

(** One pass of the loop of [identify_faces] over a non-empty gallery whose
    distances to the query can all be computed. *)
Lemma identify_face_spec `{FaceLib} (face_data : list (Z * string * Enc)) (q : Enc) :
  face_data ≠ [] →
  (∀ row, row ∈ face_data → ∃ d, norm_distance row.2 q = Ok d) →
  ∃ j pid name enc d,
    face_data !! j = Some (pid, name, enc) ∧ norm_distance enc q = Ok d ∧
    (∀ row d', row ∈ face_data → norm_distance row.2 q = Ok d' → (d <= d')%Q) ∧
    (∀ j' row d', j' < j → face_data !! j' = Some row →
                  norm_distance row.2 q = Ok d' → (d < d')%Q) ∧
    identify_face (FaceSvc.init face_data) q
      = Ok (if Qle_bool d Config.tolerance then Some name else None).
Proof.
  intros Hne Hall.
  destruct (traverse_Ok (λ k, norm_distance k q) (map snd face_data))
    as (ds & Hds & HF).
  { intros k [row [-> Hrow]]%list_elem_of_fmap. by apply Hall. }
  assert (ds ≠ []) as Hdne.
  { apply Forall2_length in HF. rewrite length_map in HF.
    destruct face_data; [done|]. by destruct ds. }
  destruct (argmin_spec ds Hdne) as (i & m & Hi & Him & Hmin & Hfirst).
  destruct (Forall2_lookup_r _ _ _ _ _ HF Him) as (k & Hk & Hkm).
  rewrite list_lookup_fmap in Hk.
  destruct (face_data !! i) as [[[pid name] enc]|] eqn:Hrow; [|done].
  injection Hk as <-. simpl in Hkm.
  exists i, pid, name, enc, m. split_and!; [done|done| | |].
  - intros row d' [j' Hj']%list_elem_of_lookup Hd'.
    assert (map snd face_data !! j' = Some row.2) as Hsnd
      by (by rewrite list_lookup_fmap, Hj').
    destruct (Forall2_lookup_l _ _ _ _ _ HF Hsnd) as (y & Hy & Hyd).
    simpl in Hyd. rewrite Hd' in Hyd. injection Hyd as <-. by eapply Hmin.
  - intros j' row d' Hlt Hj' Hd'.
    assert (map snd face_data !! j' = Some row.2) as Hsnd
      by (by rewrite list_lookup_fmap, Hj').
    destruct (Forall2_lookup_l _ _ _ _ _ HF Hsnd) as (y & Hy & Hyd).
    simpl in Hyd. rewrite Hd' in Hyd. injection Hyd as <-. by eapply Hfirst.
  - unfold identify_face, face_distance.
    rewrite init_known_encodings, init_known_names, Hds. simpl.
    rewrite Hi. simpl. rewrite (index_Ok _ _ _ Him). simpl.
    change (tolerance (FaceSvc.init face_data)) with Config.tolerance.
    destruct (Qle_bool m Config.tolerance); [|done].
    rewrite (index_Ok _ i name); [done|].
    by rewrite list_lookup_fmap, Hrow.
Qed.

Lemma identify_faces_nonempty `{FaceLib} (face_data : list (Z * string * Enc))
  (face_encodings : list Enc) :
  face_data ≠ [] →
  identify_faces (FaceSvc.init face_data) face_encodings
  = traverse (identify_face (FaceSvc.init face_data)) face_encodings.
Proof.
  intros Hne. unfold identify_faces. rewrite init_known_encodings.
  by destruct face_data.
Qed.

Lemma Qle_bool_false (x y : Q) : (y < x)%Q → Qle_bool x y = false.
Proof.
  intros Hlt. destruct (Qle_bool x y) eqn:Hle; [|done].
  apply Qle_bool_iff in Hle. by apply Qlt_not_le in Hlt.
Qed.

(** C3. With an empty gallery every face is unmatched.  With a non-empty
    gallery, each face gets the owner name of a gallery vector at minimum
    distance when that distance is at most the tolerance 0.6, and no match
    when it is greater. *)
Theorem identify_faces_nearest_within_tolerance `{FaceLib}
  (face_data : list (Z * string * Enc)) (face_encodings : list Enc) :
  (∀ q row, q ∈ face_encodings → row ∈ face_data → ∃ d, norm_distance row.2 q = Ok d) →
  ∃ identified,
    identify_faces (FaceSvc.init face_data) face_encodings = Ok identified ∧
    length identified = length face_encodings ∧
    (face_data = [] → ∀ r, r ∈ identified → r = None) ∧
    (face_data ≠ [] → ∀ i q, face_encodings !! i = Some q →
       ∃ j pid name enc d,
         face_data !! j = Some (pid, name, enc) ∧ norm_distance enc q = Ok d ∧
         (∀ row d', row ∈ face_data → norm_distance row.2 q = Ok d' → (d <= d')%Q) ∧
         ((d <= 6 # 10)%Q → identified !! i = Some (Some name)) ∧
         ((6 # 10 < d)%Q → identified !! i = Some None)).
Proof.
  intros Hall. destruct (decide (face_data = [])) as [->|Hne].
  - exists (replicate (length face_encodings) None). split_and!; [done| | |].
    + by rewrite length_replicate.
    + intros _ r Hr. by apply elem_of_replicate in Hr as [-> _].
    + done.
  - rewrite identify_faces_nonempty by done.
    destruct (traverse_Ok (identify_face (FaceSvc.init face_data)) face_encodings)
      as (ids & Hids & HF).
    { intros q Hq. destruct (identify_face_spec face_data q Hne) as (?&?&?&?&?&_&_&_&_&Hr).
      - intros row Hrow. by apply Hall.
      - eauto. }
    exists ids. split_and!; [done|symmetry; by eapply Forall2_length|done|].
    intros _ i q Hq.
    destruct (identify_face_spec face_data q Hne) as (j&pid&name&enc&d&Hj&Hd&Hmin&_&Hr).
    { intros row Hrow. apply Hall; [|done]. by eapply list_elem_of_lookup_2. }
    destruct (Forall2_lookup_l _ _ _ _ _ HF Hq) as (r & Hri & Hrq).
    simpl in Hrq. rewrite Hr in Hrq. injection Hrq as <-.
    exists j, pid, name, enc, d. split_and!; [done|done|done| |].
    + intros Hle. apply Qle_bool_iff in Hle. change (6 # 10)%Q with Config.tolerance in Hle.
      by rewrite Hle in Hri.
    + intros Hlt. apply Qle_bool_false in Hlt. change (6 # 10)%Q with Config.tolerance in Hlt.
      by rewrite Hlt in Hri.
Qed.

(** C8 (amended). When several gallery vectors are at the minimum distance
    from the query, the name returned is the one of the first of them in the
    order in which the gallery was loaded, when that distance is at most the
    tolerance 0.6; when it is greater, no name is returned. *)
Theorem identify_faces_first_minimum_wins `{FaceLib}
  (face_data : list (Z * string * Enc)) (q : Enc)
  (j : nat) (pid : Z) (name : string) (enc : Enc) (d : Q) :
  (∀ row, row ∈ face_data → ∃ d', norm_distance row.2 q = Ok d') →
  face_data !! j = Some (pid, name, enc) →
  norm_distance enc q = Ok d →
  (∀ row d', row ∈ face_data → norm_distance row.2 q = Ok d' → (d <= d')%Q) →
  (∀ j' row d', j' < j → face_data !! j' = Some row →
                norm_distance row.2 q = Ok d' → ¬ (d' == d)%Q) →
  ((d <= 6 # 10)%Q → identify_faces (FaceSvc.init face_data) [q] = Ok [Some name]) ∧
  ((6 # 10 < d)%Q → identify_faces (FaceSvc.init face_data) [q] = Ok [None]).
Proof.
  intros Hall Hj Hd Hmin Hfirst.
  assert (face_data ≠ []) as Hne by (by destruct face_data).
  rewrite identify_faces_nonempty by done.
  destruct (identify_face_spec face_data q Hne Hall)
    as (i&pid'&name'&enc'&m&Hi&Hm&Hmmin&Hmfirst&Hr).
  assert (m == d)%Q as Hmd.
  { apply Qle_antisym.
    - apply (Hmmin (pid, name, enc)); [by eapply list_elem_of_lookup_2|done].
    - apply (Hmin (pid', name', enc')); [by eapply list_elem_of_lookup_2|done]. }
  assert (i = j) as ->.
  { destruct (lt_eq_lt_dec i j) as [[Hlt|Heq]|Hgt]; [|done|].
    - by destruct (Hfirst i (pid', name', enc') m Hlt Hi Hm).
    - specialize (Hmfirst j (pid, name, enc) d Hgt Hj Hd).
      rewrite Hmd in Hmfirst. by apply Qlt_irrefl in Hmfirst. }
  rewrite Hj in Hi. injection Hi as <- <- <-.
  simpl. rewrite Hr. simpl. split.
  - intros Htol. assert (Qle_bool m Config.tolerance = true) as ->; [|done].
    apply Qle_bool_iff. rewrite Hmd. exact Htol.
  - intros Htol. assert (Qle_bool m Config.tolerance = false) as ->; [|done].
    apply Qle_bool_false. rewrite Hmd. exact Htol.
Qed.

(** ** The batch classifier *)

Lemma elem_of_first_occurrences (names : list string) (n : string) :
  n ∈ Spec.first_occurrences names ↔ n ∈ names.
Proof.
  induction names as [|m names IH]; [done|].
  simpl. rewrite !elem_of_cons, list_elem_of_filter, IH.
  destruct (decide (n = m)); tauto.
Qed.

Lemma NoDup_first_occurrences (names : list string) :
  NoDup (Spec.first_occurrences names).
Proof.
  induction names as [|m names IH]; [constructor|].
  simpl. constructor; [|by apply NoDup_filter].
  rewrite list_elem_of_filter. intros [Hc _]. by apply Hc.
Qed.

Lemma first_occurrences_NoDup (names : list string) :
  NoDup names → Spec.first_occurrences names = names.
Proof.
  induction 1 as [|m names Hm Hnd IH]; [done|].
  simpl. rewrite IH. f_equal.
  clear -Hm. induction names as [|x names IH]; [done|].
  apply not_elem_of_cons in Hm as [Hne Hm].
  rewrite filter_cons_True by done. by rewrite IH.
Qed.

(** The keys of [dict.fromkeys] are the first occurrences, in order. *)
Lemma dict_fromkeys_fold (names d : list string) :
  fold_left dict_insert_key names d
  = d ++ filter (λ n, n ∉ d) (Spec.first_occurrences names).
Proof.
  revert d. induction names as [|m names IH]; intros d.
  - simpl. by rewrite app_nil_r.
  - cbn [fold_left Spec.first_occurrences]. rewrite IH. unfold dict_insert_key.
    destruct (decide (m ∈ d)) as [Hin|Hnin].
    + f_equal. rewrite filter_cons_False by (intros Hc; by apply Hc).
      rewrite list_filter_filter. apply list_filter_iff. intros n. split.
      * intros Hn. split; [done|]. by intros ->.
      * by intros [? _].
    + rewrite <-app_assoc. f_equal. rewrite filter_cons_True by done.
      cbn [app]. f_equal. rewrite list_filter_filter. apply list_filter_iff.
      intros n. rewrite elem_of_app, list_elem_of_singleton. tauto.
Qed.

Lemma dict_fromkeys_first_occurrences (names : list string) :
  dict_fromkeys names = Spec.first_occurrences names.
Proof.
  unfold dict_fromkeys. rewrite dict_fromkeys_fold. cbn [app].
  induction (Spec.first_occurrences names) as [|n l IH]; [done|].
  rewrite filter_cons_True by apply not_elem_of_nil. by rewrite IH.
Qed.

Lemma identify_faces_nil `{FaceLib} (svc : FaceService) (identified : list (option string)) :
  identify_faces svc [] = Ok identified → identified = [].
Proof. unfold identify_faces. destruct (known_encodings svc); by intros [= <-]. Qed.

Lemma process_image_for_rename_Ok `{FaceLib} (svc : FaceService) (fs : FS) (p : Path)
  (face_data : list (Enc * Loc)) (identified : list (option string)) :
  detect_faces_in_image fs p = Ok face_data →
  identify_faces svc (map fst face_data) = Ok identified →
  process_image_for_rename svc fs p = take 3 (dict_fromkeys (omap id identified)).
Proof.
  intros Hd Hi. unfold process_image_for_rename. rewrite Hd. simpl.
  destruct face_data as [|face face_data].
  - apply identify_faces_nil in Hi as ->. done.
  - rewrite Hi. done.
Qed.

(** C6. The labels of an image are the matched names in detection order,
    without the unmatched faces, each name kept at its first occurrence only,
    cut to the first three; so five distinct matched people give exactly the
    first three of them. *)
Theorem process_image_for_rename_labels `{FaceLib} (svc : FaceService) (fs : FS)
  (p : Path) (face_data : list (Enc * Loc)) (identified : list (option string)) :
  detect_faces_in_image fs p = Ok face_data →
  identify_faces svc (map fst face_data) = Ok identified →
  let matched := omap id identified in
  let labels := process_image_for_rename svc fs p in
  labels = take 3 (Spec.first_occurrences matched) ∧
  NoDup labels ∧
  (∀ n, n ∈ labels → Some n ∈ identified) ∧
  length labels ≤ 3 ∧
  (NoDup matched → labels = take 3 matched) ∧
  (NoDup matched → length matched = 5 → length labels = 3).
Proof.
  intros Hd Hi matched labels.
  assert (labels = take 3 (Spec.first_occurrences matched)) as Hl.
  { unfold labels. rewrite (process_image_for_rename_Ok _ _ _ _ _ Hd Hi).
    by rewrite dict_fromkeys_first_occurrences. }
  split_and!.
  - done.
  - rewrite Hl.
    apply (sublist_NoDup _ _ (NoDup_first_occurrences matched)), sublist_take.
  - intros n Hn. rewrite Hl in Hn. apply (subseteq_take 3) in Hn.
    rewrite elem_of_first_occurrences in Hn. unfold matched in Hn.
    apply list_elem_of_omap in Hn as (o & Ho & Heq). simpl in Heq. by subst o.
  - rewrite Hl, length_take. lia.
  - intros Hnd. by rewrite Hl, first_occurrences_NoDup.
  - intros Hnd Hlen. rewrite Hl, first_occurrences_NoDup, length_take by done. lia.
Qed.

(** A photo of the five registered people gets the first three names; a
    photo with Alice, Bob and Alice again gets each name once. *)
Lemma process_image_for_rename_labels_witness :
  process_image_for_rename Scenario.faces Scenario.group_fs (Scenario.photo "group.jpg")
    = ["Alice"; "Bob"; "Carol"] ∧
  process_image_for_rename Scenario.faces Scenario.group_fs (Scenario.photo "twice.jpg")
    = ["Alice"; "Bob"].
Proof.
  split.
  - destruct (process_image_for_rename_labels Scenario.faces Scenario.group_fs
                (Scenario.photo "group.jpg")
                (map (λ e, (e, Scenario.box)) [0; 1; 2; 3; 4]%Q)
                [Some "Alice"; Some "Bob"; Some "Carol"; Some "Dave"; Some "Erin"])
      as [Hl _]; [reflexivity|reflexivity|exact Hl].
  - destruct (process_image_for_rename_labels Scenario.faces Scenario.group_fs
                (Scenario.photo "twice.jpg")
                (map (λ e, (e, Scenario.box)) [0; 1; 1 # 10]%Q)
                [Some "Alice"; Some "Bob"; Some "Alice"])
      as [Hl _]; [reflexivity|reflexivity|exact Hl].
Defined.

(** ** The existence of a path *)

Lemma path_exists_present `{FaceLib} (fs : FS) (p : Path) :
  present fs p = true → path_exists fs p = Ok true.
Proof. unfold path_exists, too_long. by intros ->. Qed.

Lemma path_exists_file `{FaceLib} (fs : FS) (p : Path) (f : File) :
  files fs !! p = Some f → path_exists fs p = Ok true.
Proof.
  intros Hf. apply path_exists_present. unfold present.
  rewrite Hf. by rewrite bool_decide_eq_true_2.
Qed.

Lemma path_exists_Ok `{FaceLib} (fs : FS) (p : Path) (found : bool) :
  path_exists fs p = Ok found → present fs p = found.
Proof. unfold path_exists. destruct (too_long fs p); [done|]. by intros [= <-]. Qed.

Lemma name_too_long_short `{FaceLib} (fs : FS) (anchored : bool)
  (reached rest : list string) :
  Forall (λ c, String.length c ≤ NAME_MAX) rest →
  name_too_long fs anchored reached rest = false.
Proof.
  intros Hrest. revert reached. induction Hrest as [|c rest Hc _ IH]; intros reached.
  - done.
  - cbn [name_too_long]. rewrite IH, andb_false_r, orb_false_r.
    apply Nat.ltb_ge, Hc.
Qed.

(** For a path within the limits of the system, [exists] answers. *)
Lemma path_exists_short `{FaceLib} (fs : FS) (p : Path) :
  String.length (str_path p) < PATH_MAX →
  Forall (λ c, String.length c ≤ NAME_MAX) (parts p) →
  path_exists fs p = Ok (present fs p).
Proof.
  intros Hpath Hnames. unfold path_exists, too_long.
  rewrite name_too_long_short by done.
  rewrite (proj2 (Nat.leb_gt _ _)) by done. by rewrite andb_false_r.
Qed.

(** C10. The classifier has no raising path: when detection raises (the file
    is missing, too large or unreadable) or identification raises, it returns
    the empty list, the value it also returns for an image without faces. *)
Theorem process_image_for_rename_never_raises `{FaceLib} (svc : FaceService)
  (fs : FS) (p : Path) :
  (∀ e, detect_faces_in_image fs p = Raise e → process_image_for_rename svc fs p = []) ∧
  (∀ face_data e, detect_faces_in_image fs p = Ok face_data →
                  identify_faces svc (map fst face_data) = Raise e →
                  process_image_for_rename svc fs p = []) ∧
  (detect_faces_in_image fs p = Ok [] → process_image_for_rename svc fs p = []) ∧
  (path_exists fs p = Ok false →
   ∃ msg, detect_faces_in_image fs p = Raise (FileNotFoundError msg)) ∧
  (∀ f, files fs !! p = Some f →
        (Config.max_image_size < st_size f)%N ∨ (∃ e, scan f = Raise e) →
        ∃ msg, detect_faces_in_image fs p = Raise (ValueError msg)).
Proof.
  split_and!.
  - intros e He. unfold process_image_for_rename. by rewrite He.
  - intros face_data e Hd Hi. unfold process_image_for_rename. rewrite Hd. simpl.
    destruct face_data as [|face face_data]; [done|]. by rewrite Hi.
  - intros Hd. unfold process_image_for_rename. by rewrite Hd.
  - intros Hex. unfold detect_faces_in_image. rewrite Hex. simpl. eauto.
  - intros f Hf Hbad. unfold detect_faces_in_image.
    rewrite (path_exists_file fs p f Hf). simpl. rewrite Hf.
    destruct (Config.max_image_size <? st_size f)%N eqn:Hsz; [eauto|].
    destruct Hbad as [Hbig|[e He]].
    + apply N.ltb_ge in Hsz. lia.
    + rewrite He. eauto.
Qed.

(** ** The conflict resolver *)

Lemma probe_loop_unfold_other `{FaceLib} (fs : FS) (fallback : Path)
  (numbered : N → Path) (counter : N) :
  probe_loop fs numbered fallback counter =
  match path_exists fs (numbered counter) with
  | Raise e => ([numbered counter], Raise e)
  | Ok false => ([numbered counter], Ok (numbered counter))
  | Ok true =>
      if decide (9999 < counter + 1)%N then ([numbered counter], Ok fallback)
      else (numbered counter :: (probe_loop fs numbered fallback (counter + 1)).1,
            (probe_loop fs numbered fallback (counter + 1)).2)
  end.
Proof.
  rewrite probe_loop_equation_1. unfold probe_loop_unfold_clause_1.
  destruct (path_exists fs (numbered counter)) as [[|]|e]; [|done|done].
  unfold probe_loop_unfold_clause_1_clause_3.
  by destruct (decide (9999 < counter + 1)%N).
Qed.

Section NumberingLoopFacts.
Context `{FaceLib} (fs : FS) (numbered : N → Path) (fallback : Path).

Lemma probe_loop_unfold (counter : N) :
  probe_loop fs numbered fallback counter =
  match path_exists fs (numbered counter) with
  | Raise e => ([numbered counter], Raise e)
  | Ok false => ([numbered counter], Ok (numbered counter))
  | Ok true =>
      if decide (9999 < counter + 1)%N then ([numbered counter], Ok fallback)
      else (numbered counter :: (probe_loop fs numbered fallback (counter + 1)).1,
            (probe_loop fs numbered fallback (counter + 1)).2)
  end.
Proof. apply probe_loop_unfold_other. Qed.

(** What the loop does from [counter] on: it asks for the candidates
    [counter], [counter + 1], ... in turn.  It stops at the first one for
    which [exists] does not answer [True]: with that candidate when the
    answer is [False], with the exception when the call raises.  When all of
    them up to 9999 exist it stops with the fallback. *)
Lemma probe_loop_spec (k : nat) (counter : N) :
  (counter + N.of_nat k = 9999)%N →
  let r := probe_loop fs numbered fallback counter in
  (∀ i, i < length r.1 → r.1 !! i = Some (numbered (counter + N.of_nat i))) ∧
  ((∃ n, (counter ≤ n ≤ 9999)%N ∧ r.2 = Ok (numbered n) ∧
         path_exists fs (numbered n) = Ok false ∧
         (∀ m, (counter ≤ m < n)%N → path_exists fs (numbered m) = Ok true) ∧
         N.of_nat (length r.1) = (n - counter + 1)%N)
   ∨ (r.2 = Ok fallback ∧
      (∀ m, (counter ≤ m ≤ 9999)%N → path_exists fs (numbered m) = Ok true) ∧
      N.of_nat (length r.1) = (10000 - counter)%N)
   ∨ (∃ n e, (counter ≤ n ≤ 9999)%N ∧ r.2 = Raise e ∧
             path_exists fs (numbered n) = Raise e ∧
             (∀ m, (counter ≤ m < n)%N → path_exists fs (numbered m) = Ok true) ∧
             N.of_nat (length r.1) = (n - counter + 1)%N)).
Proof.
  revert counter. induction k as [|k IH]; intros counter Hk r; subst r;
    rewrite probe_loop_unfold;
    destruct (path_exists fs (numbered counter)) as [[|]|e] eqn:Hex.
  - rewrite decide_True by lia. split.
    + intros [|i] Hi; simpl in Hi; [|lia]. simpl. by rewrite N.add_0_r.
    + right. left. split_and!; [done| |simpl; lia].
      intros m Hm. by replace m with counter by lia.
  - split.
    + intros [|i] Hi; simpl in Hi; [|lia]. simpl. by rewrite N.add_0_r.
    + left. exists counter. split_and!; [lia|lia|done|done|intros; lia|simpl; lia].
  - split.
    + intros [|i] Hi; simpl in Hi; [|lia]. simpl. by rewrite N.add_0_r.
    + right. right. exists counter, e.
      split_and!; [lia|lia|done|done|intros; lia|simpl; lia].
  - rewrite decide_False by lia.
    destruct (IH (counter + 1)%N) as [Hprobes Hres]; [lia|]. cbn [fst snd].
    split.
    + intros [|i] Hi; simpl.
      * by rewrite N.add_0_r.
      * simpl in Hi. rewrite Hprobes by lia. do 2 f_equal. lia.
    + destruct Hres as [(n & Hn & Hr & Hnex & Hbelow & Hlen)
                       |[(Hr & Hall & Hlen)|(n & e & Hn & Hr & Hnex & Hbelow & Hlen)]].
      * left. exists n. split_and!; [lia|lia|done|done| |simpl; lia].
        intros m Hm. destruct (decide (m = counter)) as [->|?]; [done|].
        apply Hbelow. lia.
      * right. left. split_and!; [done| |simpl; lia].
        intros m Hm. destruct (decide (m = counter)) as [->|?]; [done|].
        apply Hall. lia.
      * right. right. exists n, e. split_and!; [lia|lia|done|done| |simpl; lia].
        intros m Hm. destruct (decide (m = counter)) as [->|?]; [done|].
        apply Hbelow. lia.
  - split.
    + intros [|i] Hi; simpl in Hi; [|lia]. simpl. by rewrite N.add_0_r.
    + left. exists counter. split_and!; [lia|lia|done|done|intros; lia|simpl; lia].
  - split.
    + intros [|i] Hi; simpl in Hi; [|lia]. simpl. by rewrite N.add_0_r.
    + right. right. exists counter, e.
      split_and!; [lia|lia|done|done|intros; lia|simpl; lia].
Qed.

Lemma probe_loop_ext (numbered' : N → Path) (k : nat) (counter : N) :
  (∀ n, numbered n = numbered' n) →
  (counter + N.of_nat k = 9999)%N →
  probe_loop fs numbered fallback counter = probe_loop fs numbered' fallback counter.
Proof.
  intros Hext. revert counter. induction k as [|k IH]; intros counter Hk.
  - rewrite (probe_loop_unfold counter).
    rewrite (probe_loop_unfold_other fs fallback numbered' counter). rewrite <-Hext.
    destruct (path_exists fs (numbered counter)) as [[|]|e]; [|done|done].
    repeat case_decide; try lia; done.
  - rewrite (probe_loop_unfold counter).
    rewrite (probe_loop_unfold_other fs fallback numbered' counter). rewrite <-Hext.
    destruct (path_exists fs (numbered counter)) as [[|]|e]; [|done|done].
    repeat case_decide; try lia. rewrite IH by lia. done.
Qed.

(** The same facts for any counter up to 9999. *)
Lemma probe_loop_spec_from (counter : N) :
  (counter ≤ 9999)%N →
  let r := probe_loop fs numbered fallback counter in
  (∀ i, i < length r.1 → r.1 !! i = Some (numbered (counter + N.of_nat i))) ∧
  ((∃ n, (counter ≤ n ≤ 9999)%N ∧ r.2 = Ok (numbered n) ∧
         path_exists fs (numbered n) = Ok false ∧
         (∀ m, (counter ≤ m < n)%N → path_exists fs (numbered m) = Ok true) ∧
         N.of_nat (length r.1) = (n - counter + 1)%N)
   ∨ (r.2 = Ok fallback ∧
      (∀ m, (counter ≤ m ≤ 9999)%N → path_exists fs (numbered m) = Ok true) ∧
      N.of_nat (length r.1) = (10000 - counter)%N)
   ∨ (∃ n e, (counter ≤ n ≤ 9999)%N ∧ r.2 = Raise e ∧
             path_exists fs (numbered n) = Raise e ∧
             (∀ m, (counter ≤ m < n)%N → path_exists fs (numbered m) = Ok true) ∧
             N.of_nat (length r.1) = (n - counter + 1)%N)).
Proof. intros Hc. apply (probe_loop_spec (N.to_nat (9999 - counter))). lia. Qed.

Lemma probe_loop_ext_from (numbered' : N → Path) (counter : N) :
  (∀ n, numbered n = numbered' n) →
  (counter ≤ 9999)%N →
  probe_loop fs numbered fallback counter = probe_loop fs numbered' fallback counter.
Proof.
  intros Hext Hc. apply (probe_loop_ext numbered' (N.to_nat (9999 - counter))); [done|lia].
Qed.

End NumberingLoopFacts.

Lemma format_n_default (counter : N) :
  format_n Config.duplicate_format counter = "(" +:+ pretty counter +:+ ")".
Proof. reflexivity. Qed.

Lemma append_assoc (s t u : string) : (s +:+ t) +:+ u = s +:+ (t +:+ u).
Proof. induction s as [|a s IH]; [done|]. by rewrite !append_cons, IH. Qed.

Lemma resolve_existing `{FaceLib} (svc : RenameService) (now : N) (fs : FS) (target : Path) :
  path_exists fs target = Ok true →
  resolve_filename_conflict_probes svc now fs target =
  (target :: (probe_loop fs (numbered_path svc target) (stamped_path target now) 1).1,
   (probe_loop fs (numbered_path svc target) (stamped_path target now) 1).2).
Proof. unfold resolve_filename_conflict_probes. by intros ->. Qed.

Lemma resolve_missing `{FaceLib} (svc : RenameService) (now : N) (fs : FS) (target : Path) :
  path_exists fs target = Ok false →
  resolve_filename_conflict_probes svc now fs target = ([target], Ok target).
Proof. unfold resolve_filename_conflict_probes. by intros ->. Qed.

Lemma resolve_raising `{FaceLib} (svc : RenameService) (now : N) (fs : FS) (target : Path)
  (e : exn) :
  path_exists fs target = Raise e →
  resolve_filename_conflict_probes svc now fs target = ([target], Raise e).
Proof. unfold resolve_filename_conflict_probes. by intros ->. Qed.

(** With the default format, [get_unique_filename] and
    [resolve_filename_conflict] are the same function. *)
Lemma get_unique_filename_resolve `{FaceLib} (face_service : FaceService) (now : N)
  (fs : FS) (target : Path) :
  get_unique_filename_probes now fs target =
  resolve_filename_conflict_probes (RenameSvc.init face_service) now fs target.
Proof.
  unfold get_unique_filename_probes, resolve_filename_conflict_probes.
  destruct (path_exists fs target) as [[|]|e]; [|reflexivity|reflexivity].
  rewrite (probe_loop_ext_from fs _ _ (numbered_path (RenameSvc.init face_service) target)
                               1); [reflexivity| |lia].
  intros n. unfold numbered_path. cbn [RenameSvc.duplicate_format RenameSvc.init].
  by rewrite format_n_default, !append_assoc.
Qed.

(** The whole run of the resolver on an existing candidate. *)
Lemma resolve_existing_spec `{FaceLib} (svc : RenameService) (now : N) (fs : FS)
  (target : Path) :
  path_exists fs target = Ok true →
  let r := resolve_filename_conflict_probes svc now fs target in
  r.1 !! 0 = Some target ∧
  (∀ i, 0 < i < length r.1 → r.1 !! i = Some (numbered_path svc target (N.of_nat i))) ∧
  ((∃ n, (1 ≤ n ≤ 9999)%N ∧ r.2 = Ok (numbered_path svc target n) ∧
         path_exists fs (numbered_path svc target n) = Ok false ∧
         (∀ m, (1 ≤ m < n)%N → path_exists fs (numbered_path svc target m) = Ok true) ∧
         N.of_nat (length r.1) = (n + 1)%N)
   ∨ (r.2 = Ok (stamped_path target now) ∧
      (∀ m, (1 ≤ m ≤ 9999)%N → path_exists fs (numbered_path svc target m) = Ok true) ∧
      N.of_nat (length r.1) = 10000%N)
   ∨ (∃ n e, (1 ≤ n ≤ 9999)%N ∧ r.2 = Raise e ∧
             path_exists fs (numbered_path svc target n) = Raise e ∧
             (∀ m, (1 ≤ m < n)%N →
                   path_exists fs (numbered_path svc target m) = Ok true) ∧
             N.of_nat (length r.1) = (n + 1)%N)).
Proof.
  intros Hex r. subst r. rewrite resolve_existing by done. cbn [fst snd].
  destruct (probe_loop_spec_from fs (numbered_path svc target) (stamped_path target now)
                                 1) as [Hprobes Hres]; [lia|].
  split_and!.
  - done.
  - intros [|i] [Hi1 Hi2]; [lia|]. cbn [length] in Hi2. cbn [lookup list_lookup].
    rewrite Hprobes by lia. do 2 f_equal. lia.
  - destruct Hres as [(n & Hn & Hr & Hnex & Hbelow & Hlen)
                     |[(Hr & Hall & Hlen)|(n & e & Hn & Hr & Hnex & Hbelow & Hlen)]].
    + left. exists n. split_and!; [lia|lia|done|done|done|cbn [length]; lia].
    + right. left. split_and!; [done|done|cbn [length]; lia].
    + right. right. exists n, e.
      split_and!; [lia|lia|done|done|done|cbn [length]; lia].
Qed.

(** The paths that the resolver probes: the candidate, then the numbered
    paths in order; of the probes all but the last answered [True]. *)
Lemma resolve_probes `{FaceLib} (svc : RenameService) (now : N) (fs : FS)
  (target : Path) :
  let r := resolve_filename_conflict_probes svc now fs target in
  r.1 !! 0 = Some target ∧
  (∀ i, 0 < i < length r.1 → r.1 !! i = Some (numbered_path svc target (N.of_nat i))) ∧
  (0 < N.of_nat (length r.1) ≤ 1 + 9999)%N ∧
  (∀ i q, S i < length r.1 → r.1 !! i = Some q → path_exists fs q = Ok true).
Proof.
  intros r. subst r.
  destruct (path_exists fs target) as [[|]|e] eqn:Hex.
  - destruct (resolve_existing_spec svc now fs target Hex) as (H0 & Hi & Hres).
    assert (∃ n, (1 ≤ n ≤ 9999)%N ∧
              N.of_nat (length (resolve_filename_conflict_probes svc now fs target).1)
              = (n + 1)%N ∧
              ∀ m, (1 ≤ m < n)%N →
                   path_exists fs (numbered_path svc target m) = Ok true)
      as (n & Hn & Hlen & Hbelow).
    { destruct Hres as [(n & Hn & _ & _ & Hbelow & Hlen)
                       |[(_ & Hall & Hlen)|(n & e & Hn & _ & _ & Hbelow & Hlen)]].
      - by exists n.
      - exists 9999%N. split_and!; [lia|lia|lia|]. intros m Hm. apply Hall. lia.
      - by exists n. }
    split_and!; [done|done|lia|lia|].
    intros [|i] q Hlt Hq.
    + rewrite H0 in Hq. by injection Hq as <-.
    + rewrite Hi in Hq by lia. injection Hq as <-. apply Hbelow. lia.
  - rewrite resolve_missing by done. cbn [fst snd length].
    split_and!; [done|intros; lia|lia|lia|intros; lia].
  - rewrite (resolve_raising _ _ _ _ e) by done. cbn [fst snd length].
    split_and!; [done|intros; lia|lia|lia|intros; lia].
Qed.

(** How the resolver ends, by the answer to its last probe. *)
Lemma resolve_result `{FaceLib} (svc : RenameService) (now : N) (fs : FS)
  (target : Path) :
  let r := resolve_filename_conflict_probes svc now fs target in
  (∃ p, r.2 = Ok p ∧ last r.1 = Some p ∧ path_exists fs p = Ok false) ∨
  (r.2 = Ok (stamped_path target now) ∧ N.of_nat (length r.1) = (1 + 9999)%N ∧
   ∀ q, q ∈ r.1 → path_exists fs q = Ok true) ∨
  (∃ q e, r.2 = Raise e ∧ last r.1 = Some q ∧ path_exists fs q = Raise e).
Proof.
  intros r. subst r.
  assert (∀ (l : list Path) (n : N), N.of_nat (length l) = (n + 1)%N →
            last l = l !! N.to_nat n) as Hlast.
  { intros l n Hlen. rewrite last_lookup. f_equal. lia. }
  destruct (path_exists fs target) as [[|]|e] eqn:Hex.
  - destruct (resolve_existing_spec svc now fs target Hex) as (H0 & Hi & Hres).
    destruct Hres as [(n & Hn & Hr & Hnex & _ & Hlen)
                     |[(Hr & Hall & Hlen)|(n & e & Hn & Hr & Hnex & _ & Hlen)]].
    + left. exists (numbered_path svc target n). split_and!; [done| |done].
      rewrite (Hlast _ n Hlen), Hi by lia. by rewrite N2Nat.id.
    + right. left. split_and!; [done|lia|].
      intros q [i Hq]%list_elem_of_lookup.
      destruct i as [|i].
      * rewrite H0 in Hq. by injection Hq as <-.
      * assert (S i < length (resolve_filename_conflict_probes svc now fs target).1)
          as Hlt by (by eapply lookup_lt_Some).
        rewrite Hi in Hq by lia. injection Hq as <-. apply Hall. lia.
    + right. right. exists (numbered_path svc target n), e. split_and!; [done| |done].
      rewrite (Hlast _ n Hlen), Hi by lia. by rewrite N2Nat.id.
  - rewrite resolve_missing by done. left. by exists target.
  - rewrite (resolve_raising _ _ _ _ e) by done. right. right. by exists target, e.
Qed.

(** C4 (amended). The resolver ends on every candidate.  It asks for the
    existence of the candidate and then of at most 9999 numbered paths, in
    order, and goes on only while the answer is [True].  It ends in one of
    three ways: it returns the last path it asked for, which does not exist;
    or it returns the path suffixed with the timestamp, unprobed, after the
    candidate and all 9999 numbered paths were found to exist; or it raises
    the exception that its last call of [exists] raised.
    [get_unique_filename] is the same function for the default numbering
    format. *)
Theorem resolve_filename_conflict_bounded `{FaceLib} (svc : RenameService) (now : N)
  (fs : FS) (target : Path) :
  let r := resolve_filename_conflict_probes svc now fs target in
  resolve_filename_conflict svc now fs target = r.2 ∧
  r.1 !! 0 = Some target ∧
  (∀ i, 0 < i < length r.1 → r.1 !! i = Some (numbered_path svc target (N.of_nat i))) ∧
  (N.of_nat (length r.1) ≤ 1 + 9999)%N ∧
  (∀ i q, S i < length r.1 → r.1 !! i = Some q → path_exists fs q = Ok true) ∧
  ((∃ p, r.2 = Ok p ∧ last r.1 = Some p ∧ path_exists fs p = Ok false) ∨
   (r.2 = Ok (stamped_path target now) ∧ N.of_nat (length r.1) = (1 + 9999)%N ∧
    ∀ q, q ∈ r.1 → path_exists fs q = Ok true) ∨
   (∃ q e, r.2 = Raise e ∧ last r.1 = Some q ∧ path_exists fs q = Raise e)) ∧
  get_unique_filename_probes now fs target =
    resolve_filename_conflict_probes (RenameSvc.init (face_service svc)) now fs target.
Proof.
  intros r. subst r.
  destruct (resolve_probes svc now fs target) as (H0 & Hi & Hlen & Hbefore).
  split_and!; [done|done|done|lia|done|apply resolve_result|
               apply get_unique_filename_resolve].
Qed.

Lemma joinpath_plain (dir : Path) (file_name : string) :
  startswith "/" file_name = false → components file_name = [file_name] →
  joinpath dir file_name = mkPath (anchored dir) (parts dir ++ [file_name]).
Proof. unfold joinpath. by intros -> ->. Qed.

Lemma name_snoc (dir : Path) (file_name : string) :
  name (mkPath (anchored dir) (parts dir ++ [file_name])) = file_name.
Proof. unfold name. cbn [parts]. by rewrite last_snoc. Qed.

Lemma parent_snoc (dir : Path) (file_name : string) :
  parent (mkPath (anchored dir) (parts dir ++ [file_name])) = dir.
Proof. unfold parent. cbn [parts anchored]. rewrite removelast_last. by destruct dir. Qed.

Lemma numbered_path_test `{FaceLib} (face_service : FaceService) (dir : Path) :
  numbered_path (RenameSvc.init face_service) (joinpath dir "test.txt") 1
    = joinpath dir "test(1).txt" ∧
  numbered_path (RenameSvc.init face_service) (joinpath dir "test.txt") 2
    = joinpath dir "test(2).txt".
Proof.
  unfold numbered_path, stem, suffix.
  rewrite (joinpath_plain dir "test.txt") by done.
  rewrite parent_snoc, name_snoc. by vm_compute.
Qed.

(** The resolver on an existing candidate whose numbered paths before the
    one numbered [n] exist: it ends with the answer of [exists] for that
    path. *)
Lemma resolve_numbered `{FaceLib} (svc : RenameService) (now : N) (fs : FS)
  (target : Path) (n : N) :
  path_exists fs target = Ok true → (1 ≤ n ≤ 9999)%N →
  (∀ m, (1 ≤ m < n)%N → path_exists fs (numbered_path svc target m) = Ok true) →
  (path_exists fs (numbered_path svc target n) = Ok false →
   resolve_filename_conflict svc now fs target = Ok (numbered_path svc target n)) ∧
  (∀ e, path_exists fs (numbered_path svc target n) = Raise e →
        resolve_filename_conflict svc now fs target = Raise e).
Proof.
  intros Hex Hn Hbelow. unfold resolve_filename_conflict.
  destruct (resolve_existing_spec svc now fs target Hex) as (_ & _ & Hres).
  split.
  - intros Hfree.
    destruct Hres as [(n' & Hn' & Hr & Hnex & Hb & _)
                     |[(_ & Hall & _)|(n' & e & Hn' & _ & Hnex & Hb & _)]].
    + rewrite Hr. do 2 f_equal.
      destruct (N.lt_trichotomy n n') as [Hlt|[Heq|Hgt]]; [|done|].
      * rewrite Hb in Hfree by lia. done.
      * rewrite Hbelow in Hnex by lia. done.
    + rewrite Hall in Hfree by lia. done.
    + destruct (N.lt_trichotomy n n') as [Hlt|[Heq|Hgt]].
      * rewrite Hb in Hfree by lia. done.
      * subst n'. rewrite Hnex in Hfree. done.
      * rewrite Hbelow in Hnex by lia. done.
  - intros e Hraise.
    destruct Hres as [(n' & Hn' & _ & Hnex & Hb & _)
                     |[(_ & Hall & _)|(n' & e' & Hn' & Hr & Hnex & Hb & _)]].
    + destruct (N.lt_trichotomy n n') as [Hlt|[Heq|Hgt]].
      * rewrite Hb in Hraise by lia. done.
      * subst n'. rewrite Hnex in Hraise. done.
      * rewrite Hbelow in Hnex by lia. done.
    + rewrite Hall in Hraise by lia. done.
    + rewrite Hr. f_equal.
      destruct (N.lt_trichotomy n n') as [Hlt|[Heq|Hgt]].
      * rewrite Hb in Hraise by lia. done.
      * subst n'. rewrite Hnex in Hraise. by injection Hraise.
      * rewrite Hbelow in Hnex by lia. done.
Qed.

(** C5 (amended). The resolver returns a candidate unchanged when [exists]
    answers that it does not exist.  For a candidate that exists it returns
    the first of the paths numbered 1 to 9999 for which [exists] answers
    that it does not exist, when there is one.  When a call of [exists]
    raises before that, for the candidate or for a numbered path, the
    resolver raises that exception.  With test.txt and test(1).txt present
    and test(2).txt absent, resolving test.txt gives test(2).txt. *)
Theorem resolve_filename_conflict_first_free `{FaceLib} (svc : RenameService) (now : N)
  (fs : FS) (target : Path) :
  (path_exists fs target = Ok false →
   resolve_filename_conflict svc now fs target = Ok target) ∧
  (∀ e, path_exists fs target = Raise e →
        resolve_filename_conflict svc now fs target = Raise e) ∧
  (∀ n, path_exists fs target = Ok true → (1 ≤ n ≤ 9999)%N →
        (∀ m, (1 ≤ m < n)%N → path_exists fs (numbered_path svc target m) = Ok true) →
        (path_exists fs (numbered_path svc target n) = Ok false →
         resolve_filename_conflict svc now fs target = Ok (numbered_path svc target n)) ∧
        (∀ e, path_exists fs (numbered_path svc target n) = Raise e →
              resolve_filename_conflict svc now fs target = Raise e)) ∧
  (∀ dir, path_exists fs (joinpath dir "test.txt") = Ok true →
          path_exists fs (joinpath dir "test(1).txt") = Ok true →
          path_exists fs (joinpath dir "test(2).txt") = Ok false →
          resolve_filename_conflict (RenameSvc.init (face_service svc)) now fs
                                    (joinpath dir "test.txt")
          = Ok (joinpath dir "test(2).txt") ∧
          get_unique_filename now fs (joinpath dir "test.txt")
          = Ok (joinpath dir "test(2).txt")).
Proof.
  split_and!.
  - intros Hex. unfold resolve_filename_conflict. by rewrite resolve_missing.
  - intros e Hex. unfold resolve_filename_conflict.
    by rewrite (resolve_raising _ _ _ _ e).
  - intros n Hex Hn Hbelow. by apply resolve_numbered.
  - intros dir H0 H1 H2.
    destruct (numbered_path_test (face_service svc) dir) as [E1 E2].
    assert (resolve_filename_conflict (RenameSvc.init (face_service svc)) now fs
              (joinpath dir "test.txt") = Ok (joinpath dir "test(2).txt")) as Hres.
    { rewrite <-E2.
      apply (resolve_numbered (RenameSvc.init (face_service svc)) now fs _ 2);
        [done|lia| |by rewrite E2].
      intros m Hm. replace m with 1%N by lia. by rewrite E1. }
    split; [done|].
    unfold get_unique_filename.
    rewrite (get_unique_filename_resolve (face_service svc)). exact Hres.
Qed.

(** The test of [get_unique_filename] in [tests/test_utils.py]. *)
Example resolve_test_txt :
  resolve_filename_conflict Scenario.service 1700000000 Scenario.test_fs
                            (Scenario.photo "test.txt")
    = Ok (Scenario.photo "test(2).txt") ∧
  get_unique_filename 1700000000 Scenario.test_fs (Scenario.photo "test.txt")
    = Ok (Scenario.photo "test(2).txt") ∧
  get_unique_filename 1700000000 Scenario.test_fs (Scenario.photo "other.txt")
    = Ok (Scenario.photo "other.txt").
Proof. vm_compute. by split_and!. Qed.

(** *** Names without a slash *)

Lemma pretty_N_char_not_slash (x : N) : pretty_N_char x ≠ "/"%char.
Proof. unfold pretty_N_char. by repeat case_match. Qed.

Lemma pretty_N_go_no_slash (x : N) (s : string) :
  char_in "/" s = false → char_in "/" (pretty_N_go x s) = false.
Proof.
  revert s. induction (N.lt_wf_0 x) as [x _ IH]; intros s Hs.
  destruct (decide (x = 0)%N) as [->|Hx]; [by rewrite pretty_N_go_0|].
  rewrite pretty_N_go_step by lia. apply IH.
  - apply N.div_lt; lia.
  - cbn [char_in]. rewrite decide_False; [done|].
    intros Hc. by apply (pretty_N_char_not_slash (x `mod` 10)).
Qed.

Lemma pretty_N_no_slash (x : N) : char_in "/" (pretty x) = false.
Proof.
  unfold pretty, pretty_N. case_decide; [done|]. by apply pretty_N_go_no_slash.
Qed.

Lemma split_on_absent (sep : ascii) (s : string) :
  char_in sep s = false → split_on sep s = [s].
Proof.
  induction s as [|c s IH]; [done|].
  cbn [char_in split_on]. destruct (decide (sep = c)) as [->|Hne]; [done|].
  intros Hs. rewrite decide_False by done. by rewrite IH.
Qed.

(** A file name that starts with a letter t and has no slash is one path
    component. *)
Lemma photo_plain (rest : string) :
  char_in "/" rest = false →
  Scenario.photo (String "t" rest) = mkPath false ["photos"; String "t" rest].
Proof.
  intros Hs. unfold Scenario.photo, joinpath, components.
  rewrite split_on_absent by (cbn [char_in]; by rewrite decide_False).
  cbn [startswith]. rewrite decide_False by done.
  by rewrite filter_cons_True, filter_nil by done.
Qed.

Lemma numbered_name_no_slash (k : N) :
  char_in "/" ("est(" +:+ pretty k +:+ ").txt") = false.
Proof. by rewrite !char_in_append, pretty_N_no_slash. Qed.

Lemma photo_numbered_name (k : N) :
  Scenario.photo (Scenario.numbered_name k)
  = mkPath false ["photos"; Scenario.numbered_name k].
Proof. apply (photo_plain ("est(" +:+ pretty k +:+ ").txt")), numbered_name_no_slash. Qed.

(** The numbered candidates of test.txt are test(1).txt, test(2).txt, ... *)
Lemma numbered_path_test_txt (k : N) :
  numbered_path Scenario.service (Scenario.photo "test.txt") k
  = Scenario.photo (Scenario.numbered_name k).
Proof.
  unfold numbered_path. cbn [RenameSvc.duplicate_format Scenario.service RenameSvc.init].
  rewrite format_n_default.
  change (parent (Scenario.photo "test.txt")) with Scenario.photos.
  change (stem (Scenario.photo "test.txt")) with "test".
  change (suffix (Scenario.photo "test.txt")) with ".txt".
  by rewrite !append_assoc.
Qed.

Lemma append_length (s t : string) :
  String.length (s +:+ t) = String.length s + String.length t.
Proof. induction s as [|a s IH]; [done|]. rewrite append_cons. simpl. by rewrite IH. Qed.

Lemma append_inj_r (s t u : string) : s +:+ u = t +:+ u → s = t.
Proof.
  revert t. induction s as [|a s IH]; intros [|b t] Heq.
  - done.
  - apply (f_equal String.length) in Heq.
    rewrite append_cons, append_empty_l in Heq. simpl in Heq.
    rewrite append_length in Heq. lia.
  - apply (f_equal String.length) in Heq.
    rewrite append_cons, append_empty_l in Heq. simpl in Heq.
    rewrite append_length in Heq. lia.
  - rewrite !append_cons in Heq. injection Heq as -> Heq. by rewrite (IH t Heq).
Qed.

Lemma numbered_name_inj (k k' : N) :
  Scenario.numbered_name k = Scenario.numbered_name k' → k = k'.
Proof.
  unfold Scenario.numbered_name. intros Heq.
  apply (inj (String.app "test(")) in Heq.
  apply append_inj_r in Heq. by apply (inj pretty) in Heq.
Qed.

(** *** What exists in a directory of the scenario *)

Lemma directory_present (file_names : list string) (p : Path) :
  present (Scenario.directory file_names) p = true ↔
  p ∈ map Scenario.photo file_names ∨ p = Scenario.photos.
Proof.
  unfold present, Scenario.directory. cbn [files dirs].
  rewrite orb_true_iff, !bool_decide_eq_true, elem_of_singleton.
  assert (is_Some (list_to_map (M := gmap Path File)
                     (map (λ file_name, (Scenario.photo file_name, Scenario.text_file))
                          file_names) !! p)
          ↔ p ∈ map Scenario.photo file_names) as ->; [|done].
  rewrite <-not_eq_None_Some, <-not_elem_of_list_to_map.
  assert ((map (λ file_name, (Scenario.photo file_name, Scenario.text_file)) file_names).*1
          = map Scenario.photo file_names) as ->.
  { induction file_names as [|n l IH]; [done|]. cbn [map fmap list_fmap] in *.
    by rewrite IH. }
  split; [apply dec_stable|tauto].
Qed.

Lemma crowded_numbered_exists (extra : list string) (m : N) :
  (1 ≤ m ≤ 9999)%N →
  path_exists (Scenario.directory (extra ++ Scenario.crowded_names))
              (numbered_path Scenario.service (Scenario.photo "test.txt") m) = Ok true.
Proof.
  intros Hm. apply path_exists_present, directory_present. left.
  rewrite numbered_path_test_txt. apply list_elem_of_fmap_2.
  apply elem_of_app. right. unfold Scenario.crowded_names. right.
  apply list_elem_of_fmap. exists (N.to_nat m). split.
  - by rewrite N2Nat.id.
  - apply elem_of_seq. lia.
Qed.

Lemma crowded_target_exists (extra : list string) :
  path_exists (Scenario.directory (extra ++ Scenario.crowded_names))
              (Scenario.photo "test.txt") = Ok true.
Proof.
  apply path_exists_present, directory_present. left. apply list_elem_of_fmap_2.
  apply elem_of_app. right. left.
Qed.

(** In a directory that holds test.txt and test(1).txt to test(9999).txt,
    the resolver ends with the timestamped name. *)
Lemma crowded_resolution (extra : list string) (now : N) :
  resolve_filename_conflict Scenario.service now
    (Scenario.directory (extra ++ Scenario.crowded_names)) (Scenario.photo "test.txt")
  = Ok (stamped_path (Scenario.photo "test.txt") now).
Proof.
  destruct (resolve_existing_spec Scenario.service now _ _ (crowded_target_exists extra))
    as (_ & _ & [(n & Hn & _ & Hnex & _)|[(Hr & _)|(n & e & Hn & _ & Hnex & _)]]).
  - rewrite crowded_numbered_exists in Hnex by done. discriminate Hnex.
  - exact Hr.
  - rewrite crowded_numbered_exists in Hnex by done. discriminate Hnex.
Qed.

Lemma stamped_path_test_txt :
  stamped_path (Scenario.photo "test.txt") 1700000000
  = Scenario.photo "test_1700000000.txt".
Proof. vm_compute. reflexivity. Qed.

(** The name of 256 bytes is refused by the system, and the name of 255
    bytes is too long once it is numbered. *)
Lemma long_names :
  String.length Scenario.longest_name = 255 ∧ String.length Scenario.long_name = 256 ∧
  name (numbered_path Scenario.service (Scenario.photo Scenario.longest_name) 1)
  = String.string_of_list_ascii (replicate 251 "a"%char) +:+ "(1).txt".
Proof. vm_compute. by split_and!. Qed.

(** C4, counterexample. In the directory that holds test.txt, test(1).txt to
    test(9999).txt and test_1700000000.txt, at time 1700000000 the path
    returned by the resolver exists.  For a candidate whose name has 256
    bytes the resolver raises. *)
Lemma resolve_filename_conflict_returns_existing_path :
  (resolve_filename_conflict Scenario.service 1700000000 Scenario.crowded_stamped_fs
                             (Scenario.photo "test.txt")
     = Ok (Scenario.photo "test_1700000000.txt") ∧
   path_exists Scenario.crowded_stamped_fs (Scenario.photo "test_1700000000.txt")
     = Ok true) ∧
  resolve_filename_conflict Scenario.service 1700000000 Scenario.test_fs
                            (Scenario.photo Scenario.long_name)
    = Raise (OSError ("[Errno 36] File name too long: 'photos/"
                      +:+ Scenario.long_name +:+ "'")).
Proof.
  split; [split|].
  - rewrite <-stamped_path_test_txt.
    apply (crowded_resolution ["test_1700000000.txt"]).
  - apply path_exists_present, directory_present. left. apply list_elem_of_fmap_2. left.
  - vm_compute. reflexivity.
Qed.

(** C5, counterexample. In the directory that holds test.txt and test(1).txt
    to test(9999).txt, the first path of the numbered sequence that does not
    exist is test(10000).txt, and the resolver returns another path.  A
    candidate whose name has 256 bytes does not exist, and the resolver
    raises instead of returning it.  For the existing file whose name has 255
    bytes the first numbered path does not exist, and the resolver raises
    instead of returning it. *)
Lemma resolve_filename_conflict_misses_first_free_path :
  (let fs := Scenario.crowded_fs in
   let target := Scenario.photo "test.txt" in
   path_exists fs target = Ok true ∧
   (∀ m, (1 ≤ m < 10000)%N →
         path_exists fs (numbered_path Scenario.service target m) = Ok true) ∧
   path_exists fs (numbered_path Scenario.service target 10000) = Ok false ∧
   resolve_filename_conflict Scenario.service 1700000000 fs target
     = Ok (Scenario.photo "test_1700000000.txt") ∧
   resolve_filename_conflict Scenario.service 1700000000 fs target
     ≠ Ok (numbered_path Scenario.service target 10000)) ∧
  (present Scenario.test_fs (Scenario.photo Scenario.long_name) = false ∧
   resolve_filename_conflict Scenario.service 1700000000 Scenario.test_fs
                             (Scenario.photo Scenario.long_name)
     = Raise (OSError ("[Errno 36] File name too long: 'photos/"
                       +:+ Scenario.long_name +:+ "'"))) ∧
  (let fs := Scenario.longest_fs in
   let target := Scenario.photo Scenario.longest_name in
   present fs target = true ∧
   present fs (numbered_path Scenario.service target 1) = false ∧
   ∃ msg, resolve_filename_conflict Scenario.service 1700000000 fs target
          = Raise (OSError msg)).
Proof.
  split; [|split; [by vm_compute|vm_compute; split_and!; [done|done|by eexists]]].
  intros fs target.
  assert (path_exists fs (numbered_path Scenario.service target 10000) = Ok false)
    as Hfree.
  { unfold target. rewrite numbered_path_test_txt, photo_numbered_name.
    rewrite path_exists_short;
      [|vm_compute; lia|repeat constructor; vm_compute; lia].
    apply (f_equal Ok), not_true_is_false. intros Hex.
    apply (directory_present Scenario.crowded_names) in Hex as [Hex|Hex].
    - apply list_elem_of_fmap in Hex as (file_name & Heq & Hin).
      apply elem_of_cons in Hin as [->|Hin].
      + vm_compute in Heq. discriminate Heq.
      + apply list_elem_of_fmap in Hin as (k & -> & Hk).
        rewrite !photo_numbered_name in Heq.
        assert (Scenario.numbered_name 10000 = Scenario.numbered_name (N.of_nat k))
          as Hname by congruence.
        apply numbered_name_inj in Hname. apply elem_of_seq in Hk. lia.
    - discriminate Hex. }
  assert (resolve_filename_conflict Scenario.service 1700000000 fs target
          = Ok (Scenario.photo "test_1700000000.txt")) as Hres.
  { rewrite <-stamped_path_test_txt. apply (crowded_resolution []). }
  split_and!.
  - apply (crowded_target_exists []).
  - intros m Hm. apply (crowded_numbered_exists []). lia.
  - exact Hfree.
  - exact Hres.
  - rewrite Hres. unfold target. rewrite numbered_path_test_txt, photo_numbered_name.
    vm_compute. discriminate.
Qed.

(** ** The matcher on the gallery of the scenario *)

(** Of the queries 0 and 10, the first is Alice's own encoding and the second
    is 6 away from the nearest registered person. *)
Lemma identify_faces_nearest_within_tolerance_witness :
  ∃ identified,
    identify_faces Scenario.faces [0; 10]%Q = Ok identified ∧
    length identified = 2 ∧
    identified = [Some "Alice"; None].
Proof.
  destruct (identify_faces_nearest_within_tolerance (H:=Scenario.lib)
              Scenario.gallery [0; 10]%Q)
    as (identified & Hid & Hlen & _ & Hnearest).
  - intros q row _ _. eexists. reflexivity.
  - exists identified. split; [exact Hid|]. split; [exact Hlen|].
    vm_compute in Hid. injection Hid as <-. reflexivity.
Defined.

(** The query 1/2 is equally far from Alice, loaded first, and from Bob. *)
Lemma identify_faces_first_minimum_wins_witness :
  identify_faces Scenario.faces [(1 # 2)%Q] = Ok [Some "Alice"].
Proof.
  destruct (identify_faces_first_minimum_wins (H:=Scenario.lib)
              Scenario.gallery (1 # 2)%Q 0 1%Z "Alice"
              0%Q (1 # 2)%Q) as [Hwithin _].
  - intros row _. eexists. reflexivity.
  - reflexivity.
  - reflexivity.
  - intros row d' Hrow Hd'.
    repeat (apply elem_of_cons in Hrow as [->|Hrow];
            [injection Hd' as <-; apply Qle_bool_imp_le; vm_compute; reflexivity|]).
    by apply elem_of_nil in Hrow.
  - intros j' row d' Hlt. lia.
  - apply Hwithin. apply Qle_bool_imp_le. vm_compute. reflexivity.
Defined.

(** C8, counterexample. With Alice at 0 and Bob at 2, the query 1 is equally
    far from both, at the minimum distance 1, and the matcher returns no
    name, not the name of Alice, who was loaded first. *)
Lemma identify_faces_tie_beyond_tolerance :
  let svc := FaceSvc.init Scenario.distant_gallery in
  known_names svc = ["Alice"; "Bob"] ∧
  face_distance (known_encodings svc) 1%Q = Ok [1; 1]%Q ∧
  identify_faces svc [1%Q] = Ok [None] ∧
  identify_faces svc [1%Q] ≠ Ok [Some "Alice"].
Proof. vm_compute. split_and!; [reflexivity|reflexivity|reflexivity|discriminate]. Qed.

(** The two nearest gallery vectors of that query are equally far. *)
Example tie_between_alice_and_bob :
  face_distance (known_encodings Scenario.faces) (1 # 2)%Q
  = Ok [1 # 2; 1 # 2; 3 # 2; 5 # 2; 7 # 2]%Q.
Proof. reflexivity. Qed.

(** ** One file *)

(** C9 (amended). A dry run leaves the filesystem as it is and reports the
    same original path, new path and identified names as the run that
    renames.  Success and error are the same as well unless the rename call
    of that run raises: then the dry run reports a success and the other run
    the error of the rename. *)
Theorem rename_single_file_dry_run `{FaceLib} (svc : RenameService) (now : N)
  (fs : FS) (image_path : Path) :
  let dry := rename_single_file svc now fs image_path true in
  let wet := rename_single_file svc now fs image_path false in
  dry.2 = fs ∧
  original_path dry.1 = original_path wet.1 ∧
  new_path dry.1 = new_path wet.1 ∧
  identified_names dry.1 = identified_names wet.1 ∧
  (dry.1 = wet.1 ∨
   (success dry.1 = true ∧ error dry.1 = None ∧ success wet.1 = false ∧ wet.2 = fs ∧
    ∃ target e, new_path wet.1 = Some (str_path target) ∧
                os_rename fs image_path target = Raise e ∧
                error wet.1 = Some ("リネーム処理エラー: " +:+ str_exn e))).
Proof.
  intros dry wet. subst dry wet. unfold rename_single_file.
  destruct (negb (bool_decide (lower (suffix image_path) ∈ Config.SUPPORTED_IMAGE_FORMATS)));
    [by split_and!; [..|left]|].
  destruct (process_image_for_rename (face_service svc) fs image_path) as [|n names];
    [by split_and!; [..|left]|].
  set (candidate := joinpath (parent image_path)
                      (generate_new_filename svc (n :: names) image_path)).
  destruct (if decide (candidate ≠ image_path)
            then resolve_filename_conflict svc now fs candidate
            else Ok candidate) as [target|e];
    [|by split_and!; [..|left]].
  cbn [negb andb].
  destruct (bool_decide (target ≠ image_path)); cbn [negb andb];
    [|by split_and!; [..|left]].
  destruct (os_rename fs image_path target) as [fs'|e] eqn:Hren.
  - by split_and!; [..|left].
  - split_and!; [done..|]. right. split_and!; [done..|]. by exists target, e.
Qed.

(** C9, counterexample. In a directory that is not writable, the dry run of
    a photo of Alice reports a success and no error, and the run that renames
    reports a failure with the error of the rename. *)
Lemma rename_single_file_dry_run_differs :
  let dry := rename_single_file Scenario.service 1700000000 Scenario.locked_fs
                                (Scenario.photo "img_a.jpg") true in
  let wet := rename_single_file Scenario.service 1700000000 Scenario.locked_fs
                                (Scenario.photo "img_a.jpg") false in
  success dry.1 = true ∧ error dry.1 = None ∧
  success wet.1 = false ∧
  error wet.1 = Some ("リネーム処理エラー: [Errno 13] Permission denied: "
                      +:+ "'photos/img_a.jpg' -> 'photos/Alice.jpg'").
Proof. vm_compute. by split_and!. Qed.

(** ** The batch *)

Lemma count_result_fold (rs : list RenameResult) (a b c : nat) :
  fold_left count_result rs (a, b, c) =
  (a + length (filter (λ r, success r = true) rs),
   b + length (filter (λ r, success r = false) rs),
   c + length (filter (λ r, success r = false ∧
                            str_in NO_FACE_MESSAGE (default EmptyString (error r)) = true)
                      rs)).
Proof.
  revert a b c. induction rs as [|r rs IH]; intros a b c.
  - simpl. by rewrite !Nat.add_0_r.
  - cbn [fold_left count_result]. destruct (success r) eqn:Hs.
    + rewrite IH. rewrite (filter_cons_True _ r) by done.
      rewrite !(filter_cons_False _ r) by (rewrite Hs; intuition discriminate).
      cbn [length]. repeat match goal with |- (_, _) = (_, _) => f_equal end; lia.
    + destruct (str_in NO_FACE_MESSAGE (default EmptyString (error r))) eqn:Hm.
      * rewrite IH. rewrite (filter_cons_False _ r) by (by rewrite Hs).
        rewrite !(filter_cons_True _ r) by (by rewrite ?Hs, ?Hm).
        cbn [length]. repeat match goal with |- (_, _) = (_, _) => f_equal end; lia.
      * rewrite IH. rewrite (filter_cons_False _ r) by (by rewrite Hs).
        rewrite (filter_cons_True _ r) by done.
        rewrite (filter_cons_False _ r) by (rewrite Hm; intuition discriminate).
        cbn [length]. repeat match goal with |- (_, _) = (_, _) => f_equal end; lia.
Qed.

Lemma run_files_length `{FaceLib} (svc : RenameService) (clock : Path → N) (fs : FS)
  (image_files : list Path) (dry_run : bool) :
  length (run_files svc clock fs image_files dry_run).1 = length image_files.
Proof.
  revert fs. induction image_files as [|p l IH]; intros fs; [done|].
  cbn [run_files fst length]. by rewrite IH.
Qed.

Lemma filter_partition_length (rs : list RenameResult) :
  length (filter (λ r, success r = true) rs) + length (filter (λ r, success r = false) rs)
  = length rs.
Proof.
  induction rs as [|r rs IH]; [done|].
  destruct (success r) eqn:Hs.
  - rewrite filter_cons_True, filter_cons_False by (by rewrite ?Hs). simpl. lia.
  - rewrite filter_cons_False, filter_cons_True by (by rewrite ?Hs). simpl. lia.
Qed.

Lemma filter_no_faces_le (rs : list RenameResult) :
  length (filter (λ r, success r = false ∧
                       str_in NO_FACE_MESSAGE (default EmptyString (error r)) = true) rs)
  ≤ length (filter (λ r, success r = false) rs).
Proof.
  induction rs as [|r rs IH]; [done|].
  destruct (success r) eqn:Hs.
  - rewrite !filter_cons_False by (rewrite Hs; intuition discriminate). done.
  - rewrite (filter_cons_True (λ r, success r = false)) by done.
    destruct (str_in NO_FACE_MESSAGE (default EmptyString (error r))) eqn:Hm.
    + rewrite filter_cons_True by (by rewrite Hs, Hm). simpl. lia.
    + rewrite filter_cons_False by (rewrite Hm; intuition discriminate). simpl. lia.
Qed.

Lemma no_face_message_in_itself :
  str_in NO_FACE_MESSAGE NO_FACE_MESSAGE = true.
Proof. reflexivity. Qed.

(** The batch of the specification is what it is meant to be: two images
    without a face, one on which detection raises, one of Alice and one of
    Bob, whose new names differ. *)
Example batch_scenario_shape :
  detect_faces_in_image Scenario.batch_fs (Scenario.photo "empty1.jpg") = Ok [] ∧
  detect_faces_in_image Scenario.batch_fs (Scenario.photo "empty2.jpg") = Ok [] ∧
  detect_faces_in_image Scenario.batch_fs (Scenario.photo "broken.jpg")
    = Raise (ValueError "画像処理エラー: cannot identify image file") ∧
  process_image_for_rename Scenario.faces Scenario.batch_fs (Scenario.photo "img_a.jpg")
    = ["Alice"] ∧
  process_image_for_rename Scenario.faces Scenario.batch_fs (Scenario.photo "img_b.jpg")
    = ["Bob"].
Proof. vm_compute. by split_and!. Qed.

(** What [rename_batch] counts: every result that is not a success under
    failed, and under no_faces those of them whose error text contains the
    no-face message; so successful + failed is the number of files and
    no_faces is at most failed.  A file whose classification yields the empty
    list, which is also what the classifier returns when detection raises,
    gets such a result and is counted under both. *)
Theorem rename_batch_counters `{FaceLib} (svc : RenameService) (clock : Path → N)
  (fs : FS) (image_files : list Path) (dry_run : bool) :
  let s := (rename_batch svc clock fs image_files dry_run).1 in
  total_files s = length image_files ∧
  results s = (run_files svc clock fs image_files dry_run).1 ∧
  successful s = length (filter (λ r, success r = true) (results s)) ∧
  failed s = length (filter (λ r, success r = false) (results s)) ∧
  no_faces s =
    length (filter (λ r, success r = false ∧
                         str_in NO_FACE_MESSAGE (default EmptyString (error r)) = true)
                   (results s)) ∧
  successful s + failed s = total_files s ∧
  no_faces s ≤ failed s ∧
  (∀ now' fs' p,
     lower (suffix p) ∈ Config.SUPPORTED_IMAGE_FORMATS →
     process_image_for_rename (face_service svc) fs' p = [] →
     let r := (rename_single_file svc now' fs' p dry_run).1 in
     success r = false ∧ error r = Some NO_FACE_MESSAGE ∧
     str_in NO_FACE_MESSAGE (default EmptyString (error r)) = true) ∧
  (∀ fs' p e,
     detect_faces_in_image fs' p = Raise e →
     process_image_for_rename (face_service svc) fs' p = []) ∧
  let b := (rename_batch Scenario.service Scenario.clock Scenario.batch_fs
                         Scenario.batch_files dry_run).1 in
  (successful b, no_faces b, failed b) = (2, 3, 3).
Proof.
  intros s.
  assert (total_files s = length image_files ∧
          results s = (run_files svc clock fs image_files dry_run).1 ∧
          successful s = length (filter (λ r, success r = true) (results s)) ∧
          failed s = length (filter (λ r, success r = false) (results s)) ∧
          no_faces s =
            length (filter (λ r, success r = false ∧
                       str_in NO_FACE_MESSAGE (default EmptyString (error r)) = true)
                     (results s))) as (Ht & Hr & Hs & Hf & Hn).
  { subst s. unfold rename_batch.
    destruct image_files as [|p l]; [by split_and!|].
    cbn [length Nat.eqb]. rewrite count_result_fold. by split_and!. }
  split_and!; try done.
  - rewrite Hs, Hf, Ht, Hr, filter_partition_length. apply run_files_length.
  - rewrite Hn, Hf. apply filter_no_faces_le.
  - intros now' fs' p Hsup Hnone. unfold rename_single_file.
    rewrite bool_decide_eq_true_2 by done. cbn [negb]. rewrite Hnone. by split_and!.
  - intros fs' p e He. unfold process_image_for_rename. by rewrite He.
  - destruct dry_run; vm_compute; reflexivity.
Qed.

(** C1. For the batch of two images without a face, one image on which
    detection raises and two matching images, the summary of [rename_batch]
    has successful = 2, no_faces = 3 and failed = 3, not successful = 2,
    no_faces = 2, failed = 1: the three files without labels are counted
    under no_faces and under failed as well. *)
Lemma rename_batch_counts_differ :
  let s := (rename_batch Scenario.service Scenario.clock Scenario.batch_fs
                         Scenario.batch_files false).1 in
  (successful s, no_faces s, failed s) = (2, 3, 3) ∧
  ¬ (successful s = 2 ∧ no_faces s = 2 ∧ failed s = 1).
Proof. vm_compute. split; [reflexivity|]. intros (_ & Hc & _). discriminate Hc. Qed.

(** * Further properties of the code *)

(** ** [clean_filename]: what a cleaned name looks like *)

Lemma rstrip_last (cs s t : string) (c : ascii) :
  rstrip cs s = t +:+ String c EmptyString → char_in c cs = false.
Proof.
  revert t. induction s as [|a s IH]; intros t.
  - simpl. by destruct t.
  - rewrite rstrip_cons. destruct (rstrip cs s) as [|b r] eqn:Hr.
    + destruct (char_in a cs) eqn:Ha; [by destruct t|].
      destruct t as [|d t]; [by intros [= <-]|].
      rewrite append_cons. intros [= _ Ht]. by destruct t.
    + destruct t as [|d t]; [done|].
      rewrite append_cons. intros [= _ Ht]. by apply (IH t).
Qed.

Lemma append_last_inj (t t' : string) (c c' : ascii) :
  t +:+ String c EmptyString = t' +:+ String c' EmptyString → t = t' ∧ c = c'.
Proof.
  revert t'. induction t as [|a t IH]; intros [|a' t'];
    rewrite ?append_cons, ?append_empty_l.
  - by intros [= ->].
  - intros [= _ Heq]. by destruct t'.
  - intros [= _ Heq]. by destruct t.
  - intros [= -> Heq]. destruct (IH t' Heq) as [-> ->]. done.
Qed.

Lemma strip_first (cs s t : string) (c : ascii) :
  strip cs s = String c t → char_in c cs = false.
Proof.
  unfold strip. pose proof (lstrip_head cs s) as Hh.
  destruct (lstrip cs s) as [|a r]; [done|].
  rewrite rstrip_cons_kept by done. by intros [= <- _].
Qed.

Lemma strip_last (cs s t : string) (c : ascii) :
  strip cs s = t +:+ String c EmptyString → char_in c cs = false.
Proof. apply rstrip_last. Qed.

(** X1. For every input, the cleaned name is not empty, holds none of the nine
    invalid characters and no two underscores in a row, and neither starts
    nor ends with a dot or a space. *)
Theorem clean_filename_clean (x : string) :
  clean_filename x ≠ EmptyString ∧
  (∀ c, c ∈ chars invalid_chars → char_in c (clean_filename x) = false) ∧
  str_in "__" (clean_filename x) = false ∧
  (∀ c t, clean_filename x = String c t → c ≠ "."%char ∧ c ≠ " "%char) ∧
  (∀ c t, clean_filename x = t +:+ String c EmptyString → c ≠ "."%char ∧ c ≠ " "%char).
Proof.
  rewrite clean_filename_unfold. cbv zeta.
  set (a := replace_invalid x).
  set (b := collapse_underscores (String.length a) a).
  set (r := strip ". " b).
  assert (∀ c : ascii, char_in c ". " = false → c ≠ "."%char ∧ c ≠ " "%char) as Hcs.
  { intros c Hc. split; intros ->; discriminate Hc. }
  case_decide as Hr.
  - split_and!.
    + done.
    + intros c Hc. vm_compute in Hc.
      repeat (apply elem_of_cons in Hc as [->|Hc]; [reflexivity|]).
      by apply elem_of_nil in Hc.
    + reflexivity.
    + intros c t [= <- _]. by split.
    + intros c t Heq. change "unnamed" with ("unname" +:+ String "d" EmptyString) in Heq.
      apply append_last_inj in Heq as [_ <-]. by split.
  - split_and!.
    + done.
    + intros c Hc.
      apply (not_char_in_true c b r); [apply strip_char_in|].
      apply (not_char_in_true c a b); [apply collapse_underscores_char_in|].
      by apply replace_invalid_clean.
    + destruct (str_in "__" r) eqn:Hin; [|done].
      apply strip_str_in in Hin. unfold b in Hin.
      by rewrite (collapse_underscores_done (String.length a) a) in Hin.
    + intros c t Heq. by apply Hcs, (strip_first ". " b t).
    + intros c t Heq. by apply Hcs, (strip_last ". " b t).
Qed.

Lemma lstrip_fixed (cs s : string) :
  (∀ c t, s = String c t → char_in c cs = false) → lstrip cs s = s.
Proof. destruct s as [|c t]; [done|]. intros Hs. simpl. by rewrite (Hs c t). Qed.

Lemma rstrip_fixed (cs s : string) :
  (∀ c t, s = t +:+ String c EmptyString → char_in c cs = false) → rstrip cs s = s.
Proof.
  induction s as [|a s IH]; [done|]. intros Hs.
  rewrite rstrip_cons. rewrite IH.
  - destruct s as [|b s]; [|done].
    by rewrite (Hs a EmptyString).
  - intros c t ->. apply (Hs c (String a t)). by rewrite append_cons.
Qed.

(** X2. A name that is already clean is returned as it is. *)
Theorem clean_filename_fixed (s : string) :
  s ≠ EmptyString →
  (∀ c, c ∈ chars invalid_chars → char_in c s = false) →
  str_in "__" s = false →
  (∀ c t, s = String c t → c ≠ "."%char ∧ c ≠ " "%char) →
  (∀ c t, s = t +:+ String c EmptyString → c ≠ "."%char ∧ c ≠ " "%char) →
  clean_filename s = s.
Proof.
  intros Hne Hinv Huu Hfirst Hlast.
  assert (∀ c : ascii, c ≠ "."%char ∧ c ≠ " "%char → char_in c ". " = false) as Hcs.
  { intros c [H1 H2]. simpl. by rewrite !decide_False. }
  rewrite clean_filename_unfold. cbv zeta.
  assert (replace_invalid s = s) as -> by (by apply fold_replace_fixed).
  rewrite collapse_underscores_fixed by done.
  unfold strip. rewrite lstrip_fixed by (intros c t Hs; by apply Hcs, (Hfirst c t)).
  rewrite rstrip_fixed by (intros c t Hs; by apply Hcs, (Hlast c t)).
  by case_decide.
Qed.

Lemma clean_filename_fixed_witness : clean_filename "Alice Smith" = "Alice Smith".
Proof.
  apply clean_filename_fixed.
  - discriminate.
  - intros c Hc. vm_compute in Hc.
    repeat (apply elem_of_cons in Hc as [->|Hc]; [reflexivity|]).
    by apply elem_of_nil in Hc.
  - reflexivity.
  - intros c t [= <- _]. split; discriminate.
  - intros c t Heq.
    change "Alice Smith" with ("Alice Smit" +:+ String "h" EmptyString) in Heq.
    apply append_last_inj in Heq as [_ <-]. split; discriminate.
Defined.

(** ** [rename_single_file] and [rename_batch]: what they change *)

Lemma os_rename_Ok `{FaceLib} (fs fs' : FS) (src dst : Path) :
  os_rename fs src dst = Ok fs' →
  ∃ f, files fs !! src = Some f ∧ parent dst ∈ dirs fs ∧ (dst ∉ dirs fs) ∧
       fs' = mkFS (<[dst := f]> (delete src (files fs))) (dirs fs) (read_only fs).
Proof.
  unfold os_rename. destruct (files fs !! src) as [f|]; [|done].
  destruct (too_long fs dst); [done|].
  destruct (bool_decide (parent dst ∈ dirs fs)) eqn:Hp; [|done]. cbn [negb].
  destruct (bool_decide (dst ∈ dirs fs)) eqn:Hd; [done|].
  destruct (bool_decide (parent src ∈ read_only fs) || bool_decide (parent dst ∈ read_only fs));
    [done|].
  intros [= <-]. exists f. split_and!; [done| | |done].
  - by apply bool_decide_eq_true in Hp.
  - by apply bool_decide_eq_false in Hd.
Qed.

(** X3. A run of [rename_single_file] either leaves the filesystem as it is, or
    it is a successful run without [dry_run] that moved the image, with its
    content, to the reported new path.  No other path is touched, and the new
    path did not exist before unless it is the timestamped last resort of the
    conflict resolver.  A run that fails or a dry run changes nothing. *)
Theorem rename_single_file_moves_one_file `{FaceLib} (svc : RenameService) (now : N)
  (fs : FS) (image_path : Path) (dry_run : bool) :
  let r := (rename_single_file svc now fs image_path dry_run).1 in
  let fs' := (rename_single_file svc now fs image_path dry_run).2 in
  (success r = false → fs' = fs) ∧
  (dry_run = true → fs' = fs) ∧
  (fs' = fs ∨
   ∃ target f,
     new_path r = Some (str_path target) ∧ target ≠ image_path ∧
     files fs !! image_path = Some f ∧
     files fs' !! image_path = None ∧
     files fs' !! target = Some f ∧
     (∀ q, q ≠ image_path → q ≠ target → files fs' !! q = files fs !! q) ∧
     dirs fs' = dirs fs ∧ read_only fs' = read_only fs ∧
     (path_exists fs target = Ok false ∨
      ∃ candidate, target = stamped_path candidate now)).
Proof.
  intros r fs'. subst r fs'. unfold rename_single_file.
  destruct (negb (bool_decide (lower (suffix image_path) ∈ Config.SUPPORTED_IMAGE_FORMATS)));
    [by split_and!; [..|left]|].
  destruct (process_image_for_rename (face_service svc) fs image_path) as [|n names];
    [by split_and!; [..|left]|].
  set (candidate := joinpath (parent image_path)
                      (generate_new_filename svc (n :: names) image_path)).
  destruct (if decide (candidate ≠ image_path)
            then resolve_filename_conflict svc now fs candidate
            else Ok candidate) as [target|e] eqn:Hresolved;
    [|by split_and!; [..|left]].
  destruct dry_run; cbn [negb andb]; [by split_and!; [..|left]|].
  destruct (bool_decide (target ≠ image_path)) eqn:Hne; [|by split_and!; [..|left]].
  apply bool_decide_eq_true in Hne.
  destruct (os_rename fs image_path target) as [fs'|e] eqn:Hren;
    [|by split_and!; [..|left]].
  cbn [fst snd success]. split_and!; [done|done|]. right.
  apply os_rename_Ok in Hren as (f & Hf & Hpar & Hnd & ->).
  exists target, f. cbn [files dirs read_only new_path]. split_and!; try done.
  - rewrite lookup_insert_ne by done. apply lookup_delete_eq.
  - apply lookup_insert_eq.
  - intros q Hq1 Hq2. rewrite lookup_insert_ne by done. by rewrite lookup_delete_ne.
  - destruct (decide (candidate ≠ image_path)) as [Hc|Hc];
      [|injection Hresolved as <-; by apply dec_stable in Hc].
    unfold resolve_filename_conflict in Hresolved.
    destruct (resolve_result svc now fs candidate)
      as [(p & Hr & _ & Hfree)|[(Hr & _)|(q & e & Hr & _)]];
      rewrite Hr in Hresolved; [|right|done].
    + injection Hresolved as <-. by left.
    + injection Hresolved as <-. by eexists.
Qed.

Lemma rename_single_file_original `{FaceLib} (svc : RenameService) (now : N)
  (fs : FS) (image_path : Path) (dry_run : bool) :
  original_path (rename_single_file svc now fs image_path dry_run).1 = str_path image_path.
Proof.
  unfold rename_single_file.
  repeat (match goal with
          | |- context [if ?b then _ else _] => destruct b
          | |- context [match ?x with _ => _ end] => destruct x
          end; try done).
Qed.

Lemma rename_single_file_dry `{FaceLib} (svc : RenameService) (now : N)
  (fs : FS) (image_path : Path) :
  (rename_single_file svc now fs image_path true).2 = fs.
Proof.
  unfold rename_single_file.
  destruct (negb (bool_decide (lower (suffix image_path) ∈ Config.SUPPORTED_IMAGE_FORMATS)));
    [done|].
  destruct (process_image_for_rename (face_service svc) fs image_path); [done|].
  by match goal with |- context [match ?x with Ok _ => _ | Raise _ => _ end] =>
       destruct x end.
Qed.

Lemma run_files_dry `{FaceLib} (svc : RenameService) (clock : Path → N) (fs : FS)
  (image_files : list Path) :
  run_files svc clock fs image_files true
  = (map (λ p, (rename_single_file svc (clock p) fs p true).1) image_files, fs).
Proof.
  induction image_files as [|p l IH]; [done|].
  cbn [run_files map]. rewrite rename_single_file_dry, IH. done.
Qed.

Lemma run_files_original `{FaceLib} (svc : RenameService) (clock : Path → N) (fs : FS)
  (image_files : list Path) (dry_run : bool) :
  map original_path (run_files svc clock fs image_files dry_run).1
  = map str_path image_files.
Proof.
  revert fs. induction image_files as [|p l IH]; intros fs; [done|].
  cbn [run_files map fst]. by rewrite rename_single_file_original, IH.
Qed.

(** X4. [rename_batch] reports exactly one result for each file of the list, under
    the path of that file.  A dry batch leaves the filesystem as it is, and
    its results are the ones that each file gets on its own, as a dry run in
    the initial filesystem. *)
Theorem rename_batch_results `{FaceLib} (svc : RenameService) (clock : Path → N)
  (fs : FS) (image_files : list Path) (dry_run : bool) :
  let b := rename_batch svc clock fs image_files dry_run in
  map original_path (results b.1) ≡ₚ map str_path image_files ∧
  (dry_run = true →
   b.2 = fs ∧
   results b.1
   ≡ₚ map (λ p, (rename_single_file svc (clock p) fs p true).1) image_files).
Proof.
  intros b. subst b. unfold rename_batch.
  destruct image_files as [|p l]; [by split|].
  cbn [length Nat.eqb]. rewrite count_result_fold. cbn [fst snd results].
  split; [by rewrite run_files_original|].
  intros ->. by rewrite run_files_dry.
Qed.

(** ** [get_rename_preview] *)

Section PreviewFacts.
Import Preview.

Lemma slice_to_lookup {A} (l : list A) (m : Z) (i : nat) (x : A) :
  (0 ≤ m)%Z → l !! i = Some x → (Z.of_nat i < m)%Z → slice_to l m !! i = Some x.
Proof.
  intros Hm Hx Hi. unfold slice_to.
  rewrite (proj2 (Z.leb_le 0 m)) by done.
  rewrite lookup_take_lt by lia. done.
Qed.

(** X5. The preview of a file agrees with its dry run when the file has a
    supported format: both report the same names, and without names the dry
    run fails and proposes no path.  With names, the dry run succeeds with
    the path of the file when the previewed name is the name of the file.
    For another previewed name it asks the conflict resolver about that name
    in the directory of the file: it succeeds with the path that the
    resolver returns, which is the previewed name itself when [exists]
    answers that it is free, and it fails without a new path, with the error
    of the resolver, when the resolver raises.  The preview itself never
    carries an error and keeps the name of a file without names. *)
Theorem get_rename_preview_matches_dry_run `{FaceLib} (svc : RenameService) (now : N)
  (fs : FS) (image_files : list Path) (max_preview : Z) (i : nat) (p : Path) :
  (0 ≤ max_preview)%Z → (Z.of_nat i < max_preview)%Z → image_files !! i = Some p →
  lower (suffix p) ∈ Config.SUPPORTED_IMAGE_FORMATS →
  ∃ e, get_rename_preview svc fs image_files max_preview !! i = Some e ∧
       let r := (rename_single_file svc now fs p true).1 in
       let candidate := joinpath (parent p) (new_name e) in
       original_name e = name p ∧
       error e = None ∧
       RenameSvc.identified_names r = identified_names e ∧
       (has_faces e = false →
        new_name e = name p ∧ success r = false ∧ new_path r = None) ∧
       (has_faces e = true →
        (candidate = p → success r = true ∧ new_path r = Some (str_path p)) ∧
        (candidate ≠ p →
         match resolve_filename_conflict svc now fs candidate with
         | Ok target =>
             success r = true ∧ RenameSvc.error r = None ∧
             new_path r = Some (str_path target)
         | Raise ex =>
             success r = false ∧ new_path r = None ∧
             RenameSvc.error r = Some ("リネーム処理エラー: " +:+ str_exn ex)
         end) ∧
        (path_exists fs candidate = Ok false →
         success r = true ∧ new_path r = Some (str_path candidate))).
Proof.
  intros Hm Hi Hp Hsup. unfold get_rename_preview.
  eexists. split.
  { rewrite list_lookup_fmap, (slice_to_lookup _ _ _ p) by done. reflexivity. }
  cbn [original_name error identified_names has_faces new_name].
  unfold rename_single_file. rewrite bool_decide_eq_true_2 by done. cbn [negb].
  destruct (process_image_for_rename (face_service svc) fs p) as [|n names] eqn:Hnames.
  - by split_and!.
  - set (candidate := joinpath (parent p) (generate_new_filename svc (n :: names) p)).
    cbn [negb andb]. destruct (decide (candidate ≠ p)) as [Hc|Hc].
    + destruct (resolve_filename_conflict svc now fs candidate) as [target|ex] eqn:Hres;
        cbn [fst RenameSvc.identified_names success new_path RenameSvc.error].
      * split_and!; [done..|]. intros _. split_and!; [done|done|].
        intros Hfree. unfold resolve_filename_conflict in Hres.
        rewrite resolve_missing in Hres by done. by injection Hres as <-.
      * split_and!; [done..|]. intros _. split_and!; [done|done|].
        intros Hfree. unfold resolve_filename_conflict in Hres.
        rewrite resolve_missing in Hres by done. done.
    + apply dec_stable in Hc.
      cbn [fst RenameSvc.identified_names success new_path RenameSvc.error].
      split_and!; [done..|]. intros _. split_and!; [by rewrite Hc|done|done].
Qed.

Lemma get_rename_preview_matches_dry_run_witness :
  ∃ e, get_rename_preview Scenario.service Scenario.batch_fs Scenario.batch_files 10 !! 3
       = Some e ∧ new_name e = "Alice.jpg".
Proof.
  destruct (get_rename_preview_matches_dry_run Scenario.service 1700000000
              Scenario.batch_fs Scenario.batch_files 10 3 (Scenario.photo "img_a.jpg"))
    as (e & He & _); [lia|lia|reflexivity|by vm_compute|].
  exists e. split; [exact He|]. vm_compute in He. by injection He as <-.
Defined.

(** X6. A preview has one entry for each of the first [max_preview] files, in
    their order, and none when [max_preview] is zero or the list is empty.  A
    negative [max_preview] does not give an empty preview: it leaves out that
    many files at the end of the list. *)
Theorem get_rename_preview_length `{FaceLib} (svc : RenameService) (fs : FS)
  (image_files : list Path) (max_preview : Z) :
  length (get_rename_preview svc fs image_files max_preview)
  = (if (0 <=? max_preview)%Z
     then Nat.min (Z.to_nat max_preview) (length image_files)
     else length image_files - Z.to_nat (- max_preview)) ∧
  ((0 ≤ max_preview)%Z →
   map original_name (get_rename_preview svc fs image_files max_preview)
   = map name (take (Z.to_nat max_preview) image_files)) ∧
  ((max_preview < 0)%Z →
   map original_name (get_rename_preview svc fs image_files max_preview)
   = map name (take (length image_files - Z.to_nat (- max_preview)) image_files)).
Proof.
  unfold get_rename_preview, slice_to. split_and!.
  - destruct (0 <=? max_preview)%Z; rewrite length_map, length_take; lia.
  - intros Hm. rewrite (proj2 (Z.leb_le 0 max_preview)) by done.
    by rewrite <-list_fmap_compose.
  - intros Hm. rewrite (proj2 (Z.leb_gt 0 max_preview)) by done.
    by rewrite <-list_fmap_compose.
Qed.

(** Of the five files of the batch, a limit of 3 shows the first three and a
    limit of -1 the first four. *)
Example get_rename_preview_limits :
  map original_name
      (get_rename_preview Scenario.service Scenario.batch_fs Scenario.batch_files 3)
  = ["empty1.jpg"; "empty2.jpg"; "broken.jpg"] ∧
  map original_name
      (get_rename_preview Scenario.service Scenario.batch_fs Scenario.batch_files (-1))
  = ["empty1.jpg"; "empty2.jpg"; "broken.jpg"; "img_a.jpg"].
Proof. vm_compute. by split. Qed.

(** For the photo of three people with long names the preview shows the
    derived name, and the dry run fails: the system refuses the name when
    the conflict resolver asks whether it exists. *)
Example get_rename_preview_long_name :
  let p := Scenario.photo "trio.jpg" in
  let r := (rename_single_file Scenario2.wide_service 1700000000 Scenario2.trio_fs
                               p true).1 in
  ∃ e, get_rename_preview Scenario2.wide_service Scenario2.trio_fs [p] 10 = [e] ∧
       has_faces e = true ∧ String.length (new_name e) = 306 ∧
       success r = false ∧ new_path r = None ∧
       RenameSvc.error r
       = Some ("リネーム処理エラー: [Errno 36] File name too long: 'photos/"
               +:+ new_name e +:+ "'").
Proof. eexists. split; [reflexivity|]. vm_compute. by split_and!. Qed.

End PreviewFacts.

(** ** [find_image_files] and [rename_directory] *)

Section ListingFacts.
Import Listing.



Lemma elem_of_glob_files `{FaceLib} (fs : FS) (directory : Path) (recursive : bool)
  (p : Path) :
  p ∈ glob_files fs directory recursive ↔
  is_Some (files fs !! p) ∧ anchored p = anchored directory ∧
  parts p ≠ parts directory ∧
  (if recursive then parts directory `prefix_of` parts p
   else removelast (parts p) = parts directory).
Proof.
  assert (p ∈ map fst (map_to_list (files fs)) ↔ is_Some (files fs !! p)) as Hkeys.
  { rewrite list_elem_of_fmap. split.
    - intros ([q f] & -> & Hin). apply elem_of_map_to_list in Hin. by exists f.
    - intros [f Hf]. exists (p, f). split; [done|]. by apply elem_of_map_to_list. }
  unfold glob_files. destruct recursive; rewrite list_elem_of_filter, Hkeys; tauto.
Qed.


Lemma find_image_files_directory `{FaceLib} (fs : FS) (directory : Path)
  (recursive : bool) :
  directory ∈ dirs fs →
  find_image_files fs directory recursive
  = Ok (merge_sort path_le
          (filter (λ file_path, lower (suffix file_path) ∈ Config.SUPPORTED_IMAGE_FORMATS)
                  (glob_files fs directory recursive))).
Proof.
  intros Hdir. unfold find_image_files.
  rewrite path_exists_present.
  - cbn. by rewrite bool_decide_eq_true_2.
  - unfold present. rewrite (bool_decide_eq_true_2 (directory ∈ dirs fs)) by done.
    apply orb_true_r.
Qed.

Lemma find_image_files_no_directory `{FaceLib} (fs : FS) (directory : Path)
  (recursive : bool) :
  directory ∉ dirs fs →
  find_image_files fs directory recursive
  = match path_exists fs directory with
    | Ok _ => Ok []
    | Raise e => Raise e
    end.
Proof.
  intros Hdir. unfold find_image_files.
  destruct (path_exists fs directory) as [found|e]; [|done]. cbn.
  rewrite (bool_decide_eq_false_2 (directory ∈ dirs fs)) by done.
  by rewrite orb_true_r.
Qed.


Lemma elem_of_find_image_files `{FaceLib} (fs : FS) (directory : Path)
  (recursive : bool) (found : list Path) (p : Path) :
  find_image_files fs directory recursive = Ok found →
  p ∈ found ↔
  directory ∈ dirs fs ∧ is_Some (files fs !! p) ∧
  anchored p = anchored directory ∧ parts p ≠ parts directory ∧
  (if recursive then parts directory `prefix_of` parts p
   else removelast (parts p) = parts directory) ∧
  lower (suffix p) ∈ Config.SUPPORTED_IMAGE_FORMATS.
Proof.
  destruct (decide (directory ∈ dirs fs)) as [Hdir|Hdir].
  - rewrite find_image_files_directory by done. intros [= <-].
    rewrite merge_sort_Permutation, list_elem_of_filter, elem_of_glob_files. tauto.
  - rewrite find_image_files_no_directory by done.
    destruct (path_exists fs directory); [|done]. intros [= <-].
    rewrite elem_of_nil. tauto.
Qed.


(** The order of [sorted] on the paths of one directory is the order of the
    file names. *)
Lemma path_le_same_directory (d : Path) (x y : string) :
  path_le (mkPath (anchored d) (parts d ++ [x])) (mkPath (anchored d) (parts d ++ [y]))
  ↔ String.le x y.
Proof.
  unfold path_le, path_key. cbn [anchored parts]. rewrite !app_assoc.
  generalize ((if anchored d then ["/"] else []) ++ parts d). intros k.
  induction k as [|a k IH]; simpl.
  - destruct (decide (x = y)) as [->|Hne]; [|done].
    split; [intros _; reflexivity|done].
  - by rewrite decide_True by done.
Qed.

Lemma rename_single_file_supported_error `{FaceLib} (svc : RenameService) (now : N)
  (fs : FS) (p : Path) (dry_run : bool) :
  lower (suffix p) ∈ Config.SUPPORTED_IMAGE_FORMATS →
  let r := (rename_single_file svc now fs p dry_run).1 in
  (success r = true ∧ RenameSvc.error r = None) ∨
  (success r = false ∧ RenameSvc.error r = Some NO_FACE_MESSAGE) ∨
  (success r = false ∧ ∃ e, RenameSvc.error r = Some ("リネーム処理エラー: " +:+ e)).
Proof.
  intros Hsup. unfold rename_single_file.
  rewrite bool_decide_eq_true_2 by done. cbn [negb].
  destruct (process_image_for_rename (face_service svc) fs p) as [|n names];
    [right; by left|].
  match goal with |- context [match ?x with Ok _ => _ | Raise _ => _ end] =>
    destruct x as [target|e] end;
    [|right; right; split; [done|]; by eexists].
  match goal with |- context [if ?b then _ else _] => destruct b end; [|by left].
  match goal with |- context [os_rename ?a ?b ?c] => destruct (os_rename a b c) end;
    [by left|].
  right. right. split; [done|]. by eexists.
Qed.

Lemma run_files_supported `{FaceLib} (svc : RenameService) (clock : Path → N) (fs : FS)
  (image_files : list Path) (dry_run : bool) :
  (∀ p, p ∈ image_files → lower (suffix p) ∈ Config.SUPPORTED_IMAGE_FORMATS) →
  ∀ r, r ∈ (run_files svc clock fs image_files dry_run).1 →
       (success r = true ∧ RenameSvc.error r = None) ∨
       (success r = false ∧ RenameSvc.error r = Some NO_FACE_MESSAGE) ∨
       (success r = false ∧ ∃ e, RenameSvc.error r = Some ("リネーム処理エラー: " +:+ e)).
Proof.
  revert fs. induction image_files as [|p l IH]; intros fs Hsup r Hr.
  - by apply elem_of_nil in Hr.
  - cbn [run_files fst] in Hr. apply elem_of_cons in Hr as [->|Hr].
    + apply rename_single_file_supported_error. apply Hsup. by left.
    + eapply IH; [|exact Hr]. intros q Hq. apply Hsup. by right.
Qed.

Lemma rename_batch_nonempty `{FaceLib} (svc : RenameService) (clock : Path → N) (fs : FS)
  (image_files : list Path) (dry_run : bool) :
  image_files ≠ [] →
  RenameSvc.total_files (rename_batch svc clock fs image_files dry_run).1
    = length image_files ∧
  results (rename_batch svc clock fs image_files dry_run).1
    = (run_files svc clock fs image_files dry_run).1 ∧
  (rename_batch svc clock fs image_files dry_run).2
    = (run_files svc clock fs image_files dry_run).2.
Proof.
  intros Hne. unfold rename_batch. destruct image_files as [|p l]; [done|].
  cbn [length Nat.eqb]. by rewrite count_result_fold.
Qed.

(** X8. [rename_directory] raises, and changes nothing, when [find_image_files]
    raises.  Otherwise it reports exactly one result for each file that
    [find_image_files] finds.  None of its results is the refusal of an
    unsupported format: a result is a success, or the no-face failure, or the
    failure of the conflict resolver or of the rename call.  A dry run leaves
    the filesystem as it is, and so does a run on something that is not a
    directory, whose summary is empty. *)
Theorem rename_directory_spec `{FaceLib} (svc : RenameService) (clock : Path → N)
  (fs : FS) (directory : Path) (recursive dry_run : bool) :
  let out := rename_directory svc clock fs directory recursive dry_run in
  match find_image_files fs directory recursive with
  | Raise e => out = (Raise e, fs)
  | Ok found =>
      ∃ summary,
        out.1 = Ok summary ∧
        map RenameSvc.original_path (results summary) ≡ₚ map str_path found ∧
        (∀ r, r ∈ results summary →
              (success r = true ∧ RenameSvc.error r = None) ∨
              (success r = false ∧ RenameSvc.error r = Some NO_FACE_MESSAGE) ∨
              (success r = false ∧
               ∃ e, RenameSvc.error r = Some ("リネーム処理エラー: " +:+ e))) ∧
        (dry_run = true → out.2 = fs) ∧
        (directory ∉ dirs fs → out = (Ok (mkSummary 0 0 0 0 []), fs))
  end.
Proof.
  intros out. subst out. unfold rename_directory.
  pose proof (λ found p, elem_of_find_image_files fs directory recursive found p) as Hin.
  pose proof (find_image_files_no_directory fs directory recursive) as Hnodir.
  destruct (find_image_files fs directory recursive) as [[|p l]|e] eqn:Hfound; [| |done].
  - eexists. split; [done|]. split_and!; try done.
    intros r Hr. by apply elem_of_nil in Hr.
  - eexists. split; [done|]. cbn [fst snd].
    destruct (rename_batch_nonempty svc clock fs (p :: l) dry_run) as (_ & -> & ->);
      [done|].
    split_and!.
    + by rewrite run_files_original.
    + apply run_files_supported. intros q Hq.
      by apply (Hin (p :: l) q eq_refl) in Hq as (_ & _ & _ & _ & _ & ?).
    + intros ->. by rewrite run_files_dry.
    + intros Hd. specialize (Hnodir Hd). by destruct (path_exists fs directory).
Qed.

(** In a directory with an upper-case image, a text file and a subdirectory,
    the plain search finds the two images of the directory and the recursive
    search the one of the subdirectory as well. *)
Example find_image_files_mixed :
  find_image_files Scenario2.mixed_fs Scenario.photos false
    = Ok [Scenario.photo "Alice.jpg"; Scenario.photo "img_a.JPG"] ∧
  find_image_files Scenario2.mixed_fs Scenario.photos true
    = Ok [Scenario.photo "Alice.jpg"; joinpath Scenario2.album "img_b.png";
          Scenario.photo "img_a.JPG"].
Proof. vm_compute. by split. Qed.

End ListingFacts.

(** ** The minimal rename service *)

Section MinimalBatchFacts.
Import RenameMinimal MinimalBatch.

(** X9. What [process_single_image] reports: one of five statuses; an error text
    exactly with the statuses error and dry_run_only; an exception of the
    face service becomes the status error instead of escaping; a success only
    in a dry run and only with a new name; the old name is kept when there
    are no names.  With [dry_run] off, the file that a dry run would rename
    is reported as dry_run_only when [get_unique_filename] returns for the
    new name, and as an error, with the new name and the names set, when that
    call raises; nothing else changes. *)
Theorem process_single_image_status `{FaceLib} (svc : RenameServiceMinimal)
  (face_service : option (Path → outcome (list string))) (now : N) (fs : FS)
  (p : Path) (dry_run : bool) :
  let d := process_single_image svc face_service now fs p dry_run in
  let dry := process_single_image svc face_service now fs p true in
  let unique := get_unique_filename now fs (joinpath (parent p) (new_name dry)) in
  original_name d = name p ∧
  (status d = "success" ∨ status d = "no_change" ∨ status d = "no_faces" ∨
   status d = "dry_run_only" ∨ status d = "error") ∧
  (error d = None ↔
   status d = "success" ∨ status d = "no_change" ∨ status d = "no_faces") ∧
  (status d = "success" → dry_run = true ∧ new_name d ≠ name p ∧ identified_names d ≠ []) ∧
  (status d = "dry_run_only" →
   dry_run = false ∧ new_name d ≠ name p ∧ ∃ unique_path, unique = Ok unique_path) ∧
  (status d = "no_faces" ∨ status d = "no_change" → new_name d = name p) ∧
  (status d = "error" →
   (new_name d = name p ∧ identified_names d = []) ∨
   (dry_run = false ∧ new_name d ≠ name p ∧ identified_names d ≠ [] ∧
    ∃ e, unique = Raise e ∧ error d = Some (str_exn e))) ∧
  (∀ process e, face_service = Some process → process p = Raise e →
                status d = "error" ∧ error d = Some (str_exn e)) ∧
  new_name d = new_name dry ∧ identified_names d = identified_names dry ∧
  status (process_single_image svc face_service now fs p false)
    = (if decide (status dry = "success")
       then match unique with
            | Ok _ => "dry_run_only"
            | Raise _ => "error"
            end
       else status dry).
Proof.
  unfold process_single_image.
  destruct face_service as [process|];
    [destruct (process p) as [[|n names]|e] eqn:Hproc;
     [|destruct (decide (generate_new_filename svc (n :: names) p ≠ name p)) as [Hne|Heq];
       [destruct dry_run|apply dec_stable in Heq]|]|];
    cbn [negb status new_name error identified_names original_name];
    try (destruct (get_unique_filename now fs
                     (joinpath (parent p) (generate_new_filename svc (n :: names) p)))
           as [unique_path|e] eqn:Hunique);
    cbn [negb status new_name error identified_names original_name];
    (split_and!;
     first
       [ done
       | solve [auto 8]
       | solve [split; intros; intuition (first [discriminate | auto 8])]
       | solve [intros; discriminate]
       | solve [intros; intuition (first [discriminate | congruence])]
       | solve [intros _; split_and!; [done|done|by eexists]]
       | solve [intros _; left; done]
       | solve [intros _; right; split_and!; [done|done|done|by eexists]]
       | solve [intros process' e' [= <-]; rewrite Hproc; first [done | by intros [= <-]]]
       | solve [repeat case_decide; done] ]).
Qed.

(** The status with [dry_run] off, from the status of the dry run. *)
Lemma process_single_image_applied `{FaceLib} (svc : RenameServiceMinimal)
  (face_service : option (Path → outcome (list string))) (now : N) (fs : FS) (p : Path) :
  let applied := process_single_image svc face_service now fs p false in
  let dry := process_single_image svc face_service now fs p true in
  (status dry = "success" → status applied = "dry_run_only" ∨ status applied = "error") ∧
  (status dry ≠ "success" → status applied = status dry).
Proof.
  unfold process_single_image.
  destruct face_service as [process|]; [|done].
  destruct (process p) as [[|n names]|e]; [done| |done].
  destruct (decide (generate_new_filename svc (n :: names) p ≠ name p)); cbn; [|done].
  destruct (get_unique_filename now fs _); cbn; split; auto; done.
Qed.

Lemma count_detail_fold `{FaceLib} (svc : RenameServiceMinimal)
  (face_service : option (Path → outcome (list string))) (clock : Path → N) (fs : FS)
  (image_paths : list Path) (dry_run : bool) (b : BatchResult) :
  let ds := map (λ p, process_single_image svc face_service (clock p) fs p dry_run)
                image_paths in
  let b' := fold_left (λ batch_result image_path,
                         count_detail batch_result
                           (process_single_image svc face_service (clock image_path) fs
                                                 image_path dry_run))
                      image_paths b in
  total_files b' = total_files b ∧
  details b' = details b ++ ds ∧
  successful b' = successful b + length (filter (λ d, status d = "success") ds) ∧
  no_faces b' = no_faces b + length (filter (λ d, status d = "no_faces") ds) ∧
  no_change b' = no_change b + length (filter (λ d, status d = "no_change") ds) ∧
  failed b' = failed b
              + length (filter (λ d, status d ≠ "success" ∧ status d ≠ "no_faces" ∧
                                     status d ≠ "no_change") ds).
Proof.
  revert b. induction image_paths as [|p l IH]; intros b.
  - cbn. rewrite app_nil_r. split_and!; lia || done.
  - cbn [map fold_left]. cbv zeta in IH.
    destruct (IH (count_detail b (process_single_image svc face_service (clock p) fs p
                                                       dry_run)))
      as (Ht & Hd & Hs & Hn & Hc & Hf).
    rewrite Ht, Hd, Hs, Hn, Hc, Hf. clear IH Ht Hd Hs Hn Hc Hf.
    set (d := process_single_image svc face_service (clock p) fs p dry_run).
    unfold count_detail.
    destruct (decide (status d = "success")) as [Hst|Hst].
    { cbn [total_files details successful no_faces no_change failed].
      rewrite (filter_cons_True (λ d, status d = "success")) by done.
      rewrite !filter_cons_False by (rewrite Hst; intuition discriminate).
      rewrite <-app_assoc. cbn [length]. split_and!; lia || done. }
    destruct (decide (status d = "no_faces")) as [Hst2|Hst2].
    { cbn [total_files details successful no_faces no_change failed].
      rewrite (filter_cons_True (λ d, status d = "no_faces")) by done.
      rewrite !filter_cons_False by (rewrite Hst2; intuition discriminate).
      rewrite <-app_assoc. cbn [length]. split_and!; lia || done. }
    destruct (decide (status d = "no_change")) as [Hst3|Hst3].
    { cbn [total_files details successful no_faces no_change failed].
      rewrite (filter_cons_True (λ d, status d = "no_change")) by done.
      rewrite !filter_cons_False by (rewrite Hst3; intuition discriminate).
      rewrite <-app_assoc. cbn [length]. split_and!; lia || done. }
    cbn [total_files details successful no_faces no_change failed].
    rewrite (filter_cons_True (λ d, status d ≠ "success" ∧ _)) by done.
    rewrite !filter_cons_False by done.
    rewrite <-app_assoc. cbn [length]. split_and!; lia || done.
Qed.

Lemma status_partition (ds : list Detail) :
  length (filter (λ d, status d = "success") ds)
  + length (filter (λ d, status d = "no_faces") ds)
  + length (filter (λ d, status d = "no_change") ds)
  + length (filter (λ d, status d ≠ "success" ∧ status d ≠ "no_faces" ∧
                         status d ≠ "no_change") ds)
  = length ds.
Proof.
  induction ds as [|d ds IH]; [done|].
  destruct (decide (status d = "success")) as [Hst|Hst].
  { rewrite (filter_cons_True (λ d, status d = "success")) by done.
    rewrite !filter_cons_False by (rewrite Hst; intuition discriminate).
    cbn [length]. lia. }
  destruct (decide (status d = "no_faces")) as [Hst2|Hst2].
  { rewrite (filter_cons_True (λ d, status d = "no_faces")) by done.
    rewrite !filter_cons_False by (rewrite Hst2; intuition discriminate).
    cbn [length]. lia. }
  destruct (decide (status d = "no_change")) as [Hst3|Hst3].
  { rewrite (filter_cons_True (λ d, status d = "no_change")) by done.
    rewrite !filter_cons_False by (rewrite Hst3; intuition discriminate).
    cbn [length]. lia. }
  rewrite (filter_cons_True (λ d, status d ≠ "success" ∧ _)) by done.
  rewrite !filter_cons_False by done. cbn [length]. lia.
Qed.

(** The counts of the details with [dry_run] off, from those of the dry
    run. *)
Lemma applied_counts `{FaceLib} (svc : RenameServiceMinimal)
  (face_service : option (Path → outcome (list string))) (clock : Path → N) (fs : FS)
  (image_paths : list Path) :
  let applied := map (λ p, process_single_image svc face_service (clock p) fs p false)
                     image_paths in
  let dry := map (λ p, process_single_image svc face_service (clock p) fs p true)
                 image_paths in
  length (filter (λ d, status d = "success") applied) = 0 ∧
  length (filter (λ d, status d = "no_faces") applied)
  = length (filter (λ d, status d = "no_faces") dry) ∧
  length (filter (λ d, status d = "no_change") applied)
  = length (filter (λ d, status d = "no_change") dry) ∧
  length (filter (λ d, status d ≠ "success" ∧ status d ≠ "no_faces" ∧
                       status d ≠ "no_change") applied)
  = length (filter (λ d, status d ≠ "success" ∧ status d ≠ "no_faces" ∧
                         status d ≠ "no_change") dry)
    + length (filter (λ d, status d = "success") dry).
Proof.
  induction image_paths as [|p l IH]; [done|].
  cbn [map]. cbv zeta in IH. destruct IH as (IH1 & IH2 & IH3 & IH4).
  destruct (process_single_image_applied svc face_service (clock p) fs p) as [Hs Hn].
  set (d1 := process_single_image svc face_service (clock p) fs p true) in *.
  set (d0 := process_single_image svc face_service (clock p) fs p false) in *.
  destruct (decide (status d1 = "success")) as [Hst|Hst].
  - assert (status d0 ≠ "success" ∧ status d0 ≠ "no_faces" ∧ status d0 ≠ "no_change")
      as Hd0 by (destruct (Hs Hst) as [-> | ->]; by split_and!).
    rewrite (filter_cons_True _ d0 _ Hd0).
    rewrite !(filter_cons_False _ d0) by tauto.
    rewrite (filter_cons_True (λ d, status d = "success") d1) by done.
    rewrite !(filter_cons_False _ d1) by (rewrite Hst; intuition discriminate).
    cbn [length]. split_and!; lia.
  - specialize (Hn Hst).
    rewrite (filter_cons_False (λ d, status d = "success") d0) by (by rewrite Hn).
    rewrite (filter_cons_False (λ d, status d = "success") d1) by done.
    destruct (decide (status d1 = "no_faces")) as [Hf|Hf].
    { rewrite (filter_cons_True (λ d, status d = "no_faces") d0) by (by rewrite Hn).
      rewrite (filter_cons_True (λ d, status d = "no_faces") d1) by done.
      rewrite !(filter_cons_False _ d0) by (rewrite Hn, Hf; intuition discriminate).
      rewrite !(filter_cons_False _ d1) by (rewrite Hf; intuition discriminate).
      cbn [length]. split_and!; lia. }
    rewrite (filter_cons_False (λ d, status d = "no_faces") d0) by (by rewrite Hn).
    rewrite (filter_cons_False (λ d, status d = "no_faces") d1) by done.
    destruct (decide (status d1 = "no_change")) as [Hc|Hc].
    { rewrite (filter_cons_True (λ d, status d = "no_change") d0) by (by rewrite Hn).
      rewrite (filter_cons_True (λ d, status d = "no_change") d1) by done.
      rewrite !(filter_cons_False _ d0) by (rewrite Hn, Hc; intuition discriminate).
      rewrite !(filter_cons_False _ d1) by (rewrite Hc; intuition discriminate).
      cbn [length]. split_and!; lia. }
    rewrite (filter_cons_False (λ d, status d = "no_change") d0) by (by rewrite Hn).
    rewrite (filter_cons_False (λ d, status d = "no_change") d1) by done.
    rewrite (filter_cons_True _ d0) by (by rewrite Hn).
    rewrite (filter_cons_True _ d1) by done.
    cbn [length]. split_and!; lia.
Qed.

(** X10. [process_batch_images] reports one detail per file, in order, and its
    four counters add up to the number of files.  With [dry_run] off nothing
    is ever counted as successful: every file that a dry run counts as
    successful is then counted as failed, and the other counters are those
    of the dry run. *)
Theorem process_batch_images_counts `{FaceLib} (svc : RenameServiceMinimal)
  (face_service : option (Path → outcome (list string))) (clock : Path → N) (fs : FS)
  (image_paths : list Path) (dry_run : bool) :
  let b := process_batch_images svc face_service clock fs image_paths dry_run in
  let dry := process_batch_images svc face_service clock fs image_paths true in
  let applied := process_batch_images svc face_service clock fs image_paths false in
  total_files b = length image_paths ∧
  details b = map (λ p, process_single_image svc face_service (clock p) fs p dry_run)
                  image_paths ∧
  successful b + no_faces b + no_change b + failed b = total_files b ∧
  successful applied = 0 ∧
  failed applied = failed dry + successful dry ∧
  no_faces applied = no_faces dry ∧
  no_change applied = no_change dry.
Proof.
  intros b dry applied.
  assert (∀ dr, let b := process_batch_images svc face_service clock fs image_paths dr in
            let ds := map (λ p, process_single_image svc face_service (clock p) fs p dr)
                          image_paths in
            total_files b = length image_paths ∧ details b = ds ∧
            successful b = length (filter (λ d, status d = "success") ds) ∧
            no_faces b = length (filter (λ d, status d = "no_faces") ds) ∧
            no_change b = length (filter (λ d, status d = "no_change") ds) ∧
            failed b = length (filter (λ d, status d ≠ "success" ∧ status d ≠ "no_faces" ∧
                                            status d ≠ "no_change") ds)) as Hall.
  { intros dr. unfold process_batch_images.
    destruct (count_detail_fold svc face_service clock fs image_paths dr
                (mkBatchResult (length image_paths) 0 0 0 0 []))
      as (Ht & Hd & Hs & Hn & Hc & Hf).
    rewrite Ht, Hd, Hs, Hn, Hc, Hf. by split_and!. }
  destruct (Hall dry_run) as (Ht & Hd & Hs & Hn & Hc & Hf).
  destruct (Hall true) as (_ & _ & Hs1 & Hn1 & Hc1 & Hf1).
  destruct (Hall false) as (_ & _ & Hs0 & Hn0 & Hc0 & Hf0).
  fold b in Ht, Hd, Hs, Hn, Hc, Hf. fold dry in Hs1, Hn1, Hc1, Hf1.
  fold applied in Hs0, Hn0, Hc0, Hf0.
  destruct (applied_counts svc face_service clock fs image_paths)
    as (Ha1 & Ha2 & Ha3 & Ha4).
  split_and!; [done|done| | | | |].
  - rewrite Hs, Hn, Hc, Hf, Ht, status_partition. by rewrite length_map.
  - by rewrite Hs0.
  - by rewrite Hf0, Hf1, Hs1.
  - by rewrite Hn0, Hn1.
  - by rewrite Hc0, Hc1.
Qed.

(** For the photo of three people with long names, the dry run reports a
    success and the run with [dry_run] off an error: [get_unique_filename]
    raises for the new name, which has been set by then. *)
Example process_single_image_long_name :
  let process :=
    Some (λ p, Ok (process_image_for_rename (face_service Scenario2.wide_service)
                                           Scenario2.trio_fs p)) in
  let p := Scenario.photo "trio.jpg" in
  let dry := process_single_image RenameMinimal.init process 1700000000
                                  Scenario2.trio_fs p true in
  let applied := process_single_image RenameMinimal.init process 1700000000
                                      Scenario2.trio_fs p false in
  status dry = "success" ∧ status applied = "error" ∧
  new_name applied = new_name dry ∧ String.length (new_name applied) = 306 ∧
  error applied
  = Some ("[Errno 36] File name too long: 'photos/" +:+ new_name applied +:+ "'").
Proof. vm_compute. by split_and!. Qed.

(** For the batch of two images without a face, one image on which detection
    raises and two matching images, the counters of the minimal service are
    disjoint: the three files without names are counted under no_faces
    only. *)
Example process_batch_images_batch :
  let process :=
    Some (λ p, Ok (process_image_for_rename Scenario.faces Scenario.batch_fs p)) in
  let b := process_batch_images RenameMinimal.init process Scenario.clock
                                Scenario.batch_fs Scenario.batch_files true in
  (successful b, no_faces b, no_change b, failed b) = (2, 3, 0, 0).
Proof. vm_compute. reflexivity. Qed.

End MinimalBatchFacts.

(** ** The database *)

Section DatabaseFacts.
Import Db DbInvariant.

Lemma foldr_max_le (l : list Z) (x : Z) : x ∈ l → (x ≤ foldr Z.max 0 l)%Z.
Proof.
  induction l as [|y l IH]; [by intros ?%elem_of_nil|].
  intros [->|Hx]%elem_of_cons; simpl; [lia|]. specialize (IH Hx). lia.
Qed.

Lemma next_rowid_fresh (seq : Z) (rowids : list Z) :
  (seq < next_rowid seq rowids)%Z ∧ (0 < next_rowid seq rowids)%Z ∧
  ∀ x, x ∈ rowids → (x < next_rowid seq rowids)%Z.
Proof.
  unfold next_rowid. split_and!; [lia| |].
  - assert (0 ≤ foldr Z.max 0 rowids)%Z; [|lia].
    induction rowids; simpl; lia.
  - intros x Hx%foldr_max_le. lia.
Qed.

Lemma get_person_by_name_None `{FaceLib} (db : FaceDatabase) (name : string) :
  get_person_by_name db name = None ↔ name ∉ map snd (persons db).
Proof.
  unfold get_person_by_name. rewrite head_None. split.
  - intros Hf [[id n] [Heq Hin]]%list_elem_of_fmap. cbn in Heq. subst name.
    assert ((id, n) ∈ filter (λ row : Z * string, row.2 = n) (persons db)) as Hc
      by (by apply list_elem_of_filter).
    rewrite Hf in Hc. by apply elem_of_nil in Hc.
  - intros Hn. induction (persons db) as [|[id n] l IH]; [done|].
    apply not_elem_of_cons in Hn as [Hne Hn].
    rewrite filter_cons_False by (cbn in *; congruence). by apply IH.
Qed.

Lemma get_person_by_name_Some `{FaceLib} (db : FaceDatabase) (name : string) (row : Z * string) :
  get_person_by_name db name = Some row → row ∈ persons db ∧ row.2 = name.
Proof.
  unfold get_person_by_name. intros Hh.
  assert (row ∈ filter (λ row : Z * string, row.2 = name) (persons db)) as Hin.
  { destruct (filter _ (persons db)) as [|r l]; [done|].
    injection Hh as ->. by left. }
  apply list_elem_of_filter in Hin. tauto.
Qed.

(** X11. [add_person] on a new name stores the person under a key above every
    key given out before, and [get_person_by_name] finds it; the other names
    are looked up as before.  On a name that is taken it raises a
    [ValueError] and leaves the database as it is. *)
Theorem add_person_round_trip `{FaceLib} (db : FaceDatabase) (name : string) :
  (name ∉ map snd (persons db) →
   ∃ id, (add_person db name).1 = Ok id ∧
         (persons_seq db < id)%Z ∧ (∀ row, row ∈ persons db → (row.1 < id)%Z) ∧
         persons (add_person db name).2 = persons db ++ [(id, name)] ∧
         persons_seq (add_person db name).2 = id ∧
         face_encodings (add_person db name).2 = face_encodings db ∧
         get_person_by_name (add_person db name).2 name = Some (id, name) ∧
         ∀ other, other ≠ name →
                  get_person_by_name (add_person db name).2 other
                  = get_person_by_name db other) ∧
  (name ∈ map snd (persons db) →
   ∃ msg, add_person db name = (Raise (ValueError msg), db)).
Proof.
  unfold add_person. split; intros Hn.
  - rewrite bool_decide_eq_false_2 by done. cbn [fst snd persons persons_seq face_encodings].
    destruct (next_rowid_fresh (persons_seq db) (map fst (persons db))) as (H1 & _ & H3).
    eexists. split_and!; try done.
    + intros row Hrow. apply H3. by apply list_elem_of_fmap_2.
    + unfold get_person_by_name. cbn [persons]. rewrite filter_app.
      assert (filter (λ row : Z * string, row.2 = name) (persons db) = []) as ->.
      { apply head_None, (get_person_by_name_None db name), Hn. }
      by rewrite filter_cons_True.
    + intros other Hother. unfold get_person_by_name. cbn [persons].
      rewrite filter_app, filter_cons_False, filter_nil, app_nil_r; [done|].
      cbn. congruence.
  - rewrite bool_decide_eq_true_2 by done. by eexists.
Qed.

(** X12. [add_face_encoding] stores the encoding as the last one of the person
    when the person exists, and is refused by the foreign key otherwise,
    leaving the database as it is. *)
Theorem add_face_encoding_round_trip `{FaceLib} (db : FaceDatabase) (person_id : Z) (encoding : Enc) :
  (person_id ∈ map fst (persons db) →
   ∃ id, (add_face_encoding db person_id encoding).1 = Inserted id ∧
         (face_encodings_seq db < id)%Z ∧
         get_face_encodings_by_person (add_face_encoding db person_id encoding).2 person_id
         = get_face_encodings_by_person db person_id ++ [encoding] ∧
         (∀ other, other ≠ person_id →
            get_face_encodings_by_person (add_face_encoding db person_id encoding).2 other
            = get_face_encodings_by_person db other) ∧
         persons (add_face_encoding db person_id encoding).2 = persons db) ∧
  (person_id ∉ map fst (persons db) →
   ∃ msg, add_face_encoding db person_id encoding = (IntegrityError msg, db)).
Proof.
  unfold add_face_encoding. split; intros Hp.
  - rewrite bool_decide_eq_true_2 by done. cbn [fst snd].
    destruct (next_rowid_fresh (face_encodings_seq db)
                (map (λ row, row.1.1) (face_encodings db))) as (H1 & _ & _).
    eexists. split_and!; try done.
    + unfold get_face_encodings_by_person. cbn [face_encodings].
      by rewrite filter_app, filter_cons_True, filter_nil, map_app.
    + intros other Hother. unfold get_face_encodings_by_person. cbn [face_encodings].
      rewrite filter_app, filter_cons_False, filter_nil, app_nil_r; [done|].
      cbn. congruence.
  - rewrite bool_decide_eq_false_2 by done. by eexists.
Qed.

(** X13. [delete_person] tells whether the person was there.  Afterwards the
    person and all its encodings are gone, and the other persons and their
    encodings are as before. *)
Theorem delete_person_cascades `{FaceLib} (db : FaceDatabase) (person_id : Z) :
  let deleted := (delete_person db person_id).1 in
  let db' := (delete_person db person_id).2 in
  (deleted = true ↔ person_id ∈ map fst (persons db)) ∧
  (person_id ∉ map fst (persons db')) ∧
  get_face_encodings_by_person db' person_id = [] ∧
  (∀ row, row ∈ get_all_face_encodings db' → row.1.1 ≠ person_id) ∧
  (∀ row, row.1 ≠ person_id → (row ∈ persons db' ↔ row ∈ persons db)) ∧
  (∀ other, other ≠ person_id →
            get_face_encodings_by_person db' other
            = get_face_encodings_by_person db other) ∧
  persons_seq db' = persons_seq db.
Proof.
  intros deleted db'. subst deleted db'. unfold delete_person. cbn [fst snd].
  split_and!.
  - apply bool_decide_eq_true.
  - cbn [persons]. intros [[id n] [-> Hin]]%list_elem_of_fmap.
    apply list_elem_of_filter in Hin as [Hne _]. done.
  - unfold get_face_encodings_by_person. cbn [face_encodings].
    rewrite list_filter_filter.
    assert (filter (λ row : Z * Z * Enc, row.1.2 = person_id ∧ row.1.2 ≠ person_id)
                   (face_encodings db) = []) as ->; [|done].
    induction (face_encodings db) as [|r l IH]; [done|].
    rewrite filter_cons_False by tauto. done.
  - intros row Hrow. unfold get_all_face_encodings in Hrow.
    apply list_elem_of_In, in_flat_map in Hrow as (person & Hperson & Hrow).
    apply list_elem_of_In in Hperson, Hrow.
    rewrite merge_sort_Permutation in Hperson. cbn [persons] in Hperson.
    apply list_elem_of_filter in Hperson as [Hne _].
    apply list_elem_of_fmap in Hrow as (enc & -> & _). done.
  - intros row Hne. cbn [persons]. rewrite list_elem_of_filter. tauto.
  - intros other Hother. unfold get_face_encodings_by_person. cbn [face_encodings].
    rewrite list_filter_filter. f_equal. apply list_filter_iff.
    intros row. split; [tauto|]. intros Hr. split; [done|]. congruence.
  - done.
Qed.

Lemma elem_of_get_all_face_encodings `{FaceLib} (db : FaceDatabase) (pid : Z) (name : string)
  (enc : Enc) :
  (pid, name, enc) ∈ get_all_face_encodings db ↔
  (pid, name) ∈ persons db ∧ ∃ id, (id, pid, enc) ∈ face_encodings db.
Proof.
  unfold get_all_face_encodings, get_face_encodings_by_person.
  rewrite list_elem_of_In, in_flat_map. split.
  - intros ([pid' name'] & Hperson & Hrow). apply list_elem_of_In in Hperson, Hrow.
    rewrite merge_sort_Permutation in Hperson.
    apply list_elem_of_fmap in Hrow as (enc' & [= -> -> ->] & Henc).
    apply list_elem_of_fmap in Henc as ([[id pid''] e] & -> & Hin).
    apply list_elem_of_filter in Hin as [Hpid Hin]. cbn in Hpid. subst pid''.
    split; [done|]. by exists id.
  - intros [Hperson [id Hin]]. exists (pid, name). split.
    + apply list_elem_of_In. by rewrite merge_sort_Permutation.
    + apply list_elem_of_In. apply list_elem_of_fmap. exists enc. split; [done|].
      apply list_elem_of_fmap. exists (id, pid, enc). split; [done|].
      by apply list_elem_of_filter.
Qed.

Lemma flat_map_length_Permutation {A B} (f : A → list B) (l1 l2 : list A) :
  l1 ≡ₚ l2 → length (flat_map f l1) = length (flat_map f l2).
Proof.
  induction 1; simpl; rewrite ?length_app; try lia.
Qed.

Lemma filter_disjoint_length {A} (P Q : A → Prop) `{∀ x, Decision (P x)}
  `{∀ x, Decision (Q x)} (l : list A) :
  (∀ x, P x → Q x → False) →
  length (filter (λ x, P x ∨ Q x) l) = length (filter P l) + length (filter Q l).
Proof.
  intros Hd. induction l as [|x l IH]; [done|].
  destruct (decide (P x)) as [HP|HP]; destruct (decide (Q x)) as [HQ|HQ].
  - by destruct (Hd x).
  - rewrite (filter_cons_True (λ x, P x ∨ Q x)), (filter_cons_True P),
      (filter_cons_False Q) by tauto. simpl. lia.
  - rewrite (filter_cons_True (λ x, P x ∨ Q x)), (filter_cons_False P),
      (filter_cons_True Q) by tauto. simpl. lia.
  - rewrite (filter_cons_False (λ x, P x ∨ Q x)), (filter_cons_False P),
      (filter_cons_False Q) by tauto. done.
Qed.

Lemma joined_length `{FaceLib} (people : list (Z * string)) (encodings : list (Z * Z * Enc)) :
  NoDup (map fst people) →
  length (flat_map (λ person : Z * string,
                      map (λ encoding, (person.1, person.2, encoding))
                          (map snd (filter (λ row : Z * Z * Enc, row.1.2 = person.1)
                                           encodings)))
                   people)
  = length (filter (λ row : Z * Z * Enc, row.1.2 ∈ map fst people) encodings).
Proof.
  induction people as [|[pid name] l IH]; intros Hnd.
  - simpl. induction encodings as [|r e IHe]; [done|].
    rewrite filter_cons_False; [done|]. apply not_elem_of_nil.
  - apply NoDup_cons in Hnd as [Hpid Hnd]. cbn [flat_map map fst snd].
    rewrite length_app, !length_map, (IH Hnd).
    rewrite <-(filter_disjoint_length (λ row : Z * Z * Enc, row.1.2 = pid)).
    + f_equal. apply list_filter_iff. intros row. rewrite elem_of_cons. tauto.
    + intros row -> Hin. done.
Qed.

Lemma StronglySorted_joined `{FaceLib} (people : list (Z * string))
  (encodings : Z → list Enc) :
  StronglySorted name_le people →
  StronglySorted (λ r1 r2 : Z * string * Enc, String.le r1.1.2 r2.1.2)
    (flat_map (λ person : Z * string,
                 map (λ encoding, (person.1, person.2, encoding)) (encodings person.1))
              people).
Proof.
  induction 1 as [|person l Hl IH Hall]; [constructor|].
  cbn [flat_map]. induction (encodings person.1) as [|e es IHe]; [done|].
  cbn [map app]. constructor; [done|].
  apply Forall_app. split.
  - apply Forall_forall. intros r (e' & -> & _)%list_elem_of_fmap. cbn. reflexivity.
  - apply Forall_forall. intros r Hr.
    apply list_elem_of_In, in_flat_map in Hr as (person' & Hp & Hr).
    apply list_elem_of_In in Hp, Hr. apply list_elem_of_fmap in Hr as (e' & -> & _).
    cbn. rewrite Forall_forall in Hall. by apply Hall.
Qed.

Lemma name_le_trans : Transitive name_le.
Proof. intros r1 r2 r3. unfold name_le. apply transitivity. Qed.

Lemma name_le_total : Total name_le.
Proof. intros r1 r2. unfold name_le. apply total, _. Qed.

(** X14. In a consistent database [get_all_face_encodings] returns every stored
    encoding exactly once, with the key and the name of its person, in
    ascending order of the names. *)
Theorem get_all_face_encodings_spec `{FaceLib} (db : FaceDatabase) :
  consistent db →
  (∀ pid name enc,
     (pid, name, enc) ∈ get_all_face_encodings db ↔
     (pid, name) ∈ persons db ∧ ∃ id, (id, pid, enc) ∈ face_encodings db) ∧
  length (get_all_face_encodings db) = length (face_encodings db) ∧
  StronglySorted (λ r1 r2 : Z * string * Enc, String.le r1.1.2 r2.1.2)
                 (get_all_face_encodings db).
Proof.
  intros (Hids & _ & _ & _ & Hfk). split_and!.
  - apply elem_of_get_all_face_encodings.
  - unfold get_all_face_encodings, get_face_encodings_by_person.
    rewrite (flat_map_length_Permutation _ _ (persons db))
      by apply merge_sort_Permutation.
    rewrite joined_length by done. f_equal.
    induction (face_encodings db) as [|r l IH]; [done|].
    rewrite filter_cons_True by (apply Hfk; by left).
    f_equal. apply IH. intros row Hrow. apply Hfk. by right.
  - unfold get_all_face_encodings.
    apply (StronglySorted_joined _ (get_face_encodings_by_person db)).
    apply (@StronglySorted_merge_sort _ name_le _ name_le_trans name_le_total).
Qed.

Lemma consistent_empty `{FaceLib} : consistent empty.
Proof.
  unfold consistent, empty. cbn. split_and!; [constructor|constructor| |constructor|].
  - intros x Hx. by apply elem_of_nil in Hx.
  - intros row Hrow. by apply elem_of_nil in Hrow.
Qed.

Lemma consistent_add_person `{FaceLib} (db : FaceDatabase) (name : string) :
  consistent db → consistent (add_person db name).2.
Proof.
  intros (Hids & Hnames & Hseq & Henc & Hfk).
  unfold add_person. case_bool_decide as Hn; [by split_and!|].
  destruct (next_rowid_fresh (persons_seq db) (map fst (persons db))) as (H1 & H2 & H3).
  unfold consistent. cbn [snd persons persons_seq face_encodings face_encodings_seq].
  rewrite !map_app. cbn [map fst snd]. split_and!.
  - apply NoDup_app. split_and!; [done| |apply NoDup_singleton].
    intros x Hx ->%list_elem_of_singleton. specialize (H3 _ Hx). lia.
  - apply NoDup_app. split_and!; [done| |apply NoDup_singleton].
    by intros x Hx ->%list_elem_of_singleton.
  - intros id [Hid| ->%list_elem_of_singleton]%elem_of_app; [|lia].
    specialize (H3 _ Hid). specialize (Hseq _ Hid). lia.
  - done.
  - intros row Hrow. destruct (Hfk row Hrow). split; [done|].
    apply elem_of_app. by left.
Qed.

Lemma consistent_add_face_encoding `{FaceLib} (db : FaceDatabase) (person_id : Z) (encoding : Enc) :
  consistent db → consistent (add_face_encoding db person_id encoding).2.
Proof.
  intros (Hids & Hnames & Hseq & Henc & Hfk).
  unfold add_face_encoding. case_bool_decide as Hp; [|by split_and!].
  destruct (next_rowid_fresh (face_encodings_seq db)
              (map (λ row, row.1.1) (face_encodings db))) as (H1 & H2 & H3).
  unfold consistent. cbn [snd persons persons_seq face_encodings face_encodings_seq].
  rewrite !map_app. cbn [map fst snd]. split_and!; try done.
  - apply NoDup_app. split_and!; [done| |apply NoDup_singleton].
    intros x Hx ->%list_elem_of_singleton. specialize (H3 _ Hx). lia.
  - intros row [Hrow| ->%list_elem_of_singleton]%elem_of_app.
    + destruct (Hfk row Hrow) as [Hr ?]. split; [lia|done].
    + cbn. split; [lia|done].
Qed.

Lemma consistent_delete_person `{FaceLib} (db : FaceDatabase) (person_id : Z) :
  consistent db → consistent (delete_person db person_id).2.
Proof.
  intros (Hids & Hnames & Hseq & Henc & Hfk).
  unfold delete_person, consistent.
  cbn [snd persons persons_seq face_encodings face_encodings_seq]. split_and!.
  - apply (sublist_NoDup _ _ Hids), fmap_sublist, sublist_filter.
  - apply (sublist_NoDup _ _ Hnames), fmap_sublist, sublist_filter.
  - intros id [[id' n] [-> Hin]]%list_elem_of_fmap.
    apply list_elem_of_filter in Hin as [_ Hin]. apply Hseq.
    by apply (list_elem_of_fmap_2 fst) in Hin.
  - apply (sublist_NoDup _ _ Henc), fmap_sublist, sublist_filter.
  - intros row [Hne Hrow]%list_elem_of_filter. destruct (Hfk row Hrow) as [Hr Hp].
    split; [done|]. apply list_elem_of_fmap in Hp as ([id n] & Heq & Hin).
    cbn in Heq. apply list_elem_of_fmap. exists (id, n). split; [done|].
    apply list_elem_of_filter. split; [|done]. cbn. congruence.
Qed.

(** X15. The empty database is consistent, and [add_person], [add_face_encoding]
    and [delete_person] keep a database consistent, whether they succeed or
    not. *)
Theorem consistent_preserved `{FaceLib} (db : FaceDatabase) (name : string) (person_id : Z)
  (encoding : Enc) :
  consistent db →
  consistent empty ∧
  consistent (add_person db name).2 ∧
  consistent (add_face_encoding db person_id encoding).2 ∧
  consistent (delete_person db person_id).2.
Proof.
  intros Hdb. split_and!.
  - apply consistent_empty.
  - by apply consistent_add_person.
  - by apply consistent_add_face_encoding.
  - by apply consistent_delete_person.
Qed.

(** X16. A key is not given out twice: the key that [add_person] gives to a new
    person after [delete_person] is not the key of any person that the
    database had before the deletion, the deleted one included. *)
Theorem add_person_after_delete_fresh `{FaceLib} (db : FaceDatabase) (person_id : Z)
  (name : string) (id : Z) :
  consistent db →
  (add_person (delete_person db person_id).2 name).1 = Ok id →
  id ∉ map fst (persons db).
Proof.
  intros (_ & _ & Hseq & _) Hadd Hin. specialize (Hseq _ Hin).
  unfold add_person in Hadd.
  case_bool_decide; [done|]. cbn [fst] in Hadd. injection Hadd as Hid.
  destruct (next_rowid_fresh (persons_seq (delete_person db person_id).2)
              (map fst (persons (delete_person db person_id).2))) as (H1 & _ & _).
  cbn [delete_person snd persons_seq persons] in H1. rewrite Hid in H1. lia.
Qed.

End DatabaseFacts.

Section DatabaseExamples.
Import Db DbInvariant.

Lemma two_people_consistent : consistent Scenario2.two_people.
Proof.
  unfold consistent. cbn. split_and!.
  - apply (bool_decide_unpack _). vm_compute. exact I.
  - apply (bool_decide_unpack _). vm_compute. exact I.
  - intros id Hid. repeat (apply elem_of_cons in Hid as [->|Hid]; [lia|]).
    by apply elem_of_nil in Hid.
  - apply (bool_decide_unpack _). vm_compute. exact I.
  - intros row Hrow.
    repeat (apply elem_of_cons in Hrow as [->|Hrow];
            [cbn; split; [lia|apply (bool_decide_unpack _); vm_compute; exact I]|]).
    by apply elem_of_nil in Hrow.
Qed.

Lemma get_all_face_encodings_spec_witness :
  length (get_all_face_encodings Scenario2.two_people) = 2 ∧
  get_all_face_encodings Scenario2.two_people = [(2%Z, "Alice", 0%Q); (1%Z, "Bob", 1%Q)].
Proof.
  destruct (get_all_face_encodings_spec (H:=Scenario.lib) Scenario2.two_people
              two_people_consistent)
    as (_ & Hlen & _).
  split; [exact Hlen|reflexivity].
Defined.

Lemma consistent_preserved_witness :
  consistent (add_person Scenario2.two_people "Carol").2 ∧
  consistent (delete_person Scenario2.two_people 1).2.
Proof.
  destruct (consistent_preserved (H:=Scenario.lib) Scenario2.two_people "Carol" 1%Z 0%Q
              two_people_consistent) as (_ & Ha & _ & Hd).
  split; [exact Ha|exact Hd].
Defined.

Lemma add_person_after_delete_fresh_witness :
  (add_person (delete_person Scenario2.two_people 2).2 "Carol").1 = Ok 3%Z ∧
  3%Z ∉ map fst (persons Scenario2.two_people).
Proof.
  split; [reflexivity|].
  apply (add_person_after_delete_fresh (H:=Scenario.lib) Scenario2.two_people 2 "Carol" 3
           two_people_consistent).
  reflexivity.
Defined.

End DatabaseExamples.

(** ** Registration of a face *)

Section RegistrationFacts.
Import Db DbInvariant Registration.

(** What [register_face_from_image] does with an image of one face: the
    person is looked up or added, the encoding is appended, the cache is
    reloaded. *)
Lemma register_face_from_image_one `{FaceLib} (st : State) (fs : FS) (image_path : Path)
  (person_name : string) (encoding : Enc) (loc : Loc) :
  detect_faces_in_image fs image_path = Ok [(encoding, loc)] →
  ∃ pid eid people seq,
    register_face_from_image st fs image_path person_name
    = (Ok true,
       refresh_known_faces
         (mkState (mkDb people seq (face_encodings (db st) ++ [(eid, pid, encoding)]) eid)
                  (cache st))) ∧
    head (filter (λ row : Z * string, row.2 = person_name) people)
    = Some (pid, person_name) ∧
    ((person_name ∈ map snd (persons (db st)) ∧
      people = persons (db st) ∧ seq = persons_seq (db st)) ∨
     ((person_name ∉ map snd (persons (db st))) ∧
      people = persons (db st) ++ [(pid, person_name)] ∧ seq = pid ∧
      (∀ x, x ∈ map fst (persons (db st)) → (x < pid)%Z))) ∧
    (mkDb people seq (face_encodings (db st) ++ [(eid, pid, encoding)]) eid
     = (add_face_encoding (mkDb people seq (face_encodings (db st))
                                (face_encodings_seq (db st))) pid encoding).2) ∧
    (person_name ∉ map snd (persons (db st)) →
     mkDb people seq (face_encodings (db st)) (face_encodings_seq (db st))
     = (add_person (db st) person_name).2).
Proof.
  intros Hdetect. unfold register_face_from_image. rewrite Hdetect.
  destruct (get_person_by_name (db st) person_name) as [[pid n]|] eqn:Hget.
  - destruct (get_person_by_name_Some _ _ _ Hget) as [Hin Hn]. cbn in Hn. subst n.
    assert (pid ∈ map fst (persons (db st))) as Hpid
      by (by apply (list_elem_of_fmap_2 fst) in Hin).
    assert (person_name ∈ map snd (persons (db st))) as Hname
      by (by apply (list_elem_of_fmap_2 snd) in Hin).
    cbn [fst]. unfold add_face_encoding. rewrite bool_decide_eq_true_2 by done.
    eexists pid, _, (persons (db st)), (persons_seq (db st)).
    split_and!; [done|exact Hget|by left| |done].
    cbn [persons persons_seq face_encodings face_encodings_seq].
    by rewrite (bool_decide_eq_true_2 _ Hpid).
  - apply get_person_by_name_None in Hget.
    destruct (next_rowid_fresh (persons_seq (db st)) (map fst (persons (db st))))
      as (H1 & _ & H3).
    unfold add_person. rewrite bool_decide_eq_false_2 by done.
    unfold add_face_encoding.
    cbn [persons persons_seq face_encodings face_encodings_seq].
    assert (next_rowid (persons_seq (db st)) (map fst (persons (db st)))
            ∈ map fst (persons (db st)
                       ++ [(next_rowid (persons_seq (db st)) (map fst (persons (db st))),
                            person_name)])) as Hpid.
    { rewrite map_app. apply elem_of_app. right. by left. }
    rewrite bool_decide_eq_true_2 by done.
    eexists _, _, _, _. split_and!.
    + done.
    + rewrite filter_app.
      assert (filter (λ row : Z * string, row.2 = person_name) (persons (db st)) = [])
        as ->.
      { by apply head_None, (get_person_by_name_None (db st) person_name). }
      by rewrite filter_cons_True.
    + right. by split_and!.
    + unfold add_face_encoding.
      cbn [persons persons_seq face_encodings face_encodings_seq].
      by rewrite (bool_decide_eq_true_2 _ Hpid).
    + done.
Qed.

Lemma NoDup_fst_functional {A B} (l : list (A * B)) (x : A) (y1 y2 : B) :
  NoDup (map fst l) → (x, y1) ∈ l → (x, y2) ∈ l → y1 = y2.
Proof.
  induction l as [|[a b] l IH]; [by intros _ ?%elem_of_nil|].
  cbn [map fst]. intros [Hnotin Hnd]%NoDup_cons.
  intros [E1|H1]%elem_of_cons [E2|H2]%elem_of_cons.
  - congruence.
  - destruct Hnotin. injection E1 as <- <-. by apply (list_elem_of_fmap_2 fst) in H2.
  - destruct Hnotin. injection E2 as <- <-. by apply (list_elem_of_fmap_2 fst) in H1.
  - by apply IH.
Qed.

Lemma refresh_known_faces_init `{FaceLib} (st : State) :
  tolerance (cache st) = Config.tolerance → refresh_known_faces st = init (db st).
Proof. unfold refresh_known_faces, init, FaceSvc.init. by intros ->. Qed.

Lemma refresh_known_faces_encodings `{FaceLib} (st : State) :
  known_encodings (cache (refresh_known_faces st))
  = map snd (get_all_face_encodings (db st)).
Proof. apply (init_known_encodings (get_all_face_encodings (db st))). Qed.

Lemma refresh_known_faces_names `{FaceLib} (st : State) :
  known_names (cache (refresh_known_faces st))
  = map (λ row, row.1.2) (get_all_face_encodings (db st)).
Proof. apply (init_known_names (get_all_face_encodings (db st))). Qed.

(** X17. From an image with exactly one face [register_face_from_image] returns
    [True].  Afterwards the person exists under the given name, with the new
    encoding as its last one; a person that existed keeps its key and no
    person is added for it; the encodings of the other persons are as before;
    the cache holds what [get_all_face_encodings] returns; and a consistent
    database is still consistent. *)
Theorem register_face_from_image_registers `{FaceLib} (st : State) (fs : FS) (image_path : Path)
  (person_name : string) (encoding : Enc) (loc : Loc) :
  detect_faces_in_image fs image_path = Ok [(encoding, loc)] →
  let result := register_face_from_image st fs image_path person_name in
  ∃ pid,
    result.1 = Ok true ∧
    get_person_by_name (db result.2) person_name = Some (pid, person_name) ∧
    get_face_encodings_by_person (db result.2) pid
    = get_face_encodings_by_person (db st) pid ++ [encoding] ∧
    (∀ other, other ≠ pid →
              get_face_encodings_by_person (db result.2) other
              = get_face_encodings_by_person (db st) other) ∧
    (pid, person_name, encoding) ∈ get_all_face_encodings (db result.2) ∧
    (person_name ∈ map snd (persons (db st)) →
     persons (db result.2) = persons (db st) ∧
     get_person_by_name (db st) person_name = Some (pid, person_name)) ∧
    (person_name ∉ map snd (persons (db st)) →
     persons (db result.2) = persons (db st) ++ [(pid, person_name)] ∧
     pid ∉ map fst (persons (db st))) ∧
    known_encodings (cache result.2) = map snd (get_all_face_encodings (db result.2)) ∧
    known_names (cache result.2)
    = map (λ row, row.1.2) (get_all_face_encodings (db result.2)) ∧
    tolerance (cache result.2) = tolerance (cache st) ∧
    (consistent (db st) → consistent (db result.2)).
Proof.
  intros Hdetect result. subst result.
  destruct (register_face_from_image_one st fs image_path person_name encoding loc Hdetect)
    as (pid & eid & people & seq & -> & Hhead & Hcase & Hadd & Hnew).
  exists pid. cbn [fst snd].
  rewrite refresh_known_faces_encodings, refresh_known_faces_names.
  cbn [refresh_known_faces db cache tolerance].
  assert ((pid, person_name) ∈ people) as Hin.
  { assert ((pid, person_name) ∈ filter (λ row : Z * string, row.2 = person_name) people)
      as Hf by (destruct (filter _ people); [done|injection Hhead as ->; by left]).
    by apply list_elem_of_filter in Hf as [_ ?]. }
  split_and!; try done.
  - unfold get_face_encodings_by_person. cbn [face_encodings].
    by rewrite filter_app, filter_cons_True, filter_nil, map_app.
  - intros other Hother. unfold get_face_encodings_by_person. cbn [face_encodings].
    rewrite filter_app, filter_cons_False, filter_nil, app_nil_r; [done|].
    cbn. congruence.
  - apply elem_of_get_all_face_encodings. cbn [persons face_encodings].
    split; [done|]. exists eid. apply elem_of_app. right. by left.
  - intros Hname. destruct Hcase as [(_ & -> & _)|(Hn & _)]; [|done].
    cbn [persons]. by split.
  - intros Hname. destruct Hcase as [(Hn & _)|(_ & -> & _ & Hfresh)]; [done|].
    cbn [persons]. split; [done|]. intros Hpid. specialize (Hfresh _ Hpid). lia.
  - intros Hdb. rewrite Hadd. apply consistent_add_face_encoding.
    destruct Hcase as [(_ & -> & ->)|(Hn & _)].
    + by destruct st as [[] ?].
    + rewrite (Hnew Hn). by apply consistent_add_person.
Qed.

(** X18. From an image that cannot be read, or on which no face or more than one
    face is found, [register_face_from_image] raises and leaves the database
    and the cache as they are; and it returns a value only for an image on
    which exactly one face is found. *)
Theorem register_face_from_image_rejects `{FaceLib} (st : State) (fs : FS) (image_path : Path)
  (person_name : string) :
  (∀ e, detect_faces_in_image fs image_path = Raise e →
        register_face_from_image st fs image_path person_name = (Raise e, st)) ∧
  (∀ face_data, detect_faces_in_image fs image_path = Ok face_data →
                length face_data ≠ 1 →
                ∃ msg, register_face_from_image st fs image_path person_name
                       = (Raise (ValueError msg), st)) ∧
  (∀ answer, (register_face_from_image st fs image_path person_name).1 = Ok answer →
             ∃ face, detect_faces_in_image fs image_path = Ok [face]).
Proof.
  split_and!.
  - intros e He. unfold register_face_from_image. by rewrite He.
  - intros face_data Hd Hlen. unfold register_face_from_image. rewrite Hd.
    destruct face_data as [|[encoding loc] [|face' face_data]]; [by eexists|done|by eexists].
  - intros answer Hanswer.
    destruct (detect_faces_in_image fs image_path) as [face_data|e] eqn:Hd.
    + destruct face_data as [|[encoding loc] [|face' face_data]].
      * unfold register_face_from_image in Hanswer. by rewrite Hd in Hanswer.
      * by eexists.
      * unfold register_face_from_image in Hanswer. by rewrite Hd in Hanswer.
    + unfold register_face_from_image in Hanswer. by rewrite Hd in Hanswer.
Qed.

(** X19. After a face is registered from an image, the service recognises that
    image: when the encoding is within the tolerance of itself and the
    distances to the stored encodings can be computed,
    [process_image_for_rename] on the same image returns one name, the name
    of a person with an encoding at least as near as the new one, and this is
    the registered name when the encodings of all other persons are farther
    away. *)
Theorem register_then_identify `{FaceLib} (st : State) (fs : FS) (image_path : Path)
  (person_name : string) (encoding : Enc) (loc : Loc) (d0 : Q) :
  detect_faces_in_image fs image_path = Ok [(encoding, loc)] →
  consistent (db st) →
  tolerance (cache st) = Config.tolerance →
  (∀ row, row ∈ face_encodings (db st) → ∃ d, norm_distance row.2 encoding = Ok d) →
  norm_distance encoding encoding = Ok d0 →
  (d0 <= Config.tolerance)%Q →
  let st' := (register_face_from_image st fs image_path person_name).2 in
  ∃ identified,
    identify_faces (cache st') [encoding] = Ok [Some identified] ∧
    process_image_for_rename (cache st') fs image_path = [identified] ∧
    (∃ pid enc d, (pid, identified, enc) ∈ get_all_face_encodings (db st') ∧
                  norm_distance enc encoding = Ok d ∧ (d <= d0)%Q) ∧
    ((∀ pid other enc d, (pid, other, enc) ∈ get_all_face_encodings (db st) →
                         other ≠ person_name →
                         norm_distance enc encoding = Ok d → (d0 < d)%Q) →
     identified = person_name).
Proof.
  intros Hdetect Hdb Htol Hdist Hd0 Hle st'. subst st'.
  destruct (register_face_from_image_one st fs image_path person_name encoding loc Hdetect)
    as (pid & eid & people & seq & -> & Hhead & Hcase & Hadd & Hnew).
  cbn [snd]. rewrite refresh_known_faces_init by done. cbn [db cache init].
  set (db' := mkDb people seq (face_encodings (db st) ++ [(eid, pid, encoding)]) eid).
  assert ((pid, person_name) ∈ people) as Hin.
  { assert ((pid, person_name) ∈ filter (λ row : Z * string, row.2 = person_name) people)
      as Hf by (destruct (filter _ people); [done|injection Hhead as ->; by left]).
    by apply list_elem_of_filter in Hf as [_ ?]. }
  assert ((pid, person_name, encoding) ∈ get_all_face_encodings db') as Hnewrow.
  { apply elem_of_get_all_face_encodings. cbn [db' persons face_encodings].
    split; [done|]. exists eid. apply elem_of_app. right. by left. }
  destruct (identify_face_spec (get_all_face_encodings db') encoding)
    as (j & pid1 & identified & enc1 & d & Hj & Hd & Hmin & _ & Hid).
  { intros Hnil. rewrite Hnil in Hnewrow. by apply elem_of_nil in Hnewrow. }
  { intros [[pid2 n2] enc2] Hrow. apply elem_of_get_all_face_encodings in Hrow as [_ [id Hid]].
    cbn [db' face_encodings] in Hid.
    apply elem_of_app in Hid as [Hid|Hid%list_elem_of_singleton].
    - apply (Hdist _ Hid).
    - injection Hid as -> -> ->. by exists d0. }
  assert (d <= d0)%Q as Hdle by apply (Hmin _ _ Hnewrow Hd0).
  assert (Qle_bool d Config.tolerance = true) as Hwithin.
  { apply Qle_bool_iff. by apply (Qle_trans _ d0). }
  rewrite Hwithin in Hid.
  assert (identify_faces (FaceSvc.init (get_all_face_encodings db')) [encoding]
          = Ok [Some identified]) as Hids.
  { rewrite identify_faces_nonempty.
    - cbn [traverse]. by rewrite Hid.
    - intros Hnil. rewrite Hnil in Hnewrow. by apply elem_of_nil in Hnewrow. }
  apply list_elem_of_lookup_2 in Hj.
  exists identified. split_and!.
  - done.
  - by rewrite (process_image_for_rename_Ok _ _ _ _ _ Hdetect Hids).
  - by exists pid1, enc1, d.
  - intros Hfar. destruct (decide (identified = person_name)) as [|Hne]; [done|].
    exfalso. destruct Hdb as (Hids' & _ & Hseq & _ & Hfk).
    apply elem_of_get_all_face_encodings in Hj as [Hperson [id Henc]].
    cbn [db' persons face_encodings] in Hperson, Henc.
    assert ((pid1, identified) ∈ persons (db st)) as Hold.
    { destruct Hcase as [(_ & -> & _)|(_ & -> & _)]; [done|].
      apply elem_of_app in Hperson as [?|Heq%list_elem_of_singleton]; [done|].
      congruence. }
    apply elem_of_app in Henc as [Henc|Heq%list_elem_of_singleton].
    + apply (Qlt_not_le _ _ (Hfar pid1 identified enc1 d
                               (proj2 (elem_of_get_all_face_encodings _ _ _ _)
                                      (conj Hold (ex_intro _ id Henc))) Hne Hd) Hdle).
    + injection Heq as -> -> ->.
      destruct Hcase as [(_ & -> & _)|(_ & _ & _ & Hfresh)].
      * apply Hne. apply (NoDup_fst_functional _ pid identified person_name Hids' Hold Hin).
      * apply (list_elem_of_fmap_2 fst) in Hold. specialize (Hfresh _ Hold). cbn in Hfresh. lia.
Qed.

End RegistrationFacts.

Section RegistrationExamples.
Import Db DbInvariant Registration.

Lemma register_face_from_image_registers_witness :
  (register_face_from_image (init Scenario2.two_people) Scenario2.portraits_fs
                            (Scenario.photo "carol.jpg") "Carol").1 = Ok true ∧
  get_all_face_encodings
    (db (register_face_from_image (init Scenario2.two_people) Scenario2.portraits_fs
                                  (Scenario.photo "carol.jpg") "Carol").2)
  = [(2%Z, "Alice", 0%Q); (1%Z, "Bob", 1%Q); (3%Z, "Carol", 2%Q)].
Proof.
  destruct (register_face_from_image_registers (H:=Scenario.lib)
              (init Scenario2.two_people) Scenario2.portraits_fs
              (Scenario.photo "carol.jpg") "Carol" 2%Q Scenario.box eq_refl)
    as (pid & Hresult & _).
  split; [exact Hresult|reflexivity].
Defined.

Lemma register_then_identify_witness :
  process_image_for_rename
    (cache (register_face_from_image (init Scenario2.two_people) Scenario2.portraits_fs
                                     (Scenario.photo "carol.jpg") "Carol").2)
    Scenario2.portraits_fs (Scenario.photo "carol.jpg")
  = ["Carol"].
Proof.
  destruct (register_then_identify (H:=Scenario.lib)
              (init Scenario2.two_people) Scenario2.portraits_fs
              (Scenario.photo "carol.jpg") "Carol" 2%Q Scenario.box 0%Q eq_refl
              two_people_consistent eq_refl)
    as (identified & _ & Hprocess & _ & Hname).
  - intros row _. eexists. reflexivity.
  - reflexivity.
  - apply Qle_bool_imp_le. vm_compute. reflexivity.
  - rewrite Hname in Hprocess; [exact Hprocess|].
    intros pid other enc d Hrow Hother Hd.
    repeat (apply elem_of_cons in Hrow as [[= -> -> ->]|Hrow];
            [injection Hd as <-; vm_compute; reflexivity|]).
    by apply elem_of_nil in Hrow.
Defined.

End RegistrationExamples.

(** ** Running [rename_single_file] again on a renamed file *)

Lemma rfind_dot_append (x t : string) :
  rfind_dot (x +:+ t)
  = match rfind_dot t with
    | Some i => Some (String.length x + i)
    | None => rfind_dot x
    end.
Proof.
  induction x as [|c x IH].
  - rewrite append_empty_l. by destruct (rfind_dot t).
  - rewrite append_cons. cbn [rfind_dot String.length]. rewrite IH.
    by destruct (rfind_dot t).
Qed.

Lemma str_drop_append (x t : string) : str_drop (String.length x) (x +:+ t) = t.
Proof.
  induction x as [|c x IH]; [rewrite append_empty_l; by destruct t|]. apply IH.
Qed.

(** The supported extensions are in lower case, start with their only dot
    and have no slash. *)
Lemma supported_format (ext : string) :
  ext ∈ Config.SUPPORTED_IMAGE_FORMATS →
  lower ext = ext ∧ char_in "/" ext = false ∧ rfind_dot ext = Some 0 ∧
  2 ≤ String.length ext.
Proof.
  unfold Config.SUPPORTED_IMAGE_FORMATS. rewrite !elem_of_union, !elem_of_singleton.
  intros Hext.
  repeat (destruct Hext as [Hext|Hext]);
    subst ext; (split_and!; [reflexivity|reflexivity|reflexivity|cbn; lia]).
Qed.

(** The path of a label with a supported extension in a directory. *)
Lemma renamed_path (dir : Path) (label ext : string) :
  label ≠ EmptyString → char_in "/" label = false →
  ext ∈ Config.SUPPORTED_IMAGE_FORMATS →
  joinpath dir (label +:+ ext) = mkPath (anchored dir) (parts dir ++ [label +:+ ext]) ∧
  suffix (joinpath dir (label +:+ ext)) = ext ∧
  parent (joinpath dir (label +:+ ext)) = dir.
Proof.
  intros Hlabel Hslash Hext.
  destruct (supported_format ext Hext) as (_ & Hext_slash & Hdot & Hlen).
  assert (1 ≤ String.length label) as Hlabel_len.
  { destruct label; [done|]. cbn. lia. }
  assert (joinpath dir (label +:+ ext)
          = mkPath (anchored dir) (parts dir ++ [label +:+ ext])) as Hjoin.
  { apply joinpath_plain.
    - destruct label as [|c label]; [done|]. rewrite append_cons.
      cbn [char_in] in Hslash. cbn [startswith].
      by destruct (decide ("/"%char = c)).
    - unfold components. rewrite split_on_absent.
      + rewrite filter_cons_True; [done|].
        split; intros Heq; apply (f_equal String.length) in Heq;
          rewrite append_length in Heq; cbn in Heq; lia.
      + by rewrite char_in_append, Hslash, Hext_slash. }
  rewrite Hjoin. split_and!; [done| |apply parent_snoc].
  unfold suffix, suffix_index. rewrite name_snoc, rfind_dot_append, Hdot.
  rewrite Nat.add_0_r, append_length.
  assert ((0 <? String.length label)
          && (String.length label <? String.length label + String.length ext - 1) = true)
    as ->.
  { apply andb_true_intro. split; apply Nat.ltb_lt; lia. }
  apply str_drop_append.
Qed.

Lemma process_image_for_rename_moved `{FaceLib} (svc : FaceService) (fs fs' : FS)
  (p q : Path) (f : File) :
  files fs !! p = Some f → files fs' !! q = Some f →
  process_image_for_rename svc fs' q = process_image_for_rename svc fs p.
Proof.
  intros Hp Hq. unfold process_image_for_rename, detect_faces_in_image.
  rewrite (path_exists_file _ _ f Hp), (path_exists_file _ _ f Hq). cbn [mbind outcome_bind bind negb].
  by rewrite Hp, Hq.
Qed.

(** A file whose derived name is the name it has is reported as a success
    and left where it is. *)
Lemma rename_single_file_in_place `{FaceLib} (svc : RenameService) (now : N) (fs : FS)
  (q : Path) (dry_run : bool) :
  lower (suffix q) ∈ Config.SUPPORTED_IMAGE_FORMATS →
  process_image_for_rename (face_service svc) fs q ≠ [] →
  joinpath (parent q)
           (generate_new_filename svc (process_image_for_rename (face_service svc) fs q) q)
  = q →
  rename_single_file svc now fs q dry_run
  = (mkResult (str_path q) true (Some (str_path q))
              (process_image_for_rename (face_service svc) fs q) None, fs).
Proof.
  intros Hsup Hne Hsame. unfold rename_single_file.
  rewrite bool_decide_eq_true_2 by done. cbn [negb].
  destruct (process_image_for_rename (face_service svc) fs q) as [|n names]; [done|].
  rewrite Hsame.
  rewrite decide_False by (intros Hc; by apply Hc).
  rewrite bool_decide_eq_false_2 by (intros Hc; by apply Hc).
  by rewrite andb_false_r.
Qed.

(** A resolver that returns for a candidate that is not there returns the
    candidate. *)
Lemma resolve_absent `{FaceLib} (svc : RenameService) (now : N) (fs : FS)
  (candidate target : Path) :
  present fs candidate = false →
  resolve_filename_conflict svc now fs candidate = Ok target →
  target = candidate ∧ path_exists fs candidate = Ok false.
Proof.
  intros Habsent. unfold resolve_filename_conflict.
  destruct (path_exists fs candidate) as [found|e] eqn:Hex.
  - apply path_exists_Ok in Hex as Hfound. rewrite Habsent in Hfound. subst found.
    rewrite resolve_missing by done. by intros [= <-].
  - by rewrite (resolve_raising _ _ _ _ e).
Qed.

(** What a successful run of [rename_single_file] has done. *)
Lemma rename_single_file_success `{FaceLib} (svc : RenameService) (now : N) (fs : FS)
  (p : Path) :
  success (rename_single_file svc now fs p false).1 = true →
  let names := process_image_for_rename (face_service svc) fs p in
  let candidate := joinpath (parent p) (generate_new_filename svc names p) in
  ∃ target,
    (if decide (candidate ≠ p)
     then resolve_filename_conflict svc now fs candidate else Ok candidate) = Ok target ∧
    lower (suffix p) ∈ Config.SUPPORTED_IMAGE_FORMATS ∧ names ≠ [] ∧
    RenameSvc.identified_names (rename_single_file svc now fs p false).1 = names ∧
    new_path (rename_single_file svc now fs p false).1 = Some (str_path target) ∧
    ((target = p ∧ (rename_single_file svc now fs p false).2 = fs) ∨
     (target ≠ p ∧ os_rename fs p target = Ok (rename_single_file svc now fs p false).2)).
Proof.
  unfold rename_single_file.
  destruct (bool_decide (lower (suffix p) ∈ Config.SUPPORTED_IMAGE_FORMATS)) eqn:Hsup;
    [|done].
  apply bool_decide_eq_true in Hsup. cbn [negb].
  destruct (process_image_for_rename (face_service svc) fs p) as [|n names]; [done|].
  cbv zeta.
  set (candidate := joinpath (parent p) (generate_new_filename svc (n :: names) p)).
  destruct (if decide (candidate ≠ p)
            then resolve_filename_conflict svc now fs candidate
            else Ok candidate) as [target|e]; [|done].
  cbn [negb andb].
  destruct (bool_decide (target ≠ p)) eqn:Hne.
  - apply bool_decide_eq_true in Hne.
    destruct (os_rename fs p target) as [fs'|e] eqn:Hrename; [|done].
    intros _. exists target. split_and!; [done|done|done|done|done|by right].
  - apply bool_decide_eq_false in Hne. apply dec_stable in Hne.
    intros _. exists target. split_and!; [done|done|done|done|done|by left].
Qed.

(** X20. A second run changes nothing: when [rename_single_file] has succeeded
    and the name it derived was free, or was the name the file had, a run on
    the new path succeeds with the same names, reports that path as the new
    one, and leaves the filesystem as the first run left it.  The joined
    names are assumed not to be empty and to have no slash. *)
Theorem rename_single_file_twice `{FaceLib} (svc : RenameService) (now now' : N)
  (fs : FS) (p : Path) :
  let first := rename_single_file svc now fs p false in
  let label := join (RenameSvc.name_separator svc) (RenameSvc.identified_names first.1) in
  let target := joinpath (parent p) (label +:+ lower (suffix p)) in
  success first.1 = true →
  label ≠ EmptyString →
  char_in "/" label = false →
  present fs target = false ∨ target = p →
  new_path first.1 = Some (str_path target) ∧
  files first.2 !! target = files fs !! p ∧
  rename_single_file svc now' first.2 target false
  = (mkResult (str_path target) true (Some (str_path target))
              (RenameSvc.identified_names first.1) None, first.2).
Proof.
  intros first label target Hsuccess Hlabel Hslash Hfree.
  destruct (rename_single_file_success svc now fs p Hsuccess)
    as (resolved & Hresolved & Hsup & Hnames & Hidentified & Hnew & Hmoved).
  fold first in Hidentified, Hnew, Hmoved.
  set (names := process_image_for_rename (face_service svc) fs p) in *.
  assert (generate_new_filename svc names p = label +:+ lower (suffix p)) as Hgen.
  { unfold label. rewrite Hidentified. by apply generate_new_filename_joins. }
  rewrite Hgen in Hresolved. fold target in Hresolved.
  rewrite Hidentified.
  destruct (decide (target = p)) as [Hsame|Hdiff].
  - rewrite decide_False in Hresolved by (intros Hc; by apply Hc).
    injection Hresolved as <-.
    destruct Hmoved as [[_ Hfs]|[Hc _]]; [|done].
    rewrite Hfs. split_and!; [done|by rewrite Hsame|].
    rewrite Hsame. apply rename_single_file_in_place; [done|done|].
    fold names. rewrite Hgen. exact Hsame.
  - destruct Hfree as [Hfree|Hc]; [|done].
    rewrite decide_True in Hresolved by done.
    apply resolve_absent in Hresolved as [-> _]; [|done].
    destruct Hmoved as [[Hc _]|[_ Hrename]]; [done|].
    apply os_rename_Ok in Hrename as (f & Hf & _ & _ & Hfs).
    assert (files first.2 !! target = Some f) as Htarget.
    { rewrite Hfs. cbn [files]. apply lookup_insert_eq. }
    destruct (renamed_path (parent p) label (lower (suffix p)) Hlabel Hslash Hsup)
      as (_ & Hsuffix & Hparent).
    fold target in Hsuffix, Hparent.
    destruct (supported_format _ Hsup) as (Hlower & _).
    assert (process_image_for_rename (face_service svc) first.2 target = names) as Hsecond
      by apply (process_image_for_rename_moved _ _ _ _ _ f Hf Htarget).
    split_and!; [done|by rewrite Htarget, Hf|].
    rewrite <-Hsecond. apply rename_single_file_in_place.
    + by rewrite Hsuffix, Hlower.
    + by rewrite Hsecond.
    + rewrite Hsecond, Hparent.
      rewrite generate_new_filename_joins by done.
      rewrite Hsuffix, Hlower. unfold target, label. by rewrite Hidentified.
Qed.

(** The photo of Alice is renamed to [Alice.jpg]; a run on [Alice.jpg] then
    leaves everything as it is. *)
Lemma rename_single_file_twice_witness :
  new_path (rename_single_file Scenario.service 1700000000 Scenario.batch_fs
                               (Scenario.photo "img_a.jpg") false).1
  = Some "photos/Alice.jpg" ∧
  (rename_single_file Scenario.service 1700000001
     (rename_single_file Scenario.service 1700000000 Scenario.batch_fs
                         (Scenario.photo "img_a.jpg") false).2
     (Scenario.photo "Alice.jpg") false).2
  = (rename_single_file Scenario.service 1700000000 Scenario.batch_fs
                        (Scenario.photo "img_a.jpg") false).2.
Proof.
  destruct (rename_single_file_twice (H:=Scenario.lib) Scenario.service 1700000000
              1700000001 Scenario.batch_fs (Scenario.photo "img_a.jpg"))
    as (Hnew & _ & Hsecond).
  - reflexivity.
  - by vm_compute.
  - reflexivity.
  - left. reflexivity.
  - split; [exact Hnew|]. apply (f_equal snd) in Hsecond. exact Hsecond.
Defined.

(** A file that was numbered because its name was taken is numbered again by
    the next run: the derived name is still taken, and the first free number
    is now the next one. *)
Example rename_single_file_numbered_again :
  let first := rename_single_file Scenario.service 1700000000 Scenario2.mixed_fs
                                  (Scenario.photo "img_a.JPG") false in
  let second := rename_single_file Scenario.service 1700000001 first.2
                                   (Scenario.photo "Alice(1).jpg") false in
  new_path first.1 = Some "photos/Alice(1).jpg" ∧
  new_path second.1 = Some "photos/Alice(2).jpg" ∧
  success second.1 = true.
Proof. vm_compute. by split_and!. Qed.
